(** * visual_agent.py: the text-to-diagram compiler

    A shallow embedding of [VisualAgent] (src/visual_agent.py): the
    classifier [detect_visual_type], the three parsers [parse_flowchart],
    [parse_diagram] and [parse_chart], the layout and the SVG renderers, and
    [generate_html] on top of them, followed by the properties of the
    specification that were checked against them.

    Python values are modelled as follows.
    - [str] is a list of Unicode code points (type [N]).
    - [re] patterns are terms of [regex]; [rx] is a backtracking matcher with
      the priorities of CPython's engine (greedy and lazy repetitions, ordered
      alternation, numbered groups, look-ahead).
    - [dict] is a [gmap], [set] a [gset]; Python lists are lists.
    - [float] is the kernel's binary64 [PrimFloat.float].
    - A function that can raise returns a [result]. *)

From Stdlib Require Import Ascii String.
From Stdlib Require Import ZArith NArith Bool Lia DecimalString.
From Stdlib Require DecimalZ DecimalPos.
From Corelib Require Import Floats.PrimFloat Floats.FloatOps.
From stdpp Require Import base option list gmap.

Local Open Scope N_scope.

(** ** Characters and strings *)

Abbreviation char := N (only parsing).
Abbreviation str := (list N) (only parsing).

(** The part of the Unicode character database that CPython consults for
    code points outside ASCII. The ASCII part is fixed below; nothing in the
    general theorems depends on any of the tables. *)
Class UnicodeData := {
  uni_isspace : char -> bool;        (* str.isspace, \s *)
  uni_decimal : char -> option N;    (* value of a decimal digit, \d *)
  uni_isalnum : char -> bool;        (* str.isalnum, \w *)
  uni_fold    : char -> char;        (* the caseless form used by re.IGNORECASE *)
  uni_lower   : char -> str          (* str.lower *)
}.

Definition is_ascii (c : char) : bool := c <? 128.
Definition between (lo hi c : char) : bool := (lo <=? c) && (c <=? hi).

Definition ascii_isspace (c : char) : bool := between 9 13 c || between 28 32 c.
Definition ascii_isdigit (c : char) : bool := between 48 57 c.
Definition ascii_isupper (c : char) : bool := between 65 90 c.
Definition ascii_islower (c : char) : bool := between 97 122 c.
Definition ascii_isalpha (c : char) : bool := ascii_isupper c || ascii_islower c.
Definition ascii_isalnum (c : char) : bool := ascii_isalpha c || ascii_isdigit c.
Definition ascii_lower (c : char) : char := if ascii_isupper c then c + 32 else c.
Definition ascii_upper (c : char) : char := if ascii_islower c then c - 32 else c.

Section Characters.
Context `{UnicodeData}.

Definition isspace (c : char) : bool :=
  if is_ascii c then ascii_isspace c else uni_isspace c.

Definition decimal_value (c : char) : option N :=
  if is_ascii c then (if ascii_isdigit c then Some (c - 48) else None)
  else uni_decimal c.

Definition isdecimal (c : char) : bool := bool_decide (is_Some (decimal_value c)).

Definition isalnum (c : char) : bool :=
  if is_ascii c then ascii_isalnum c else uni_isalnum c.

(** A word character of [re]: alphanumeric or the underscore. *)
Definition isword (c : char) : bool := isalnum c || (c =? 95).

Definition casefold (c : char) : char :=
  if is_ascii c then ascii_lower c else uni_fold c.

(** [s.lower()] *)
Definition lower (s : str) : str :=
  flat_map (fun c => if is_ascii c then [ascii_lower c] else uni_lower c) s.

(** [s.strip()] *)
Fixpoint lstrip (s : str) : str :=
  match s with
  | c :: s' => if isspace c then lstrip s' else s
  | [] => []
  end.
Definition rstrip (s : str) : str := reverse (lstrip (reverse s)).
Definition strip (s : str) : str := rstrip (lstrip s).
End Characters.

(** [s.split(sep)] for a one-character separator: the pieces between the
    occurrences of [sep], empty pieces included. *)
Fixpoint split_char (sep : char) (s : str) : list str :=
  match s with
  | [] => [[]]
  | c :: s' =>
      if c =? sep then [] :: split_char sep s'
      else match split_char sep s' with
           | [] => [[c]]
           | p :: ps => (c :: p) :: ps
           end
  end.

Definition str_eqb (a b : str) : bool := bool_decide (a = b).

Fixpoint startswith (p s : str) : bool :=
  match p, s with
  | [], _ => true
  | a :: p', b :: s' => (a =? b) && startswith p' s'
  | _ :: _, [] => false
  end.

(** [sub in s] *)
Fixpoint contains (sub s : str) : bool :=
  startswith sub s || match s with [] => false | _ :: s' => contains sub s' end.

(** [s.endswith(p)] *)
Definition endswith (p s : str) : bool := startswith (reverse p) (reverse s).

(** [sep.join(ps)] *)
Fixpoint join (sep : str) (ps : list str) : str :=
  match ps with
  | [] => []
  | [p] => p
  | p :: ps' => p ++ sep ++ join sep ps'
  end.

(** [c in s] for a single character. *)
Definition has_char (c : char) (s : str) : bool := existsb (N.eqb c) s.

(** Python truthiness of a string and of an optional string. *)
Definition nonempty (s : str) : bool := match s with [] => false | _ => true end.
Definition truthy (o : option str) : bool :=
  match o with Some s => nonempty s | None => false end.

(** *** String literals

    [py] reads the body of a Python string literal written in ASCII, with the
    escapes [\n], [\\], [\xHH] and [\uHHHH]. *)
Definition hex_value (c : char) : option N :=
  if ascii_isdigit c then Some (c - 48)
  else if between 97 102 c then Some (c - 87)
  else if between 65 70 c then Some (c - 55)
  else None.

Fixpoint hex_number (acc : N) (ds : str) : option N :=
  match ds with
  | [] => Some acc
  | d :: ds' => match hex_value d with
                | Some v => hex_number (16 * acc + v) ds'
                | None => None
                end
  end.

Fixpoint unescape (fuel : nat) (s : str) : str :=
  match fuel, s with
  | S fuel', c :: s' =>
      if c =? 92 then
        match s' with
        | e :: s'' =>
            if (e =? 110) then 10 :: unescape fuel' s''
            else if (e =? 92) then 92 :: unescape fuel' s''
            else if (e =? 120) then
              match hex_number 0 (take 2 s'') with
              | Some v => v :: unescape fuel' (drop 2 s'')
              | None => c :: unescape fuel' s'
              end
            else if (e =? 117) then
              match hex_number 0 (take 4 s'') with
              | Some v => v :: unescape fuel' (drop 4 s'')
              | None => c :: unescape fuel' s'
              end
            else c :: unescape fuel' s'
        | [] => [c]
        end
      else c :: unescape fuel' s'
  | _, _ => s
  end.

Definition codes (s : string) : str :=
  map (fun a => N_of_ascii a) (list_ascii_of_string s).

Definition py (s : string) : str := unescape (String.length s) (codes s).
Arguments py s%_string : simpl never.

(** [str(n)] for an integer. *)
Definition str_of_int (z : Z) : str := codes (NilZero.string_of_int (Z.to_int z)).

(** ** Regular expressions

    The patterns of the program use literals, character sets, repetitions of a
    single character or set, groups, ordered alternation, optional parts, the
    anchors [^], [$] and [\b], and one look-ahead. Every repetition in them
    ranges over a single character or set, so [Rep] takes an [atom]. *)

Inductive cclass :=
| CChar (c : char)            (* a    *)
| CRange (lo hi : char)       (* a-z  *)
| CSpace                      (* \s   *)
| CNotSpace                   (* \S   *)
| CDigit.                     (* \d   *)

Inductive atom :=
| Lit (c : char)                                (* a literal character *)
| Dot                                           (* .  (no DOTALL) *)
| Among (negated : bool) (items : list cclass). (* [...] and [^...] *)

Inductive regex :=
| Eps
| One (a : atom)
| Rep (a : atom) (lo : nat) (hi : option nat) (greedy : bool)  (* a{lo,hi} *)
| Cat (r1 r2 : regex)
| Alt (r1 r2 : regex)         (* r1|r2 *)
| Grp (n : nat) (r : regex)   (* the n-th capturing group *)
| Opt (r : regex)             (* (?:r)? *)
| Bol                         (* ^  (no MULTILINE) *)
| Eol                         (* $  (no MULTILINE) *)
| WordB                       (* \b *)
| Ahead (r : regex).          (* (?=r) *)

(** The spans captured so far: group number, start and end offset. *)
Abbreviation caps := (list (nat * (nat * nat))) (only parsing).

(** A match: its span in the subject and the spans of its groups. *)
Record rmatch := { m_start : nat; m_end : nat; m_caps : caps }.

(** First alternative, and the second one only when the first one fails. *)
Notation "a <|> b" := (match a with Some m => Some m | None => b end)
  (at level 60, right associativity, only parsing).

Section Matcher.
Context `{UnicodeData}.

Definition cclass_has (i : cclass) (c : char) : bool :=
  match i with
  | CChar a => c =? a
  | CRange lo hi => between lo hi c
  | CSpace => isspace c
  | CNotSpace => negb (isspace c)
  | CDigit => isdecimal c
  end.

Definition among (items : list cclass) (c : char) : bool :=
  existsb (fun i => cclass_has i c) items.

(** Does the atom accept the character? [ci] is re.IGNORECASE. *)
Definition atom_ok (ci : bool) (a : atom) (c : char) : bool :=
  match a with
  | Lit p => (c =? p) || (ci && (casefold c =? casefold p))
  | Dot => negb (c =? 10)
  | Among negated items =>
      xorb negated
        (among items c ||
         (ci && (among items (casefold c) || among items (ascii_upper (casefold c)))))
  end.

(** [a{lo,hi}] from the current position; [pre] is the text consumed so
    far, last character first. A greedy repetition tries one more
    character before it tries to stop, a lazy one the other way round. *)
Fixpoint rep (ok : char -> bool) (greedy : bool) (lo : nat) (hi : option nat)
    (pre rest : str) (k : str -> str -> option (nat * caps)) : option (nat * caps) :=
  let again := fun _ : unit =>
    match hi, rest with
    | Some O, _ => None
    | _, c :: rest' =>
        if ok c then rep ok greedy (pred lo) (pred <$> hi) (c :: pre) rest' k else None
    | _, [] => None
    end in
  match lo with
  | S _ => again ()
  | O => if greedy then again () <|> k pre rest else k pre rest <|> again ()
  end.

(** [$]: the end of the subject, or the newline that ends it. *)
Definition at_end (rest : str) : bool :=
  match rest with
  | [] => true
  | c :: rest' => (c =? 10) && negb (nonempty rest')
  end.

Definition word_at (o : option char) : bool :=
  match o with Some c => isword c | None => false end.

(** The backtracking matcher, in continuation-passing style: [rx ci r pre
    rest cs k] matches [r] at the position between [pre] and [rest] and hands
    every way of doing so, in the engine's order of preference, to [k],
    until [k] accepts one. *)
Fixpoint rx (ci : bool) (r : regex) (pre rest : str) (cs : caps)
    (k : str -> str -> caps -> option (nat * caps)) : option (nat * caps) :=
  match r with
  | Eps => k pre rest cs
  | One a =>
      match rest with
      | c :: rest' => if atom_ok ci a c then k (c :: pre) rest' cs else None
      | [] => None
      end
  | Rep a lo hi greedy =>
      rep (atom_ok ci a) greedy lo hi pre rest (fun pre' rest' => k pre' rest' cs)
  | Cat r1 r2 =>
      rx ci r1 pre rest cs (fun pre' rest' cs' => rx ci r2 pre' rest' cs' k)
  | Alt r1 r2 => rx ci r1 pre rest cs k <|> rx ci r2 pre rest cs k
  | Grp n r1 =>
      rx ci r1 pre rest cs
        (fun pre' rest' cs' => k pre' rest' ((n, (length pre, length pre')) :: cs'))
  | Opt r1 => rx ci r1 pre rest cs k <|> k pre rest cs
  | Bol => match pre with [] => k pre rest cs | _ => None end
  | Eol => if at_end rest then k pre rest cs else None
  | WordB =>
      if xorb (word_at (head pre)) (word_at (head rest)) then k pre rest cs else None
  | Ahead r1 =>
      match rx ci r1 pre rest cs (fun pre' _ cs' => Some (length pre', cs')) with
      | Some (_, cs') => k pre rest cs'
      | None => None
      end
  end.

(** One attempt at the position between [pre] and [rest]. *)
Definition match_here (ci : bool) (r : regex) (pre rest : str) : option rmatch :=
  match rx ci r pre rest [] (fun pre' _ cs => Some (length pre', cs)) with
  | Some (e, cs) => Some {| m_start := length pre; m_end := e; m_caps := cs |}
  | None => None
  end.

(** The leftmost match at or after the current position. *)
Fixpoint search_from (ci : bool) (r : regex) (pre rest : str) : option rmatch :=
  match_here ci r pre rest <|>
  match rest with
  | c :: rest' => search_from ci r (c :: pre) rest'
  | [] => None
  end.

(** All matches from left to right, none overlapping another. [skip]
    characters are still covered by the previous match. The patterns given
    to [findall], [split] and [sub] by the program match no empty string;
    an empty match would be passed over by one character here. *)
Fixpoint finditer_from (ci : bool) (r : regex) (skip : nat) (pre rest : str)
    : list rmatch :=
  let here := match skip with O => match_here ci r pre rest | S _ => None end in
  match here, rest with
  | Some m, c :: rest' =>
      m :: finditer_from ci r (pred (m_end m - m_start m)) (c :: pre) rest'
  | Some m, [] => [m]
  | None, c :: rest' => finditer_from ci r (pred skip) (c :: pre) rest'
  | None, [] => []
  end.

(** [re.search], [re.match] and [re.findall]; [ci] is [flags=re.IGNORECASE]. *)
Definition re_search (ci : bool) (r : regex) (s : str) : option rmatch :=
  search_from ci r [] s.
Definition re_match (ci : bool) (r : regex) (s : str) : option rmatch :=
  match_here ci r [] s.
Definition re_finditer (ci : bool) (r : regex) (s : str) : list rmatch :=
  finditer_from ci r 0 [] s.

(** The text between two offsets. *)
Definition slice (s : str) (b e : nat) : str := take (e - b) (drop b s).

(** [m.group(n)]: [None] when the group took no part in the match. *)
Definition group (s : str) (m : rmatch) (n : nat) : option str :=
  match list_find (fun p => fst p = n) (m_caps m) with
  | Some (_, (_, (b, e))) => Some (slice s b e)
  | None => None
  end.

(** [m.group(n)] for a group that takes part in every match. *)
Definition grp (s : str) (m : rmatch) (n : nat) : str := default [] (group s m n).

(** The pieces of [s] before, between and after the given matches. *)
Fixpoint pieces (s : str) (from : nat) (ms : list rmatch) : list str :=
  match ms with
  | [] => [drop from s]
  | m :: ms' => slice s from (m_start m) :: pieces s (m_end m) ms'
  end.

(** [re.split(r, s)] for a pattern without groups. *)
Definition re_split (ci : bool) (r : regex) (s : str) : list str :=
  pieces s 0 (re_finditer ci r s).

(** [re.sub(r, repl, s)] for a replacement without back-references. *)
Definition re_sub (ci : bool) (r : regex) (repl s : str) : str :=
  join repl (pieces s 0 (re_finditer ci r s)).
End Matcher.

Section Lines.
Context `{UnicodeData}.

(** [lines = [line.strip() for line in text.split('\n') if line.strip()]], the
    first statement of the three parsers. *)
Definition nonblank_lines (text : str) : list (list N) :=
  map strip (filter (fun line => nonempty (strip line) = true) (split_char 10 text)).
End Lines.

(** *** Writing patterns *)

Definition cat (rs : list regex) : regex := foldr Cat Eps rs.
Definition lit (s : string) : regex := cat (map (fun c => One (Lit c)) (py s)).
Arguments lit s%_string.
Definition alts (rs : list regex) : regex :=
  match rs with
  | [] => Eps
  | r :: rs' => fold_left Alt rs' r
  end.
Definition words (ws : list string) : regex := alts (map lit ws).
Definition one_of (s : string) : list cclass := map CChar (py s).
Arguments one_of s%_string.

Definition ws : atom := Among false [CSpace].       (* \s *)
Definition nonws : atom := Among true [CSpace].     (* \S *)
Definition digit : atom := Among false [CDigit].    (* \d *)
Definition star (a : atom) : regex := Rep a 0 None true.        (* a*  *)
Definition plus (a : atom) : regex := Rep a 1 None true.        (* a+  *)
Definition plus_lazy (a : atom) : regex := Rep a 1 None false.  (* a+? *)
Definition times (a : atom) (n : nat) : regex := Rep a n (Some n) true. (* a{n} *)
Definition at_least (a : atom) (n : nat) : regex := Rep a n None true.  (* a{n,} *)

(** ** Exceptions *)

Inductive exn := ValueError | ZeroDivisionError | KeyError | IndexError.

Inductive result (A : Type) :=
| Ok (a : A)
| Raise (e : exn).
Arguments Ok {A} a.
Arguments Raise {A} e.

#[global] Instance result_ret : MRet result := fun A a => Ok a.
#[global] Instance result_bind : MBind result := fun A B f r =>
  match r with
  | Ok a => f a
  | Raise e => Raise e
  end.

(** ** The data model *)

(** [class VisualType(Enum)] *)
Inductive VisualType := FLOWCHART | DIAGRAM | CHART.

Definition VisualType_value (t : VisualType) : str :=
  match t with
  | FLOWCHART => py "flowchart"
  | DIAGRAM => py "diagram"
  | CHART => py "chart"
  end.

(** [VisualType(value)]: the member with that value, [ValueError] when there
    is none. *)
Definition VisualType_of_value (v : str) : result VisualType :=
  match list_find (fun t => VisualType_value t = v) [FLOWCHART; DIAGRAM; CHART] with
  | Some (_, t) => Ok t
  | None => Raise ValueError
  end.

(** ** The classifier *)

(* r'[:=]\s*\d+' *)
Definition RE_KEY_VALUE : regex :=
  cat [One (Among false (one_of ":=")); star ws; plus digit].

(* r'\b(q1|q2|q3|q4|jan|feb|mar|apr|may|jun|jul|aug|sep|oct|nov|dec)\b' *)
Definition RE_QUARTER_OR_MONTH : regex :=
  cat [WordB;
       Grp 1 (words ["q1"; "q2"; "q3"; "q4"; "jan"; "feb"; "mar"; "apr"; "may"; "jun";
                     "jul"; "aug"; "sep"; "oct"; "nov"; "dec"]%string);
       WordB].

(* r'\b(start|begin|end|finish|step|process)\b' *)
Definition RE_FLOW_KEYWORDS : regex :=
  cat [WordB;
       Grp 1 (words ["start"; "begin"; "end"; "finish"; "step"; "process"]%string);
       WordB].

(* r'\b(yes|no)\s*:' *)
Definition RE_YES_NO : regex :=
  cat [WordB; Grp 1 (words ["yes"; "no"]%string); star ws; lit ":"].

(* r'\bif\b[\s\S]*\bthen\b' *)
Definition RE_IF_THEN_ANYWHERE : regex :=
  cat [WordB; lit "if"; WordB; star (Among false [CSpace; CNotSpace]); WordB; lit "then";
       WordB].

Section Classifier.
Context `{UnicodeData}.

(** [bool(re.search(...))] *)
Definition found (ci : bool) (r : regex) (s : str) : bool :=
  bool_decide (is_Some (re_search ci r s)).

Definition detect_visual_type (text preferred_type : str) : result VisualType :=
  if negb (str_eqb preferred_type (py "auto")) then
    VisualType_of_value preferred_type
  else
    let text_lower := lower text in
    (* Check for chart indicators *)
    let has_key_value := found false RE_KEY_VALUE text in
    let has_quarter_or_month := found true RE_QUARTER_OR_MONTH text in
    if (has_key_value && has_quarter_or_month)
       || bool_decide (3 <= length (re_finditer false RE_KEY_VALUE text))%nat
    then Ok CHART
    else
      (* Check for flowchart indicators *)
      let has_flow_keywords := found false RE_FLOW_KEYWORDS text_lower in
      let has_decision := has_char 63 text in
      let has_yes_no := found true RE_YES_NO text in
      let has_if_then := found true RE_IF_THEN_ANYWHERE text in
      if has_flow_keywords || has_decision || has_yes_no || has_if_then
      then Ok FLOWCHART
      else (* Default to diagram *) Ok DIAGRAM.

(** The two signals of the classifier, as the specification names them. *)
Definition chart_signal (text : str) : Prop :=
  (is_Some (re_search false RE_KEY_VALUE text)
   /\ is_Some (re_search true RE_QUARTER_OR_MONTH text))
  \/ (3 <= length (re_finditer false RE_KEY_VALUE text))%nat.

Definition flowchart_signal (text : str) : Prop :=
  is_Some (re_search false RE_FLOW_KEYWORDS (lower text))
  \/ 63 ∈ text
  \/ is_Some (re_search true RE_YES_NO text)
  \/ is_Some (re_search true RE_IF_THEN_ANYWHERE text).
End Classifier.

(** ** Local state

    The parsers build their result in local variables that the nested helper
    functions update. They are modelled as a state that the statements pass
    along; every call starts from a fresh one. *)

Definition State (S A : Type) : Type := S -> A * S.

#[global] Instance state_ret {S} : MRet (State S) := fun A a s => (a, s).
#[global] Instance state_bind {S} : MBind (State S) := fun A B f m s =>
  let '(a, s') := m s in f a s'.

Definition get {S} : State S S := fun s => (s, s).
Definition modify {S} (f : S -> S) : State S unit := fun s => (tt, f s).
Definition skip {S} : State S unit := mret tt.
Definition when {S} (b : bool) (body : State S unit) : State S unit :=
  if b then body else skip.

(** [for x in xs: body] *)
Fixpoint for_each {S A} (xs : list A) (body : A -> State S unit) : State S unit :=
  match xs with
  | [] => skip
  | x :: xs' => body x ;; for_each xs' body
  end.

(** [enumerate(xs)] *)
Definition enumerate {A} (xs : list A) : list (nat * A) := zip (seq 0 (length xs)) xs.

(** [class Node]; its fields [x], [y], [width] and [height] keep their
    defaults and are never read. The dictionaries that [parse_flowchart]
    returns carry the same three fields, and those of [Edge]. *)
Record Node := mkNode { n_id : str; n_label : str; n_type : str }.

(** [class Edge] *)
Record Edge := mkEdge { from_node : str; to_node : str; e_label : option str }.

#[global] Instance Node_eq_dec : EqDecision Node.
Proof. solve_decision. Defined.
#[global] Instance Edge_eq_dec : EqDecision Edge.
Proof. solve_decision. Defined.

(** ** The flowchart parser *)

(* r'\s*→\s*|\s*->\s*' *)
Definition RE_ARROW : regex :=
  Alt (cat [star ws; lit "\u2192"; star ws]) (cat [star ws; lit "->"; star ws]).

(* r'^if\s+(.+?)\s+then\s+(.+?)(?:\s+else\s+(.+))?$' *)
Definition RE_IF_THEN_ELSE : regex :=
  cat [Bol; lit "if"; plus ws; Grp 1 (plus_lazy Dot); plus ws; lit "then"; plus ws;
       Grp 2 (plus_lazy Dot);
       Opt (cat [plus ws; lit "else"; plus ws; Grp 3 (plus Dot)]); Eol].

(* r'^yes\s*:\s*(.+?)(?=\s+no\s*:|$)' *)
Definition RE_YES_PATH : regex :=
  cat [Bol; lit "yes"; star ws; lit ":"; star ws; Grp 1 (plus_lazy Dot);
       Ahead (Alt (cat [plus ws; lit "no"; star ws; lit ":"]) Eol)].

(* r'no\s*:\s*(.+?)$' *)
Definition RE_NO_PATH : regex :=
  cat [lit "no"; star ws; lit ":"; star ws; Grp 1 (plus_lazy Dot); Eol].

(* r'\b(start|begin|end|finish)\b' *)
Definition RE_TERMINAL : regex :=
  cat [WordB; Grp 1 (words ["start"; "begin"; "end"; "finish"]%string); WordB].

(* r'^step\s*\d+\s*:\s*(.+)$' *)
Definition RE_STEP : regex :=
  cat [Bol; lit "step"; star ws; plus digit; star ws; lit ":"; star ws; Grp 1 (plus Dot);
       Eol].

(* r'\b(decision|check|validate|verify)\b' *)
Definition RE_DECISION : regex :=
  cat [WordB; Grp 1 (words ["decision"; "check"; "validate"; "verify"]%string); WordB].

(* r'^(yes|no)\s*:' *)
Definition RE_YES_NO_AHEAD : regex :=
  cat [Bol; Grp 1 (words ["yes"; "no"]%string); star ws; lit ":"].

Module Flowchart.

(** The local variables of [parse_flowchart]. *)
Record fc_state := {
  nodes : list Node;
  edges : list Edge;
  node_map : gmap (list N) (list N);
  node_id_counter : nat;
  sequential_candidates : list (list N);
  last_decision : option (list N);
  decision_to_branches : gmap (list N) (gset (list N));
  last_non_decision : option (list N);
  decision_prev_map : gmap (list N) (list N)
}.

Definition fc_initial : fc_state :=
  {| nodes := []; edges := []; node_map := ∅; node_id_counter := 0;
     sequential_candidates := []; last_decision := None; decision_to_branches := ∅;
     last_non_decision := None; decision_prev_map := ∅ |}.

(** [def add_node(label, node_type)] *)
Definition add_node (label node_type : str) : State fc_state str := fun st =>
  match node_map st !! label with
  | None =>
      let node_id := py "node_" ++ str_of_int (Z.of_nat (node_id_counter st)) in
      (node_id,
       {| nodes := nodes st ++ [mkNode node_id label node_type];
          edges := edges st;
          node_map := <[label := node_id]> (node_map st);
          node_id_counter := S (node_id_counter st);
          sequential_candidates := sequential_candidates st;
          last_decision := last_decision st;
          decision_to_branches := decision_to_branches st;
          last_non_decision := last_non_decision st;
          decision_prev_map := decision_prev_map st |})
  | Some node_id => (node_id, st)
  end.

(** [edges.append(e)] *)
Definition append_edge (e : Edge) : State fc_state unit := modify (fun st =>
  {| nodes := nodes st; edges := edges st ++ [e]; node_map := node_map st;
     node_id_counter := node_id_counter st;
     sequential_candidates := sequential_candidates st;
     last_decision := last_decision st;
     decision_to_branches := decision_to_branches st;
     last_non_decision := last_non_decision st;
     decision_prev_map := decision_prev_map st |}).

(** [sequential_candidates.append(label)] *)
Definition append_candidate (l : str) : State fc_state unit := modify (fun st =>
  {| nodes := nodes st; edges := edges st; node_map := node_map st;
     node_id_counter := node_id_counter st;
     sequential_candidates := sequential_candidates st ++ [l];
     last_decision := last_decision st;
     decision_to_branches := decision_to_branches st;
     last_non_decision := last_non_decision st;
     decision_prev_map := decision_prev_map st |}).

(** [last_decision = l] *)
Definition set_last_decision (l : str) : State fc_state unit := modify (fun st =>
  {| nodes := nodes st; edges := edges st; node_map := node_map st;
     node_id_counter := node_id_counter st;
     sequential_candidates := sequential_candidates st;
     last_decision := Some l;
     decision_to_branches := decision_to_branches st;
     last_non_decision := last_non_decision st;
     decision_prev_map := decision_prev_map st |}).

(** [last_non_decision = l] *)
Definition set_last_non_decision (l : str) : State fc_state unit := modify (fun st =>
  {| nodes := nodes st; edges := edges st; node_map := node_map st;
     node_id_counter := node_id_counter st;
     sequential_candidates := sequential_candidates st;
     last_decision := last_decision st;
     decision_to_branches := decision_to_branches st;
     last_non_decision := Some l;
     decision_prev_map := decision_prev_map st |}).

Definition set_decision_to_branches (f : gmap (list N) (gset (list N)) ->
                                         gmap (list N) (gset (list N)))
  : State fc_state unit := modify (fun st =>
  {| nodes := nodes st; edges := edges st; node_map := node_map st;
     node_id_counter := node_id_counter st;
     sequential_candidates := sequential_candidates st;
     last_decision := last_decision st;
     decision_to_branches := f (decision_to_branches st);
     last_non_decision := last_non_decision st;
     decision_prev_map := decision_prev_map st |}).

(** [if d not in decision_to_branches: decision_to_branches[d] = set()] *)
Definition ensure_branches (d : str) : State fc_state unit :=
  set_decision_to_branches (fun m =>
    match m !! d with None => <[d := ∅]> m | Some _ => m end).

(** [decision_to_branches[d].add(b)]; the key is always present here. *)
Definition add_branch (d b : str) : State fc_state unit :=
  set_decision_to_branches (alter (fun bs => {[b]} ∪ bs) d).

(** [if last_non_decision: decision_prev_map[d] = last_non_decision] *)
Definition note_previous (d : str) : State fc_state unit := modify (fun st =>
  match last_non_decision st with
  | Some p =>
      if nonempty p then
        {| nodes := nodes st; edges := edges st; node_map := node_map st;
           node_id_counter := node_id_counter st;
           sequential_candidates := sequential_candidates st;
           last_decision := last_decision st;
           decision_to_branches := decision_to_branches st;
           last_non_decision := last_non_decision st;
           decision_prev_map := <[d := p]> (decision_prev_map st) |}
      else st
  | None => st
  end).

Section Parser.
Context `{UnicodeData}.

(** ["terminal" if is_terminal else "process"] *)
Definition action_type (action : str) : str :=
  let is_terminal := found true RE_TERMINAL action in
  if is_terminal then py "terminal" else py "process".

(** ["decision" if is_decision else ("terminal" if is_terminal else "process")] *)
Definition is_decision_text (s : str) : bool :=
  has_char 63 s || found true RE_DECISION s.
Definition step_type (s : str) : str :=
  if is_decision_text s then py "decision" else action_type s.

(** The three capture groups of an if-then-else match, stripped. *)
Definition condition_of (s : str) (m : rmatch) : str := strip (grp s m 1).
Definition then_of (s : str) (m : rmatch) : str := strip (grp s m 2).
Definition else_of (s : str) (m : rmatch) : str :=
  if truthy (group s m 3) then strip (grp s m 3) else [].
Definition decision_label_of (condition : str) : str :=
  if endswith (py "?") condition then condition else condition ++ py "?".

(** Lines 131-160: a line that is an if-then-else statement. *)
Definition line_if_then (line : str) (m : rmatch) : State fc_state unit :=
  let condition := condition_of line m in
  let then_action := then_of line m in
  let else_action := else_of line m in
  let decision_label := decision_label_of condition in
  decision_id ← add_node decision_label (py "decision");
  set_last_decision decision_label;;
  ensure_branches decision_label;;
  when (nonempty then_action)
    (then_id ← add_node then_action (action_type then_action);
     append_edge (mkEdge decision_id then_id (Some (py "Yes")));;
     add_branch decision_label (py "Yes"));;
  when (nonempty else_action)
    (else_id ← add_node else_action (action_type else_action);
     append_edge (mkEdge decision_id else_id (Some (py "No")));;
     add_branch decision_label (py "No")).

(** Lines 168-181 and 183-196: one branch of a stand-alone Yes/No line. The
    edge starts at the node that [node_map] has for the last decision. *)
Definition line_branch (line : str) (branch_match : option rmatch) (answer : str)
  : State fc_state unit :=
  match branch_match with
  | Some m =>
      let path := strip (grp line m 1) in
      st ← get;
      let decision_source := last_decision st in
      when (truthy decision_source && nonempty path)
        (let source := default [] decision_source in
         path_id ← add_node path (action_type path);
         st' ← get;
         let decision_id := node_map st' !! source in
         when (truthy decision_id)
           (append_edge (mkEdge (default [] decision_id) path_id (Some answer)));;
         ensure_branches source;;
         add_branch source answer)
  | None => skip
  end.

(** Lines 163-197: a stand-alone Yes/No line. *)
Definition line_branches (line : str) : State fc_state unit :=
  let yes_match := re_search true RE_YES_PATH line in
  let no_match := re_search true RE_NO_PATH line in
  line_branch line yes_match (py "Yes");;
  line_branch line no_match (py "No").

(** Lines 215-222 and 312-319: the parser's memory of the last decision and
    of the last step that is none. *)
Definition remember (l : str) (is_decision : bool) : State fc_state unit :=
  when is_decision
    (set_last_decision l;; ensure_branches l;; note_previous l);;
  when (negb is_decision) (set_last_non_decision l).

(** Lines 199-225: a sequential step. *)
Definition line_step (line : str) : State fc_state unit :=
  let step_match := re_match true RE_STEP line in
  let label := match step_match with
               | Some m => strip (grp line m 1)
               | None => line
               end in
  let is_decision := is_decision_text label in
  let node_type := step_type label in
  add_node label node_type;;
  remember label is_decision;;
  append_candidate label.

(** Lines 236-268: a segment of an arrow chain that is an if-then-else
    statement. *)
Definition part_if_then (part : str) (m : rmatch) : State fc_state unit :=
  let condition := condition_of part m in
  let then_action := then_of part m in
  let else_action := else_of part m in
  let decision_label := decision_label_of condition in
  decision_id ← add_node decision_label (py "decision");
  set_last_decision decision_label;;
  ensure_branches decision_label;;
  note_previous decision_label;;
  when (nonempty then_action)
    (then_id ← add_node then_action (action_type then_action);
     append_edge (mkEdge decision_id then_id (Some (py "Yes")));;
     add_branch decision_label (py "Yes"));;
  when (nonempty else_action)
    (else_id ← add_node else_action (action_type else_action);
     append_edge (mkEdge decision_id else_id (Some (py "No")));;
     add_branch decision_label (py "No")).

(** Lines 276-287 and 289-300: one branch of a Yes/No segment. The edge
    starts at [decision_source] itself, which is a label. *)
Definition part_branch (part : str) (branch_match : option rmatch) (answer : str)
  : State fc_state unit :=
  match branch_match with
  | Some m =>
      let path := strip (grp part m 1) in
      st ← get;
      let decision_source := last_decision st in
      when (truthy decision_source && nonempty path)
        (let source := default [] decision_source in
         path_id ← add_node path (action_type path);
         append_edge (mkEdge source path_id (Some answer));;
         ensure_branches source;;
         add_branch source answer)
  | None => skip
  end.

(** Lines 302-326: a plain segment, and its connection to the next one. *)
Definition part_regular (arrow_parts : list (list N)) (i : nat) (part : str)
  : State fc_state unit :=
  let is_decision := is_decision_text part in
  let node_type := step_type part in
  node_id ← add_node part node_type;
  remember part is_decision;;
  (* Connect to next part *)
  when (bool_decide (i < length arrow_parts - 1)%nat)
    (let next_part := strip (default [] (arrow_parts !! (i + 1)%nat)) in
     when (negb (bool_decide (is_Some (re_match true RE_YES_NO_AHEAD next_part))))
       (next_id ← add_node next_part (py "process");
        append_edge (mkEdge node_id next_id None))).

(** Lines 228-326: the body of the loop over the segments of a chain. *)
Definition arrow_part (arrow_parts : list (list N)) (i : nat) (part0 : str)
  : State fc_state unit :=
  let part := strip part0 in
  if negb (nonempty part) then skip
  else
    match re_match true RE_IF_THEN_ELSE part with
    | Some m => part_if_then part m
    | None =>
        let yes_match := re_search true RE_YES_PATH part in
        let no_match := re_search true RE_NO_PATH part in
        if bool_decide (is_Some yes_match) || bool_decide (is_Some no_match) then
          part_branch part yes_match (py "Yes");;
          part_branch part no_match (py "No")
        else part_regular arrow_parts i part
    end.

(** Lines 121-326: the body of the loop over the lines. *)
Definition parse_line (line : str) : State fc_state unit :=
  (* Check for arrow connections *)
  let arrow_parts := re_split false RE_ARROW line in
  let has_arrow := bool_decide (1 < length arrow_parts)%nat in
  let has_branch := found true RE_YES_NO line in
  match re_match true RE_IF_THEN_ELSE line with
  | Some m => line_if_then line m
  | None =>
      if has_branch && negb has_arrow then line_branches line
      else if negb has_arrow && negb has_branch then line_step line
      else for_each (enumerate arrow_parts)
             (fun ip => arrow_part arrow_parts (fst ip) (snd ip))
  end.

(** [any(e.from_node == a and e.to_node == b for e in edges)] *)
Definition linked (es : list Edge) (a b : str) : bool :=
  existsb (fun e => str_eqb (from_node e) a && str_eqb (to_node e) b) es.

Definition labelled (answer : str) (e : Edge) : bool :=
  bool_decide (e_label e = Some answer).

(** Lines 334-366: the branches of one decision node. The Yes branch is
    connected to the End node, the No branch to the step after the decision. *)
Definition connect_branches (decision : Node) : State fc_state unit :=
  st ← get;
  let decision_id := n_id decision in
  let decision_edges :=
    filter (fun e => str_eqb (from_node e) decision_id
                     && (labelled (py "Yes") e || labelled (py "No") e) = true)
           (edges st) in
  let yes_edge := head (filter (fun e => labelled (py "Yes") e = true) decision_edges) in
  let no_edge := head (filter (fun e => labelled (py "No") e = true) decision_edges) in
  match yes_edge, no_edge with
  | Some yes_edge, Some no_edge =>
      let yes_to_id := to_node yes_edge in
      let no_to_id := to_node no_edge in
      (* Connect Yes branch to End *)
      let end_node :=
        head (filter (fun n => str_eqb (n_type n) (py "terminal")
                               && contains (py "end") (lower (n_label n)) = true)
                     (nodes st)) in
      match end_node with
      | Some end_node =>
          when (negb (linked (edges st) yes_to_id (n_id end_node)))
            (append_edge (mkEdge yes_to_id (n_id end_node) None))
      | None => skip
      end;;
      (* Connect No branch to the next step in the flow *)
      st ← get;
      match list_find (fun l => l = n_label decision) (sequential_candidates st) with
      | Some (decision_index, _) =>
          when (bool_decide (decision_index < length (sequential_candidates st) - 1)%nat)
            (let next_step :=
               default [] (sequential_candidates st !! (decision_index + 1)%nat) in
             match node_map st !! next_step with
             | Some next_id =>
                 when (negb (linked (edges st) no_to_id next_id))
                   (append_edge (mkEdge no_to_id next_id None))
             | None => skip
             end)
      | None => skip
      end
  | _, _ => skip
  end.

(** Lines 369-385: the remaining sequential connections. *)
Definition connect_sequential (i : nat) : State fc_state unit :=
  st ← get;
  let from_label := default [] (sequential_candidates st !! i) in
  let to_label := default [] (sequential_candidates st !! (i + 1)%nat) in
  match node_map st !! from_label, node_map st !! to_label with
  | Some from_id, Some to_id =>
      let from_node := head (filter (fun n => n_label n = from_label) (nodes st)) in
      let from_decision :=
        match from_node with
        | Some n => str_eqb (n_type n) (py "decision")
        | None => false
        end in
      (* Skip if edge already exists or if it's a decision node *)
      if linked (edges st) from_id to_id || from_decision then skip
      else append_edge (mkEdge from_id to_id None)
  | _, _ => skip
  end.

(** Lines 328-385: the connections added after the lines have been read. *)
Definition connect : State fc_state unit :=
  st ← get;
  let decision_nodes :=
    filter (fun n => str_eqb (n_type n) (py "decision") = true) (nodes st) in
  for_each decision_nodes connect_branches;;
  for_each (seq 0 (length (sequential_candidates st) - 1)) connect_sequential.

(** [def parse_flowchart(self, text)]: the nodes and the edges of the result. *)
Definition parse_flowchart (text : str) : list Node * list Edge :=
  let lines := nonblank_lines text in
  let '(_, st) := (for_each lines parse_line;; connect) fc_initial in
  (nodes st, edges st).
End Parser.
End Flowchart.

(** ** The diagram parser *)

(* r'\s+' *)
Definition RE_SPACES : regex := plus ws.

(* r'^(the|a|an)\s+' *)
Definition RE_ARTICLE : regex :=
  cat [Bol; Grp 1 (words ["the"; "a"; "an"]%string); plus ws].

(* r'[→-]>' *)
Definition RE_ARROW_HEAD : regex :=
  cat [One (Among false (one_of "\u2192-")); lit ">"].

(* r'[\n\.;]+|,\s*(?=[A-Z0-9])' *)
Definition RE_PHRASE_END : regex :=
  Alt (plus (Among false (one_of "\n.;")))
      (cat [lit ","; star ws; Ahead (One (Among false [CRange 65 90; CRange 48 57]))]).

Definition verb_pattern (verb : list regex) : regex :=
  cat ([Bol; Grp 1 (plus_lazy Dot); plus ws] ++ verb ++ [plus ws; Grp 2 (plus Dot); Eol]).

Definition verb_patterns : list regex :=
  [ (* r'^(.+?)\s+connects\s+to\s+(.+)$' *)
    verb_pattern [lit "connects"; plus ws; lit "to"];
    (* r'^(.+?)\s+sends(?:\s+request)?\s+to\s+(.+)$' *)
    verb_pattern [lit "sends"; Opt (cat [plus ws; lit "request"]); plus ws; lit "to"];
    (* r'^(.+?)\s+routes\s+to\s+(.+)$' *)
    verb_pattern [lit "routes"; plus ws; lit "to"];
    (* r'^(.+?)\s+links\s+to\s+(.+)$' *)
    verb_pattern [lit "links"; plus ws; lit "to"];
    (* r'^(.+?)\s+queries\s+(.+)$' *)
    verb_pattern [lit "queries"];
    (* r'^(.+?)\s+returns(?:\s+(?:data|response))?\s+to\s+(.+)$' *)
    verb_pattern [lit "returns"; Opt (cat [plus ws; words ["data"; "response"]%string]);
                  plus ws; lit "to"];
    (* r'^(.+?)\s+sends\s+data\s+to\s+(.+)$' *)
    verb_pattern [lit "sends"; plus ws; lit "data"; plus ws; lit "to"] ].

Module Diagram.

(** The dictionaries [{"id": ..., "label": ...}] and [{"from": ..., "to": ...}]. *)
Record node := mkNode { id : str; label : str }.
Record edge := mkEdge { from : str; to : str }.

#[global] Instance node_eq_dec : EqDecision node.
Proof. solve_decision. Defined.
#[global] Instance edge_eq_dec : EqDecision edge.
Proof. solve_decision. Defined.

(** The local variables of [parse_diagram]. *)
Record dg_state := {
  nodes : list node;
  edges : list edge;
  node_set : gset (list N);
  edge_set : gset (list N)
}.

Definition dg_initial : dg_state :=
  {| nodes := []; edges := []; node_set := ∅; edge_set := ∅ |}.

Section Parser.
Context `{UnicodeData}.

(** [def canon(s)] *)
Definition canon (s : str) : str := re_sub false RE_SPACES (py " ") (strip s).

(** [def clean_entity(s)] *)
Definition clean_entity (s : str) : str := re_sub true RE_ARTICLE (py "") (canon s).

(** [def add_node(label)]: the key of the node, [None] for a blank label. *)
Definition add_node (label : str) : State dg_state (option (list N)) := fun st =>
  let key := canon label in
  if negb (nonempty key) then (None, st)
  else if bool_decide (key ∉ node_set st) then
    let node_id := py "node_" ++ str_of_int (Z.of_nat (length (nodes st))) in
    (Some key,
     {| nodes := nodes st ++ [mkNode node_id key];
        edges := edges st;
        node_set := {[key]} ∪ node_set st;
        edge_set := edge_set st |})
  else (Some key, st).

(** [def add_edge(from_label, to_label)] *)
Definition add_edge (from_label to_label : str) : State dg_state unit := fun st =>
  let key := from_label ++ py " -> " ++ to_label in
  if bool_decide (key ∉ edge_set st) then
    (tt,
     {| nodes := nodes st;
        edges := edges st ++ [mkEdge from_label to_label];
        node_set := node_set st;
        edge_set := {[key]} ∪ edge_set st |})
  else (tt, st).

(** The three statements that both passes run for a pair of entities:
    [from_label = add_node(a); to_label = add_node(b);
     if from_label and to_label: add_edge(from_label, to_label)]. *)
Definition connect (a b : str) : State dg_state unit :=
  from_label ← add_node a;
  to_label ← add_node b;
  match from_label, to_label with
  | Some f, Some t => add_edge f t
  | _, _ => skip
  end.

Definition has_arrow (line : str) : bool :=
  found false RE_ARROW_HEAD line || has_char 8594 line || contains (py "->") line.

(** Lines 425-432: the arrow connections of one line. *)
Definition arrow_line (line : str) : State dg_state unit :=
  when (has_arrow line)
    (let parts := re_split false RE_ARROW line in
     for_each (seq 0 (length parts - 1))
       (fun i => connect (default [] (parts !! i)) (default [] (parts !! (i + 1)%nat)))).

(** The first pattern of the table that matches the phrase. *)
Definition first_match (phrase : str) : option rmatch :=
  head (omap (fun pattern => re_match true pattern phrase) verb_patterns).

(** Lines 448-458: the connection that one phrase states. *)
Definition verb_phrase (phrase : str) : State dg_state unit :=
  match first_match phrase with
  | Some m =>
      let from_raw := clean_entity (grp phrase m 1) in
      let to_raw := clean_entity (grp phrase m 2) in
      connect from_raw to_raw
  | None => skip
  end.

(** [phrases = re.split(...); phrases = [p.strip() for p in phrases if p.strip()]] *)
Definition phrases_of (text : str) : list (list N) :=
  map strip (filter (fun p => nonempty (strip p) = true)
                    (re_split false RE_PHRASE_END text)).

(** [def parse_diagram(self, text)]: the nodes and the edges of the result. *)
Definition parse_diagram (text : str) : list node * list edge :=
  let lines := nonblank_lines text in
  let phrases := phrases_of text in
  let '(_, st) :=
    (for_each lines arrow_line;; for_each phrases verb_phrase) dg_initial in
  (nodes st, edges st).

(** *** The entity mentions of a text

    The arguments that the two passes hand to [connect], in the order of the
    calls: the segments of the arrow lines, and the two spans that the verb
    pattern captures in a phrase. *)
Inductive mention :=
| Segment (s : list N)   (* a segment of an arrow line *)
| Span (s : list N).     (* a span captured by a verb pattern *)

#[global] Instance mention_eq_dec : EqDecision mention.
Proof. solve_decision. Defined.

(** The key under which [add_node] files a mention. *)
Definition mention_key (m : mention) : str :=
  match m with
  | Segment s => canon s
  | Span s => canon (clean_entity s)
  end.

Definition line_mentions (line : str) : list mention :=
  if has_arrow line then
    let parts := re_split false RE_ARROW line in
    flat_map (fun i => [Segment (default [] (parts !! i));
                        Segment (default [] (parts !! (i + 1)%nat))])
             (seq 0 (length parts - 1))
  else [].

Definition phrase_mentions (phrase : str) : list mention :=
  match first_match phrase with
  | Some m => [Span (grp phrase m 1); Span (grp phrase m 2)]
  | None => []
  end.

Definition mentions (text : str) : list mention :=
  flat_map line_mentions (nonblank_lines text)
  ++ flat_map phrase_mentions (phrases_of text).

(** The identity of an entity in the words of the specification: white
    space collapsed, a leading article stripped, compared without case. *)
Definition spec_entity_key (s : str) : str := lower (clean_entity s).
End Parser.
End Diagram.


(** ** Numbers

    Python's [int] is [Z] and its [float] the kernel's binary64 type, whose
    arithmetic is IEEE 754 as CPython's is. What the C library does for
    CPython is not built in here and is taken from a [FloatLib]: the shortest
    decimal form [repr], the [",.0f"] format, and the cosine and the sine. *)
Class FloatLib := {
  float_repr : float -> list N;        (* repr(x), the form an f-string writes *)
  float_format_0f : float -> list N;   (* format(x, ",.0f") *)
  math_cos : float -> float;
  math_sin : float -> float
}.

(** The binary64 number nearest to [p / q], ties to even, for [0 <= p] and
    [0 < q]: the mantissa [m'] is the quotient scaled to 53 bits (fewer for a
    subnormal number) and rounded. *)
Definition nearest_float (p q : Z) : float :=
  (if p =? 0 then PrimFloat.zero
   else
     let scaled := fun e : Z => if 0 <=? e then (p, q * 2 ^ e) else (p * 2 ^ (- e), q) in
     let e0 := Z.log2 p - Z.log2 q - 53 in
     let e1 := if 2 ^ 53 <=? (fst (scaled e0) / snd (scaled e0)) then e0 + 1 else e0 in
     let e := Z.max e1 (-1074) in
     let '(n, d) := scaled e in
     let m := n / d in
     let r := n mod d in
     let m' := if (d <? 2 * r) || ((d =? 2 * r) && Z.odd m) then m + 1 else m in
     FloatOps.Z.ldexp (PrimFloat.of_uint63 (Uint63Axioms.of_Z m')) e)%Z.

(** [float(n)] for an integer, which is also how an integer operand of a
    mixed operation is converted. *)
Definition float_of_int (z : Z) : float :=
  (if z <? 0 then PrimFloat.opp (nearest_float (- z) 1) else nearest_float z 1)%Z.

(** [a / b] for two integers: the quotient correctly rounded. *)
Definition int_truediv (a b : Z) : result float :=
  (if b =? 0 then Raise ZeroDivisionError
   else
     let q := nearest_float (Z.abs a) (Z.abs b) in
     Ok (if Bool.eqb (a <? 0) (b <? 0) then q else PrimFloat.opp q))%Z.

(** [x / y] for two floats: a zero divisor of either sign raises. *)
Definition truediv (x y : float) : result float :=
  if PrimFloat.eqb y PrimFloat.zero then Raise ZeroDivisionError
  else Ok (PrimFloat.div x y).

(** [max(xs)] for a sequence that starts with [x]: a later item replaces the
    maximum when it is greater. *)
Definition float_max (x : float) (xs : list float) : float :=
  fold_left (fun m v => if PrimFloat.ltb m v then v else m) xs x.

(** The constants 0.7, 0.3 and [math.pi] as binary64 numbers. *)
Definition f0_7 : float := 0x1.6666666666666p-1%float.
Definition f0_3 : float := 0x1.3333333333333p-2%float.
Definition math_pi : float := 0x1.921fb54442d18p+1%float.

Section Numbers.
Context `{UnicodeData}.

(** The number that a run of decimal digits writes. *)
Definition digits_value (ds : str) : N :=
  fold_left (fun acc c => 10 * acc + default 0 (decimal_value c)) ds 0.

(** [float(s)] for a string of the form [\d+(?:\.\d+)?]. *)
Definition float_of_decimal (s : str) : float :=
  let parts := split_char 46 s in
  let whole := default [] (parts !! 0%nat) in
  let fraction := default [] (parts !! 1%nat) in
  nearest_float (Z.of_N (digits_value (whole ++ fraction)))
                (10 ^ Z.of_nat (length fraction))%Z.
End Numbers.

(** An f-string: the concatenation of its pieces. *)
Definition fmt (parts : list (list N)) : list N := mjoin parts.

(** [for x in xs: body], where the body updates [acc] and can raise. *)
Fixpoint for_fold {A B} (xs : list A) (acc : B) (body : B -> A -> result B) : result B :=
  match xs with
  | [] => Ok acc
  | x :: xs' => acc' ← body acc x; for_fold xs' acc' body
  end.

(** ** The chart parser and renderer *)

(* r'([^:=]+)\s*[:=]\s*(\d+(?:\.\d+)?)' *)
Definition RE_CHART_LINE : regex :=
  cat [Grp 1 (plus (Among true (one_of ":="))); star ws; One (Among false (one_of ":="));
       star ws; Grp 2 (cat [plus digit; Opt (cat [lit "."; plus digit])])].

(** The dictionary [{"label": ..., "value": ...}] of a chart entry. *)
Record chart_item := mkItem { c_label : list N; c_value : float }.

Section Chart.
Context `{UnicodeData} `{FloatLib}.

(** [def parse_chart(self, text)] *)
Definition parse_chart (text : str) : list chart_item :=
  let lines := nonblank_lines text in
  omap (fun line =>
          match re_match false RE_CHART_LINE line with
          | Some m => Some (mkItem (strip (grp line m 1))
                                   (float_of_decimal (grp line m 2)))
          | None => None
          end) lines.

(** [def generate_chart_svg(self, data)] *)
Definition generate_chart_svg (data : list chart_item) : result (list N) :=
  match data with
  | [] => Ok []
  | first :: rest =>
      let width := 1000%Z in
      let height := 700%Z in
      let padding := 100%Z in
      let chart_width := (width - 2 * padding)%Z in
      let chart_height := (height - 2 * padding)%Z in
      let max_value := float_max (c_value first) (c_value <$> rest) in
      per_bar ← int_truediv chart_width (Z.of_nat (length data));
      let bar_width := (per_bar * f0_7)%float in
      let bar_spacing := (per_bar * f0_3)%float in
      let svg := fmt [py "<svg width=\x22";
                      str_of_int width;
                      py "\x22 height=\x22";
                      str_of_int height;
                      py "\x22 viewBox=\x220 0 ";
                      str_of_int width;
                      py " ";
                      str_of_int height;
                      py "\x22 xmlns=\x22http://www.w3.org/2000/svg\x22>"] in
      (* Draw axes *)
      let svg := svg ++ fmt [py "\n";
                             py "        <line x1=\x22";
                             str_of_int padding;
                             py "\x22 y1=\x22";
                             str_of_int (height - padding);
                             py "\x22 x2=\x22";
                             str_of_int (width - padding);
                             py "\x22 y2=\x22";
                             str_of_int (height - padding);
                             py "\x22 \n";
                             py "              stroke=\x22#2c3e50\x22 stroke-width=\x223\x22/>\n";
                             py "        <line x1=\x22";
                             str_of_int padding;
                             py "\x22 y1=\x22";
                             str_of_int padding;
                             py "\x22 x2=\x22";
                             str_of_int padding;
                             py "\x22 y2=\x22";
                             str_of_int (height - padding);
                             py "\x22 \n";
                             py "              stroke=\x22#2c3e50\x22 stroke-width=\x223\x22/>\n";
                             py "        "] in
      (* Draw bars *)
      svg ← for_fold (enumerate data) svg (fun svg ii =>
        let i := Z.of_nat ii.1 in
        let item := ii.2 in
        ratio ← truediv (c_value item) max_value;
        let bar_height := (ratio * float_of_int chart_height)%float in
        let x := (float_of_int padding + float_of_int i * (bar_width + bar_spacing)
                  + bar_spacing / 2)%float in
        let y := (float_of_int (height - padding) - bar_height)%float in
        Ok (svg ++ fmt [py "\n";
                        py "            <rect x=\x22";
                        float_repr x;
                        py "\x22 y=\x22";
                        float_repr y;
                        py "\x22 width=\x22";
                        float_repr bar_width;
                        py "\x22 height=\x22";
                        float_repr bar_height;
                        py "\x22 \n";
                        py "                  fill=\x22#667eea\x22 stroke=\x22#5568d3\x22 stroke-wid";
                        py "th=\x222\x22 rx=\x226\x22 class=\x22bar\x22/>\n";
                        py "            <text x=\x22";
                        float_repr (x + bar_width / 2)%float;
                        py "\x22 y=\x22";
                        str_of_int (height - padding + 30);
                        py "\x22 \n";
                        py "                  text-anchor=\x22middle\x22 font-size=\x2214\x22 font-w";
                        py "eight=\x22600\x22 fill=\x22#2c3e50\x22>";
                        c_label item;
                        py "</text>\n";
                        py "            <text x=\x22";
                        float_repr (x + bar_width / 2)%float;
                        py "\x22 y=\x22";
                        float_repr (y - 10)%float;
                        py "\x22 \n";
                        py "                  text-anchor=\x22middle\x22 font-size=\x2214\x22 font-w";
                        py "eight=\x22bold\x22 fill=\x22#2c3e50\x22>";
                        float_format_0f (c_value item);
                        py "</text>\n";
                        py "            "]));
      Ok (svg ++ py "</svg>")
  end.
End Chart.

(** ** The diagram renderer *)

(** [z / 2] for an integer: halving is exact, so the quotient is [float(z)]
    halved. *)
Definition half (z : Z) : float := (float_of_int z / 2)%float.

(** An entry of [positions]: [{"x": ..., "y": ..., "label": ...}]. *)
Record position := mkPosition { p_x : float; p_y : float; p_label : list N }.

(** [def _border_point(self, rect, w, h, target_x, target_y)]: the pair of
    the result's ["x"] and ["y"]. *)
Definition _border_point (rect : position) (w h : Z) (target_x target_y : float)
  : result (float * float) :=
  let cx := (p_x rect + half w)%float in
  let cy := (p_y rect + half h)%float in
  let dx := (target_x - cx)%float in
  let dy := (target_y - cy)%float in
  if PrimFloat.eqb dx 0 && PrimFloat.eqb dy 0 then Ok (cx, cy)
  else
    let abs_dx := PrimFloat.abs dx in
    let abs_dy := PrimFloat.abs dy in
    across ← truediv abs_dx (half w);
    along ← truediv abs_dy (half h);
    scale ← (if PrimFloat.ltb along across then truediv (half w) abs_dx
             else truediv (half h) abs_dy);
    Ok ((cx + dx * scale)%float, (cy + dy * scale)%float).

Section DiagramRenderer.
Context `{FloatLib}.

(** Lines 552-556: the positions of the nodes on the circle. *)
Definition diagram_positions (nodes : list Diagram.node) (center_x center_y radius : float)
    (node_width node_height : Z) : result (gmap (list N) position) :=
  for_fold (enumerate nodes) ∅ (fun positions ii =>
    let i := Z.of_nat ii.1 in
    let node := ii.2 in
    turn ← truediv (2 * math_pi * float_of_int i)%float
                   (float_of_int (Z.of_nat (length nodes)));
    let angle := (turn - math_pi / 2)%float in
    let x := (center_x + radius * math_cos angle - half node_width)%float in
    let y := (center_y + radius * math_sin angle - half node_height)%float in
    Ok (<[Diagram.id node := mkPosition x y (Diagram.label node)]> positions)).

(** [def generate_diagram_svg(self, data)] *)
Definition generate_diagram_svg (data : list Diagram.node * list Diagram.edge)
  : result (list N) :=
  let nodes := data.1 in
  let edges := data.2 in
  if bool_decide (nodes = []) then Ok []
  else
    let width := 1000%Z in
    let height := 800%Z in
    let center_x := half width in
    let center_y := half height in
    let radius := (float_of_int (Z.min width height) / 2.5)%float in
    let node_width := 160%Z in
    let node_height := 80%Z in
    let svg := fmt [py "<svg width=\x22";
                    str_of_int width;
                    py "\x22 height=\x22";
                    str_of_int height;
                    py "\x22 viewBox=\x220 0 ";
                    str_of_int width;
                    py " ";
                    str_of_int height;
                    py "\x22 xmlns=\x22http://www.w3.org/2000/svg\x22>"] in
    (* Add arrow marker *)
    let svg := svg ++ fmt [py "\n";
                           py "        <defs>\n";
                           py "            <marker id=\x22arrowhead-diagram\x22 markerWidth=\x2210\x22 ";
                           py "markerHeight=\x2210\x22 refX=\x229\x22 refY=\x223\x22 orient=\x22auto\x22>\n";
                           py "                <polygon points=\x220 0, 10 3, 0 6\x22 fill=\x22#667e";
                           py "ea\x22/>\n";
                           py "            </marker>\n";
                           py "        </defs>\n";
                           py "        "] in
    (* Calculate positions *)
    positions ← diagram_positions nodes center_x center_y radius node_width node_height;
    (* Draw edges *)
    svg ← for_fold edges svg (fun svg edge =>
      let from_node :=
        head (filter (fun node => Diagram.label node = Diagram.from edge) nodes) in
      let to_node :=
        head (filter (fun node => Diagram.label node = Diagram.to edge) nodes) in
      match from_node, to_node with
      | Some from_node, Some to_node =>
          match positions !! Diagram.id from_node, positions !! Diagram.id to_node with
          | Some from_pos, Some to_pos =>
              start ← _border_point from_pos node_width node_height
                        (p_x to_pos + half node_width)%float
                        (p_y to_pos + half node_height)%float;
              end_ ← _border_point to_pos node_width node_height
                       (p_x from_pos + half node_width)%float
                       (p_y from_pos + half node_height)%float;
              Ok (svg ++ fmt [py "\n";
                              py "                    <line x1=\x22";
                              float_repr start.1;
                              py "\x22 y1=\x22";
                              float_repr start.2;
                              py "\x22 x2=\x22";
                              float_repr end_.1;
                              py "\x22 y2=\x22";
                              float_repr end_.2;
                              py "\x22 \n";
                              py "                          stroke=\x22#667eea\x22 stroke-width=\x222.5";
                              py "\x22 marker-end=\x22url(#arrowhead-diagram)\x22/>\n";
                              py "                    "])
          | _, _ => Ok svg
          end
      | _, _ => Ok svg
      end);
    (* Draw nodes *)
    svg ← for_fold nodes svg (fun svg node =>
      match positions !! Diagram.id node with
      | Some pos =>
          Ok (svg ++ fmt [py "\n";
                          py "            <g class=\x22node\x22>\n";
                          py "                <rect x=\x22";
                          float_repr (p_x pos);
                          py "\x22 y=\x22";
                          float_repr (p_y pos);
                          py "\x22 width=\x22";
                          str_of_int node_width;
                          py "\x22 height=\x22";
                          str_of_int node_height;
                          py "\x22 \n";
                          py "                      rx=\x2212\x22 fill=\x22#667eea\x22 stroke=\x22#5568d3";
                          py "\x22 stroke-width=\x222.5\x22/>\n";
                          py "                <text x=\x22";
                          float_repr (p_x pos + half node_width)%float;
                          py "\x22 y=\x22";
                          float_repr (p_y pos + half node_height)%float;
                          py "\x22 \n";
                          py "                      text-anchor=\x22middle\x22 dominant-baseline";
                          py "=\x22middle\x22 fill=\x22white\x22 \n";
                          py "                      font-size=\x2214\x22 font-weight=\x22600\x22>";
                          p_label pos;
                          py "</text>\n";
                          py "            </g>\n";
                          py "            "])
      | None => Raise KeyError
      end);
    Ok (svg ++ py "</svg>").
End DiagramRenderer.

(** ** The flowchart layout and renderer *)

(** An entry of [layout]: [{"col": ..., "row": ..., "node": ...}]. *)
Record cell := mkCell { col : Z; row : Z; cell_node : Node }.

(** An entry of [queue]: [{"id": ..., "col": ..., "row": ...}]. *)
Record queued := mkQueued { q_id : list N; q_col : Z; q_row : Z }.

(** An entry of an adjacency list: [{"to": ..., "label": ...}]. *)
Record child := mkChild { child_to : list N; child_label : option (list N) }.

(** The variables of the traversal loop of [_calculate_flowchart_layout]. *)
Record bfs_state := mkBfs {
  queue : list queued;
  visited : gset (list N);
  layout : gmap (list N) cell;
  max_row : Z
}.

(** [max(xs)] and [min(xs)] for integers; ValueError for an empty sequence. *)
Definition max_of (xs : list Z) : result Z :=
  match xs with
  | [] => Raise ValueError
  | x :: xs' => Ok (fold_left Z.max xs' x)
  end.
Definition min_of (xs : list Z) : result Z :=
  match xs with
  | [] => Raise ValueError
  | x :: xs' => Ok (fold_left Z.min xs' x)
  end.

Section FlowchartRenderer.
Context `{UnicodeData} `{FloatLib}.

(** Lines 776-781: the adjacency lists. *)
Definition adjacency (edges : list Edge) : gmap (list N) (list child) :=
  fold_left (fun adj_list edge =>
               <[from_node edge :=
                   default [] (adj_list !! from_node edge)
                   ++ [mkChild (to_node edge) (e_label edge)]]> adj_list)
            edges ∅.

(** [c.get("label") and c.get("label").lower() == answer] *)
Definition answers (answer : str) (c : child) : bool :=
  truthy (child_label c) && str_eqb (lower (default [] (child_label c))) answer.

(** Lines 802-829: the entries that a visited node appends to the queue. *)
Definition successors (node : Node) (children : list child) (current : queued)
  : list queued :=
  if str_eqb (n_type node) (py "decision") && bool_decide (children <> []) then
    let yes_child := head (filter (fun c => answers (py "yes") c = true) children) in
    let no_child := head (filter (fun c => answers (py "no") c = true) children) in
    match yes_child, no_child with
    | Some yes_child, Some no_child =>
        (* Position Yes/No branches side by side *)
        [mkQueued (child_to yes_child) (q_col current + 1) (q_row current + 1);
         mkQueued (child_to no_child) (q_col current - 1) (q_row current + 1)]
    | _, _ =>
        (* Handle other decision branches *)
        (fun ic => mkQueued (child_to ic.2)
                     (q_col current + (if bool_decide (ic.1 = 0%nat) then 1 else -1))
                     (q_row current + 1))
          <$> enumerate children
    end
  else
    (* Regular nodes - continue the flow *)
    (fun c => mkQueued (child_to c) (q_col current) (q_row current + 1)) <$> children.

(** Lines 788-829: the traversal loop. Every round takes an entry from the
    queue, and a node that is visited for the first time appends its
    successors; [fuel] bounds the number of rounds, and the result is [None]
    when the queue is not empty after that many. *)
Fixpoint traverse (fuel : nat) (node_map : gmap (list N) Node)
    (adj_list : gmap (list N) (list child)) (st : bfs_state)
    : option (result bfs_state) :=
  match fuel with
  | O => None
  | S fuel' =>
      match queue st with
      | [] => Some (Ok st)
      | current :: rest =>
          if bool_decide (q_id current ∈ visited st) then
            traverse fuel' node_map adj_list
              (mkBfs rest (visited st) (layout st) (max_row st))
          else
            match node_map !! q_id current with
            | None => Some (Raise KeyError)
            | Some node =>
                let children := default [] (adj_list !! q_id current) in
                traverse fuel' node_map adj_list
                  (mkBfs (rest ++ successors node children current)
                         ({[q_id current]} ∪ visited st)
                         (<[q_id current :=
                              mkCell (q_col current) (q_row current) node]> (layout st))
                         (Z.max (max_row st) (q_row current)))
            end
      end
  end.

(** Lines 832-840: the nodes that the traversal has not reached. *)
Definition place_orphans (nodes : list Node) (layout : gmap (list N) cell) (max_row : Z)
  : gmap (list N) cell * Z :=
  fold_left (fun lm node =>
               match lm.1 !! n_id node with
               | None => (<[n_id node := mkCell 0 (lm.2 + 1) node]> lm.1, (lm.2 + 1)%Z)
               | Some _ => lm
               end)
            nodes (layout, max_row).

(** [def _calculate_flowchart_layout(self, nodes, edges)]. The fuel given to
    the traversal is enough for it to empty the queue ([traverse_finishes]
    below), so the default is never taken. *)
Definition _calculate_flowchart_layout (nodes : list Node) (edges : list Edge)
  : result (gmap (list N) cell) :=
  let node_map := fold_left (fun m node => <[n_id node := node]> m) nodes ∅ in
  (* Find start node *)
  let target_nodes : gset (list N) := list_to_set (to_node <$> edges) in
  match nodes with
  | [] => Raise IndexError
  | first :: _ =>
      let start_node :=
        default first (head (filter (fun node => n_id node ∉ target_nodes) nodes)) in
      (* Build adjacency list *)
      let adj_list := adjacency edges in
      st ← default (Raise KeyError)
             (traverse (2 + length edges) node_map adj_list
                (mkBfs [mkQueued (n_id start_node) 0 0] ∅ ∅ 0));
      (* Handle any remaining nodes that weren't reached by BFS *)
      let layout := (place_orphans nodes (layout st) (max_row st)).1 in
      (* Normalize columns to start from 0 *)
      min_col ← min_of (col <$> (map_to_list layout).*2);
      Ok (if (min_col <? 0)%Z then
            (fun pos => mkCell (col pos - min_col) (row pos) (cell_node pos)) <$> layout
          else layout)
  end.

(** [def _draw_flowchart_node(self, node, pos, width, height)] *)
Definition _draw_flowchart_node (node : Node) (pos : cell) (width height : Z) : list N :=
  let x := (100 + col pos * 220)%Z in
  let y := (100 + row pos * 140)%Z in
  let node_width := 180%Z in
  let node_height := 70%Z in
  if str_eqb (n_type node) (py "decision") then
    (* Diamond shape *)
    let points := fmt [float_repr (float_of_int x + half node_width)%float;
                       py ",";
                       str_of_int y;
                       py " ";
                       str_of_int (x + node_width);
                       py ",";
                       float_repr (float_of_int y + half node_height)%float;
                       py " ";
                       float_repr (float_of_int x + half node_width)%float;
                       py ",";
                       str_of_int (y + node_height);
                       py " ";
                       str_of_int x;
                       py ",";
                       float_repr (float_of_int y + half node_height)%float] in
    fmt [py "\n";
         py "            <g class=\x22node\x22>\n";
         py "                <polygon points=\x22";
         points;
         py "\x22 fill=\x22#e74c3c\x22 stroke=\x22#c0392b\x22 stroke-width=\x222.5\x22/>\n";
         py "                <text x=\x22";
         float_repr (float_of_int x + half node_width)%float;
         py "\x22 y=\x22";
         float_repr (float_of_int y + half node_height)%float;
         py "\x22 text-anchor=\x22middle\x22 dominant-baseline=\x22middle\x22 \n";
         py "                      fill=\x22white\x22 font-size=\x2214\x22 font-weigh";
         py "t=\x22600\x22>";
         n_label node;
         py "</text>\n";
         py "            </g>\n";
         py "            "]
  else if str_eqb (n_type node) (py "terminal") then
    (* Rounded rectangle *)
    fmt [py "\n";
         py "            <g class=\x22node\x22>\n";
         py "                <rect x=\x22";
         str_of_int x;
         py "\x22 y=\x22";
         str_of_int y;
         py "\x22 width=\x22";
         str_of_int node_width;
         py "\x22 height=\x22";
         str_of_int node_height;
         py "\x22 rx=\x2235\x22 \n";
         py "                      fill=\x22#27ae60\x22 stroke=\x22#229954\x22 stroke";
         py "-width=\x222.5\x22/>\n";
         py "                <text x=\x22";
         float_repr (float_of_int x + half node_width)%float;
         py "\x22 y=\x22";
         float_repr (float_of_int y + half node_height)%float;
         py "\x22 text-anchor=\x22middle\x22 dominant-baseline=\x22middle\x22 \n";
         py "                      fill=\x22white\x22 font-size=\x2215\x22 font-weigh";
         py "t=\x22600\x22>";
         n_label node;
         py "</text>\n";
         py "            </g>\n";
         py "            "]
  else
    (* Regular rectangle *)
    fmt [py "\n";
         py "            <g class=\x22node\x22>\n";
         py "                <rect x=\x22";
         str_of_int x;
         py "\x22 y=\x22";
         str_of_int y;
         py "\x22 width=\x22";
         str_of_int node_width;
         py "\x22 height=\x22";
         str_of_int node_height;
         py "\x22 rx=\x2210\x22 \n";
         py "                      fill=\x22#667eea\x22 stroke=\x22#5568d3\x22 stroke";
         py "-width=\x222.5\x22/>\n";
         py "                <text x=\x22";
         float_repr (float_of_int x + half node_width)%float;
         py "\x22 y=\x22";
         float_repr (float_of_int y + half node_height)%float;
         py "\x22 text-anchor=\x22middle\x22 dominant-baseline=\x22middle\x22 \n";
         py "                      fill=\x22white\x22 font-size=\x2214\x22 font-weigh";
         py "t=\x22600\x22>";
         n_label node;
         py "</text>\n";
         py "            </g>\n";
         py "            "].

(** [def _draw_flowchart_edge(self, from_pos, to_pos, edge, width, height)] *)
Definition _draw_flowchart_edge (from_pos to_pos : cell) (edge : Edge) (width height : Z)
  : list N :=
  let from_x := (col from_pos * 220 + 100)%Z in
  let from_y := (row from_pos * 140 + 100)%Z in
  let to_x := (col to_pos * 220 + 100)%Z in
  let to_y := (row to_pos * 140 + 100)%Z in
  (* Get node dimensions *)
  let from_node := cell_node from_pos in
  let to_node := cell_node to_pos in
  (* Calculate connection points based on node types *)
  let '(from_x, from_y) :=
    if str_eqb (n_type from_node) (py "decision") then
      (* Decision node - connect from sides for Yes/No *)
      if bool_decide (e_label edge = Some (py "Yes")) then (from_x + 90, from_y + 35)%Z
      else if bool_decide (e_label edge = Some (py "No")) then (from_x + 0, from_y + 35)%Z
      else (from_x + 90, from_y + 35)%Z
    else
      (* Regular node - connect from bottom *)
      (from_x + 90, from_y + 70)%Z in
  let '(to_x, to_y) := (to_x + 90, to_y + 0)%Z in
  (* Create path with curves for better appearance *)
  let mid_y := half (from_y + to_y) in
  let path := fmt [py "M ";
                   str_of_int from_x;
                   py " ";
                   str_of_int from_y;
                   py " L ";
                   str_of_int from_x;
                   py " ";
                   float_repr mid_y;
                   py " L ";
                   str_of_int to_x;
                   py " ";
                   float_repr mid_y;
                   py " L ";
                   str_of_int to_x;
                   py " ";
                   str_of_int to_y] in
  let svg := fmt [py "\n";
                  py "        <path d=\x22";
                  path;
                  py "\x22 stroke=\x22#667eea\x22 stroke-width=\x222.5\x22 fill=\x22none\x22 marker-end";
                  py "=\x22url(#arrowhead)\x22 class=\x22connection\x22/>\n";
                  py "        "] in
  if truthy (e_label edge) then
    let label_x := (half (from_x + to_x) + 15)%float in
    let label_y := mid_y in
    svg ++ fmt [py "\n";
                py "            <rect x=\x22";
                float_repr (label_x - 20)%float;
                py "\x22 y=\x22";
                float_repr (label_y - 12)%float;
                py "\x22 width=\x2240\x22 height=\x2224\x22 \n";
                py "                  fill=\x22white\x22 stroke=\x22#667eea\x22 stroke-width";
                py "=\x221.5\x22 rx=\x224\x22/>\n";
                py "            <text x=\x22";
                float_repr label_x;
                py "\x22 y=\x22";
                float_repr (label_y + 4)%float;
                py "\x22 text-anchor=\x22middle\x22 font-size=\x2212\x22 \n";
                py "                  font-weight=\x22bold\x22 fill=\x22#667eea\x22>";
                default [] (e_label edge);
                py "</text>\n";
                py "            "]
  else svg.

(** [def generate_flowchart_svg(self, data)] *)
Definition generate_flowchart_svg (data : list Node * list Edge) : result (list N) :=
  let nodes := data.1 in
  let edges := data.2 in
  if bool_decide (nodes = []) then Ok []
  else
    (* Calculate layout *)
    layout ← _calculate_flowchart_layout nodes edges;
    (* Calculate dimensions with better spacing *)
    max_col ← max_of (col <$> (map_to_list layout).*2);
    max_row ← max_of (row <$> (map_to_list layout).*2);
    let width := Z.max 1200 ((max_col + 1) * 220 + 200) in
    let height := Z.max 800 ((max_row + 1) * 140 + 200) in
    let svg := fmt [py "<svg width=\x22";
                    str_of_int width;
                    py "\x22 height=\x22";
                    str_of_int height;
                    py "\x22 viewBox=\x220 0 ";
                    str_of_int width;
                    py " ";
                    str_of_int height;
                    py "\x22 xmlns=\x22http://www.w3.org/2000/svg\x22>"] in
    (* Add arrow marker *)
    let svg := svg ++ fmt [py "\n";
                           py "        <defs>\n";
                           py "            <marker id=\x22arrowhead\x22 markerWidth=\x2210\x22 markerHe";
                           py "ight=\x2210\x22 refX=\x229\x22 refY=\x223\x22 orient=\x22auto\x22>\n";
                           py "                <polygon points=\x220 0, 10 3, 0 6\x22 fill=\x22#667e";
                           py "ea\x22/>\n";
                           py "            </marker>\n";
                           py "        </defs>\n";
                           py "        "] in
    (* Draw edges first (so they appear behind nodes) *)
    let svg :=
      fold_left (fun svg edge =>
                   match layout !! from_node edge, layout !! to_node edge with
                   | Some from_pos, Some to_pos =>
                       svg ++ _draw_flowchart_edge from_pos to_pos edge width height
                   | _, _ => svg
                   end) edges svg in
    (* Draw nodes *)
    let svg :=
      fold_left (fun svg node =>
                   match layout !! n_id node with
                   | Some pos => svg ++ _draw_flowchart_node node pos width height
                   | None => svg
                   end) nodes svg in
    Ok (svg ++ py "</svg>").
End FlowchartRenderer.

(** ** The agent *)

(* r'\b[A-Za-z0-9._%+-]+@[A-Za-z0-9.-]+\.[A-Z|a-z]{2,}\b' *)
Definition RE_EMAIL : regex :=
  let alnum := [CRange 65 90; CRange 97 122; CRange 48 57] in
  cat [WordB; plus (Among false (alnum ++ one_of "._%+-")); lit "@";
       plus (Among false (alnum ++ one_of ".-")); lit ".";
       at_least (Among false [CRange 65 90; CChar 124; CRange 97 122]) 2; WordB].

(* r'\b\d{4}[\s-]?\d{4}[\s-]?\d{4}[\s-]?\d{4}\b' *)
Definition RE_CARD : regex :=
  let gap := Opt (One (Among false [CSpace; CChar 45])) in
  cat [WordB; times digit 4; gap; times digit 4; gap; times digit 4; gap; times digit 4;
       WordB].

(* r'\b(?:password|pwd|secret|key|token|api[-_]?key)\s*[:=]\s*\S+' *)
Definition RE_PASSWORD : regex :=
  cat [WordB;
       alts [lit "password"; lit "pwd"; lit "secret"; lit "key"; lit "token";
             cat [lit "api"; Opt (One (Among false (one_of "-_"))); lit "key"]];
       star ws; One (Among false (one_of ":=")); star ws; plus nonws].

(* r'\b(?:sk|pk)-[A-Za-z0-9]{20,}\b' *)
Definition RE_SECRET_KEY : regex :=
  cat [WordB; words ["sk"; "pk"]%string; lit "-";
       at_least (Among false [CRange 65 90; CRange 97 122; CRange 48 57]) 20; WordB].

(** The attributes of a [VisualAgent] object. *)
Record VisualAgent := { secret_patterns : list (regex * list N) }.

(** [def __init__(self)] *)
Definition __init__ : VisualAgent :=
  {| secret_patterns :=
       [(RE_EMAIL, py "[EMAIL]");
        (RE_CARD, py "[CARD]");
        (RE_PASSWORD, py "password: [REDACTED]");
        (RE_SECRET_KEY, py "[SECRET]")] |}.

(** [s.title()] for a string of ASCII letters: a letter that follows a letter
    is written in lower case, any other letter in upper case. *)
Fixpoint title_from (after_letter : bool) (s : str) : str :=
  match s with
  | [] => []
  | c :: s' =>
      (if after_letter then ascii_lower c else ascii_upper c)
      :: title_from (ascii_isalpha c) s'
  end.
Definition title (s : str) : str := title_from false s.

(** A method is a function of the attributes of [self]: it returns its result
    and the attributes as it leaves them. The methods above read and write no
    attribute and are plain functions. *)
Section Agent.
Context `{UnicodeData} `{FloatLib}.

(** [def redact_secrets(self, text)] *)
Definition redact_secrets (text : str) : State VisualAgent (list N) :=
  self ← get;
  mret (fold_left (fun redacted_text pr => re_sub true pr.1 pr.2 redacted_text)
                  (secret_patterns self) text).

(** The document that [generate_html] writes around the SVG. *)
Definition html_template (detected_type : VisualType) (svg_content : str) : list N :=
  fmt [py "\n";
       py "<!DOCTYPE html>\n";
       py "<html lang=\x22en\x22>\n";
       py "<head>\n";
       py "    <meta charset=\x22UTF-8\x22>\n";
       py "    <meta name=\x22viewport\x22 content=\x22width=device-width, initi";
       py "al-scale=1.0\x22>\n";
       py "    <title>Visual Agent - ";
       title (VisualType_value detected_type);
       py "</title>\n";
       py "    <style>\n";
       py "        * {\n";
       py "            margin: 0;\n";
       py "            padding: 0;\n";
       py "            box-sizing: border-box;\n";
       py "        }\n";
       py "        \n";
       py "        body {\n";
       py "            font-family: 'Segoe UI', Tahoma, Geneva, Verdana";
       py ", sans-serif;\n";
       py "            background: linear-gradient(135deg, #667eea 0%, ";
       py "#764ba2 100%);\n";
       py "            min-height: 100vh;\n";
       py "            padding: 20px;\n";
       py "        }\n";
       py "        \n";
       py "        .container {\n";
       py "            max-width: 1600px;\n";
       py "            margin: 0 auto;\n";
       py "            background: white;\n";
       py "            border-radius: 12px;\n";
       py "            box-shadow: 0 20px 40px rgba(0,0,0,0.1);\n";
       py "            overflow: hidden;\n";
       py "        }\n";
       py "        \n";
       py "        .header {\n";
       py "            background: linear-gradient(135deg, #2c3e50 0%, ";
       py "#34495e 100%);\n";
       py "            color: white;\n";
       py "            padding: 30px;\n";
       py "            text-align: center;\n";
       py "        }\n";
       py "        \n";
       py "        .header h1 {\n";
       py "            font-size: 2.5rem;\n";
       py "            margin-bottom: 10px;\n";
       py "            font-weight: 300;\n";
       py "        }\n";
       py "        \n";
       py "        .header p {\n";
       py "            opacity: 0.9;\n";
       py "            font-size: 1.1rem;\n";
       py "        }\n";
       py "        \n";
       py "        .visual-container {\n";
       py "            padding: 20px;\n";
       py "            background: white;\n";
       py "            display: flex;\n";
       py "            align-items: flex-start;\n";
       py "            justify-content: center;\n";
       py "            min-height: 600px;\n";
       py "            overflow: auto;\n";
       py "        }\n";
       py "        \n";
       py "        .visual-svg {\n";
       py "            display: block;\n";
       py "            max-width: 100%;\n";
       py "            height: auto;\n";
       py "        }\n";
       py "        \n";
       py "        .node {\n";
       py "            cursor: pointer;\n";
       py "            transition: all 0.2s ease;\n";
       py "        }\n";
       py "        \n";
       py "        .node:hover rect,\n";
       py "        .node:hover ellipse,\n";
       py "        .node:hover polygon {\n";
       py "            filter: brightness(1.1);\n";
       py "            stroke-width: 3;\n";
       py "        }\n";
       py "        \n";
       py "        .connection {\n";
       py "            transition: all 0.2s ease;\n";
       py "        }\n";
       py "        \n";
       py "        .connection:hover {\n";
       py "            stroke-width: 3;\n";
       py "        }\n";
       py "        \n";
       py "        .bar:hover {\n";
       py "            opacity: 0.8;\n";
       py "        }\n";
       py "    </style>\n";
       py "</head>\n";
       py "<body>\n";
       py "    <div class=\x22container\x22>\n";
       py "        <div class=\x22header\x22>\n";
       py "            <h1>Visual Agent</h1>\n";
       py "            <p>Generated ";
       title (VisualType_value detected_type);
       py "</p>\n";
       py "        </div>\n";
       py "        \n";
       py "        <div class=\x22visual-container\x22>\n";
       py "            ";
       svg_content;
       py "\n";
       py "        </div>\n";
       py "    </div>\n";
       py "</body>\n";
       py "</html>\n";
       py "        "].

(** [def generate_html(self, text, visual_type)] *)
Definition generate_html (text visual_type : str)
  : State VisualAgent (result (list N)) :=
  redacted_text ← redact_secrets text;
  mret (detected_type ← detect_visual_type redacted_text visual_type;
        (* Parse data based on type *)
        svg_content ←
          match detected_type with
          | FLOWCHART =>
              let data := Flowchart.parse_flowchart redacted_text in
              generate_flowchart_svg data
          | DIAGRAM =>
              let data := Diagram.parse_diagram redacted_text in
              generate_diagram_svg data
          | CHART =>
              let data := parse_chart redacted_text in
              generate_chart_svg data
          end;
        (* Generate complete HTML *)
        Ok (html_template detected_type svg_content)).

End Agent.

(** ** What the properties are stated with *)

Section DiagramStatements.
Context `{UnicodeData}.
Import Diagram.

Definition labels (st : dg_state) : list (list N) := label <$> nodes st.

(** The invariant of the parser's state: no label occurs twice,
    [node_set] holds the labels of [nodes], and the two ends of every
    edge are labels of nodes. *)
Record wf (st : dg_state) : Prop := {
  wf_nodup : NoDup (labels st);
  wf_set : forall l, l ∈ node_set st <-> l ∈ labels st;
  wf_edges : Forall (fun e => from e ∈ labels st /\ to e ∈ labels st) (edges st)
}.

(** What every statement of the parser does to the state: it keeps the
    invariant and it removes no node. *)
Definition sound (m : State dg_state unit) : Prop :=
  forall st, wf st -> wf (m st).2 /\ labels st ⊆ labels (m st).2.

(** After the statement the key [k], unless it is empty, labels a node. *)
Definition covers (m : State dg_state unit) (k : list N) : Prop :=
  forall st, wf st -> k <> [] -> k ∈ labels (m st).2.

(** The state in which [parse_diagram] ends. *)
Definition final_state (text : list N) : dg_state :=
  ((for_each (nonblank_lines text) arrow_line;;
    for_each (phrases_of text) verb_phrase) dg_initial).2.

(** The text of a mention, as it stands in the input. *)
Definition mention_text (m : mention) : list N :=
  match m with Segment s | Span s => s end.

(** C3 as the specification states it: two mentions that are equal after
    collapsing white space, stripping a leading article and folding case
    have exactly one node between them. *)
Definition one_node_per_entity (text : list N) : Prop :=
  forall m1 m2 : mention,
    m1 ∈ mentions text -> m2 ∈ mentions text ->
    spec_entity_key (mention_text m1) = spec_entity_key (mention_text m2) ->
    spec_entity_key (mention_text m1) <> [] ->
    exists n : node,
      filter (fun x => spec_entity_key (label x) = spec_entity_key (mention_text m1))
             (parse_diagram text).1 = [n].

End DiagramStatements.

(** The identifiers of the flowchart nodes follow the counter: the node at
    position [i] of [nodes] is "node_i", and the counter is the number of
    nodes. *)
Definition ids_in_order (st : Flowchart.fc_state) : Prop :=
  Flowchart.node_id_counter st = length (Flowchart.nodes st)
  /\ forall (i : nat) (n : Node),
       Flowchart.nodes st !! i = Some n ->
       n_id n = py "node_" ++ str_of_int (Z.of_nat i).

(** A statement of the flowchart parser that keeps them so. *)
Definition keeps_ids {A} (m : State Flowchart.fc_state A) : Prop :=
  forall st, ids_in_order st -> ids_in_order (m st).2.

(** An entry of value zero, of either sign. *)
Definition zero_item (entry : list N * bool) : chart_item :=
  mkItem entry.1 (if entry.2 then PrimFloat.neg_zero else PrimFloat.zero).

(** A float that is zero, of either sign. *)
Definition is_zero_float (x : float) : Prop :=
  x = PrimFloat.zero \/ x = PrimFloat.neg_zero.

(** The edges that leave a node which the traversal has not visited: with
    the length of the queue, the measure that bounds its rounds. *)
Definition pending (seen : gset (list N)) (edges : list Edge) : nat :=
  length (filter (fun e => from_node e ∉ seen) edges).

(** ** A character table for closed examples

    It classifies no character outside ASCII: none is white space, a digit
    or a letter, and none has another case. *)
Definition ascii_only : UnicodeData :=
  {| uni_isspace := fun _ => false;
     uni_decimal := fun _ => None;
     uni_isalnum := fun _ => false;
     uni_fold := fun c => c;
     uni_lower := fun c => [c] |}.

(** ** Calls on one process

    What one call can hand to the next is the object; the variables of a
    parser are those of a frame that CPython makes for the call. The
    definitions below grant a call less than that: the variables of the
    three parsers are kept in the process as a counter of the class or of
    the module would be, so that a call finds in them what the last call
    left. Each parser is the sequence of its statements on these variables,
    the assignments of its first lines included; that the result depends on
    nothing that was left is then a property of these assignments. *)

Section FlowchartCall.
Context `{UnicodeData}.
Import Flowchart.

(** [x = v] for each variable of [parse_flowchart]. *)
Definition fc_assign_nodes (v : list Node) : State fc_state unit := modify (fun st =>
  {| nodes := v;
     edges := edges st;
     node_map := node_map st;
     node_id_counter := node_id_counter st;
     sequential_candidates := sequential_candidates st;
     last_decision := last_decision st;
     decision_to_branches := decision_to_branches st;
     last_non_decision := last_non_decision st;
     decision_prev_map := decision_prev_map st |}).
Definition fc_assign_edges (v : list Edge) : State fc_state unit := modify (fun st =>
  {| nodes := nodes st;
     edges := v;
     node_map := node_map st;
     node_id_counter := node_id_counter st;
     sequential_candidates := sequential_candidates st;
     last_decision := last_decision st;
     decision_to_branches := decision_to_branches st;
     last_non_decision := last_non_decision st;
     decision_prev_map := decision_prev_map st |}).
Definition fc_assign_node_map (v : gmap (list N) (list N)) : State fc_state unit := modify (fun st =>
  {| nodes := nodes st;
     edges := edges st;
     node_map := v;
     node_id_counter := node_id_counter st;
     sequential_candidates := sequential_candidates st;
     last_decision := last_decision st;
     decision_to_branches := decision_to_branches st;
     last_non_decision := last_non_decision st;
     decision_prev_map := decision_prev_map st |}).
Definition fc_assign_node_id_counter (v : nat) : State fc_state unit := modify (fun st =>
  {| nodes := nodes st;
     edges := edges st;
     node_map := node_map st;
     node_id_counter := v;
     sequential_candidates := sequential_candidates st;
     last_decision := last_decision st;
     decision_to_branches := decision_to_branches st;
     last_non_decision := last_non_decision st;
     decision_prev_map := decision_prev_map st |}).
Definition fc_assign_sequential_candidates (v : list (list N)) : State fc_state unit := modify (fun st =>
  {| nodes := nodes st;
     edges := edges st;
     node_map := node_map st;
     node_id_counter := node_id_counter st;
     sequential_candidates := v;
     last_decision := last_decision st;
     decision_to_branches := decision_to_branches st;
     last_non_decision := last_non_decision st;
     decision_prev_map := decision_prev_map st |}).
Definition fc_assign_last_decision (v : option (list N)) : State fc_state unit := modify (fun st =>
  {| nodes := nodes st;
     edges := edges st;
     node_map := node_map st;
     node_id_counter := node_id_counter st;
     sequential_candidates := sequential_candidates st;
     last_decision := v;
     decision_to_branches := decision_to_branches st;
     last_non_decision := last_non_decision st;
     decision_prev_map := decision_prev_map st |}).
Definition fc_assign_decision_to_branches (v : gmap (list N) (gset (list N))) : State fc_state unit := modify (fun st =>
  {| nodes := nodes st;
     edges := edges st;
     node_map := node_map st;
     node_id_counter := node_id_counter st;
     sequential_candidates := sequential_candidates st;
     last_decision := last_decision st;
     decision_to_branches := v;
     last_non_decision := last_non_decision st;
     decision_prev_map := decision_prev_map st |}).
Definition fc_assign_last_non_decision (v : option (list N)) : State fc_state unit := modify (fun st =>
  {| nodes := nodes st;
     edges := edges st;
     node_map := node_map st;
     node_id_counter := node_id_counter st;
     sequential_candidates := sequential_candidates st;
     last_decision := last_decision st;
     decision_to_branches := decision_to_branches st;
     last_non_decision := v;
     decision_prev_map := decision_prev_map st |}).
Definition fc_assign_decision_prev_map (v : gmap (list N) (list N)) : State fc_state unit := modify (fun st =>
  {| nodes := nodes st;
     edges := edges st;
     node_map := node_map st;
     node_id_counter := node_id_counter st;
     sequential_candidates := sequential_candidates st;
     last_decision := last_decision st;
     decision_to_branches := decision_to_branches st;
     last_non_decision := last_non_decision st;
     decision_prev_map := v |}).

(** [def parse_flowchart(self, text)], from its first statement to its
    [return], on the variables it is given. ([pending_yes_no], line 119, is
    assigned and never read.) *)
Definition parse_flowchart_run (text : str) : State fc_state (list Node * list Edge) :=
  fc_assign_nodes [];;
  fc_assign_edges [];;
  fc_assign_node_map ∅;;
  fc_assign_node_id_counter 0%nat;;
  let lines := nonblank_lines text in
  fc_assign_sequential_candidates [];;
  fc_assign_last_decision None;;
  fc_assign_decision_to_branches ∅;;
  fc_assign_last_non_decision None;;
  fc_assign_decision_prev_map ∅;;
  for_each lines parse_line;;
  connect;;
  st ← get;
  mret (nodes st, edges st).
End FlowchartCall.

Section DiagramCall.
Context `{UnicodeData}.
Import Diagram.


End DiagramCall.

Section ChartCall.
Context `{UnicodeData}.

End ChartCall.



Section ProcessCalls.
Context `{UnicodeData} `{FloatLib}.


End ProcessCalls.

(** * What the further properties are stated with *)

Section FlowchartStatements.
Import Flowchart.

(** [x] is the identifier of a node of the state. *)
Definition is_id (st : fc_state) (x : list N) : Prop :=
  exists n, n ∈ nodes st /\ n_id n = x.

(** The three kinds of node, and the three labels of an edge. *)
Definition node_kind (t : list N) : Prop :=
  t = py "decision" \/ t = py "terminal" \/ t = py "process".
Definition edge_kind (l : option (list N)) : Prop :=
  l = None \/ l = Some (py "Yes") \/ l = Some (py "No").

(** The invariant of the flowchart parser's state: no label has two nodes,
    [node_map] maps exactly the labels of the nodes to their identifiers,
    every edge ends at the identifier of a node, and the nodes and the edges
    are of the three kinds. *)
Record flow_wf (st : fc_state) : Prop := {
  flow_labels : NoDup (n_label <$> nodes st);
  flow_map : forall l x, node_map st !! l = Some x <->
                         exists n, n ∈ nodes st /\ n_label n = l /\ n_id n = x;
  flow_targets : Forall (fun e => is_id st (to_node e)) (edges st);
  flow_node_kinds : Forall (fun n => node_kind (n_type n)) (nodes st);
  flow_edge_kinds : Forall (fun e => edge_kind (e_label e)) (edges st)
}.

(** No statement of the parser removes a node. *)
Definition grows (st st' : fc_state) : Prop := nodes st `prefix_of` nodes st'.

(** [post m st Q]: running [m] from [st] ends in a result and a state that
    satisfy [Q]. *)
Definition post {A} (m : State fc_state A) (st : fc_state)
    (Q : A -> fc_state -> Prop) : Prop :=
  Q (m st).1 (m st).2.

(** A statement that keeps the invariant and the nodes. *)
Definition flow_ok {A} (m : State fc_state A) : Prop :=
  forall st, flow_wf st -> post m st (fun _ st' => flow_wf st' /\ grows st st').

End FlowchartStatements.


(** [{node["id"]: node for node in nodes}] *)
Definition node_table (nodes : list Node) : gmap (list N) Node :=
  fold_left (fun m node => <[n_id node := node]> m) nodes ∅.

(** Every edge ends at the identifier of a node. *)
Definition targets_closed (nodes : list Node) (edges : list Edge) : Prop :=
  forall e, e ∈ edges -> exists n, n ∈ nodes /\ n_id n = to_node e.

(** A cell of the layout under the key [k]: it holds a node of the list
    whose identifier is [k], in a row that is not negative. *)
Definition cell_ok (nodes : list Node) (k : list N) (c : cell) : Prop :=
  cell_node c ∈ nodes /\ n_id (cell_node c) = k /\ (0 <= row c)%Z.

(** The invariant of the traversal loop. *)
Record bfs_ok (nodes : list Node) (st : bfs_state) : Prop := {
  bfs_cells : forall k c, layout st !! k = Some c ->
                cell_ok nodes k c /\ (row c <= max_row st)%Z;
  bfs_rows : forall q, q ∈ queue st -> (0 <= q_row q)%Z;
  bfs_seen : forall k, k ∈ visited st <-> is_Some (layout st !! k);
  bfs_max : (0 <= max_row st)%Z
}.

(** The node at which the traversal starts: the first node that no edge
    ends at, or else the first node. *)
Definition start_node (nodes : list Node) (edges : list Edge) : option Node :=
  let target_nodes : gset (list N) := list_to_set (to_node <$> edges) in
  match nodes with
  | [] => None
  | first :: _ =>
      Some (default first (head (filter (fun node => n_id node ∉ target_nodes) nodes)))
  end.

(** ** What a pattern matches

    [matches ci r pre w rest cs cs']: the pattern [r] matches the word [w]
    that stands between [pre] (the text before it, last character first)
    and [rest], and the groups captured go from [cs] to [cs']. The matcher
    [rx] hands to its continuation nothing but such matches. *)
Section Language.
Context `{UnicodeData}.

Fixpoint matches (ci : bool) (r : regex) (pre w rest : list N)
    (cs cs' : list (nat * (nat * nat))) : Prop :=
  match r with
  | Eps => w = [] /\ cs' = cs
  | One a => (exists c, w = [c] /\ atom_ok ci a c = true) /\ cs' = cs
  | Rep a lo hi _ =>
      Forall (fun c => atom_ok ci a c = true) w
      /\ (lo <= length w)%nat
      /\ (forall h, hi = Some h -> (length w <= h)%nat)
      /\ cs' = cs
  | Cat r1 r2 =>
      exists w1 w2 cs1,
        w = w1 ++ w2
        /\ matches ci r1 pre w1 (w2 ++ rest) cs cs1
        /\ matches ci r2 (reverse w1 ++ pre) w2 rest cs1 cs'
  | Alt r1 r2 => matches ci r1 pre w rest cs cs' \/ matches ci r2 pre w rest cs cs'
  | Grp n r1 =>
      exists cs1,
        matches ci r1 pre w rest cs cs1
        /\ cs' = (n, (length pre, length pre + length w)%nat) :: cs1
  | Opt r1 => matches ci r1 pre w rest cs cs' \/ (w = [] /\ cs' = cs)
  | Bol => w = [] /\ pre = [] /\ cs' = cs
  | Eol => w = [] /\ at_end rest = true /\ cs' = cs
  | WordB => w = [] /\ xorb (word_at (head pre)) (word_at (head rest)) = true /\ cs' = cs
  | Ahead r1 =>
      w = [] /\ exists w1 rest1, rest = w1 ++ rest1 /\ matches ci r1 pre w1 rest1 cs cs'
  end.

(** Every word that [r] matches holds a character with the property [P]. *)
Fixpoint demands (ci : bool) (P : N -> Prop) (r : regex) : Prop :=
  match r with
  | One a => forall c, atom_ok ci a c = true -> P c
  | Rep a lo _ _ => (1 <= lo)%nat /\ forall c, atom_ok ci a c = true -> P c
  | Cat r1 r2 => demands ci P r1 \/ demands ci P r2
  | Alt r1 r2 => demands ci P r1 /\ demands ci P r2
  | Grp _ r1 => demands ci P r1
  | _ => False
  end.

End Language.

(** A pattern without a capturing group. *)
Fixpoint groupless (r : regex) : bool :=
  match r with
  | Grp _ _ => false
  | Cat r1 r2 | Alt r1 r2 => groupless r1 && groupless r2
  | Opt r1 | Ahead r1 => groupless r1
  | _ => true
  end.

(** A character that no secret pattern can start from: an ASCII character
    that is no digit and none of [@], [:], [=] and [-]. *)
Definition plain (c : N) : bool :=
  is_ascii c && negb (ascii_isdigit c) && negb (has_char c (py "@:=-")).

(** The identifier that both parsers give to the node at position [i]. *)
Definition numbered (i : nat) : list N := py "node_" ++ str_of_int (Z.of_nat i).

Section DiagramProvenance.
Context `{UnicodeData}.
Import Diagram.

(** What the diagram parser keeps besides [wf]: the nodes are numbered in
    their order, every label is a key that is not empty and that [K]
    allows, no edge occurs twice, and [edge_set] holds the key of every
    edge. *)
Record tidy (K : list N -> Prop) (st : dg_state) : Prop := {
  tidy_ids : forall i n, nodes st !! i = Some n -> id n = numbered i;
  tidy_labels : forall n, n ∈ nodes st -> label n <> [] /\ K (label n);
  tidy_edges : NoDup (edges st);
  tidy_keys : forall e, e ∈ edges st -> from e ++ py " -> " ++ to e ∈ edge_set st
}.

Definition tidily {A} (K : list N -> Prop) (m : State dg_state A) : Prop :=
  forall st, tidy K st -> tidy K (m st).2.

(** The keys of the entity mentions of a text. *)
Definition mentioned (text : list N) (k : list N) : Prop :=
  exists m, m ∈ mentions text /\ mention_key m = k.

End DiagramProvenance.

(** A result that is a value or ZeroDivisionError. *)
Definition returns_or_divides {A} (r : result A) : Prop :=
  (exists v, r = Ok v) \/ r = Raise ZeroDivisionError.

(** ** A flowchart for closed examples

    A start, a decision and its two branches. *)
Definition sample_nodes : list Node :=
  [mkNode (py "node_0") (py "Start") (py "terminal");
   mkNode (py "node_1") (py "Ready?") (py "decision");
   mkNode (py "node_2") (py "Go") (py "process");
   mkNode (py "node_3") (py "Wait") (py "process")].

Definition sample_edges : list Edge :=
  [mkEdge (py "node_0") (py "node_1") None;
   mkEdge (py "node_1") (py "node_2") (Some (py "Yes"));
   mkEdge (py "node_1") (py "node_3") (Some (py "No"))].

(** * Properties *)

(** ** The classifier *)

Section ClassifierProperties.
Context `{UnicodeData}.

Lemma found_true ci r s : found ci r s = true <-> is_Some (re_search ci r s).
Proof. unfold found. apply bool_decide_eq_true. Qed.

Lemma has_char_true c s : has_char c s = true <-> c ∈ s.
Proof.
  unfold has_char. rewrite existsb_exists. split.
  - intros (x & Hin & Heq). apply N.eqb_eq in Heq. subst x.
    by apply list_elem_of_In.
  - intros Hin. exists c. split; [by apply list_elem_of_In | apply N.eqb_refl].
Qed.

Lemma str_eqb_true a b : str_eqb a b = true <-> a = b.
Proof. unfold str_eqb. apply bool_decide_eq_true. Qed.

Lemma VisualType_of_value_unknown v :
  v ∉ [py "flowchart"; py "diagram"; py "chart"] ->
  VisualType_of_value v = Raise ValueError.
Proof.
  intros Hv. unfold VisualType_of_value.
  destruct (list_find _ _) as [[i t]|] eqn:Hfind; [|reflexivity].
  apply list_find_Some in Hfind as (_ & Hval & _).
  exfalso. apply Hv. rewrite <- Hval.
  destruct t; [left | right; left | right; right; left].
Qed.

(** C6. A text with the chart signal is classified as a chart, whatever
    flowchart signals it has as well: the chart rule is tested first. *)
Theorem chart_signal_wins (text : list N) :
  chart_signal text -> detect_visual_type text (py "auto") = Ok CHART.
Proof.
  intros Hchart. unfold detect_visual_type.
  replace (str_eqb (py "auto") (py "auto")) with true by reflexivity.
  cbn [negb].
  destruct Hchart as [[Hkv Hqm] | Hthree].
  - apply found_true in Hkv, Hqm. rewrite Hkv, Hqm. reflexivity.
  - rewrite (bool_decide_eq_true_2 _ Hthree). rewrite orb_true_r. reflexivity.
Qed.

(** The flowchart rule decides only when the chart rule does not apply. *)
Lemma flowchart_signal_alone (text : list N) :
  ~ chart_signal text -> flowchart_signal text ->
  detect_visual_type text (py "auto") = Ok FLOWCHART.
Proof.
  intros Hchart Hflow. unfold detect_visual_type.
  replace (str_eqb (py "auto") (py "auto")) with true by reflexivity.
  cbn [negb].
  destruct (_ || _) eqn:Hc.
  - exfalso. apply Hchart. apply orb_true_iff in Hc as [Hc|Hc].
    + left. apply andb_true_iff in Hc as [Hkv Hqm]. by split; apply found_true.
    + right. by apply bool_decide_eq_true in Hc.
  - destruct Hflow as [Hf|[Hf|[Hf|Hf]]].
    + apply found_true in Hf. by rewrite Hf.
    + apply has_char_true in Hf. rewrite Hf. by rewrite orb_true_r.
    + apply found_true in Hf. rewrite Hf. by rewrite !orb_true_r.
    + apply found_true in Hf. rewrite Hf. by rewrite !orb_true_r.
Qed.

(** C8. A hint that is none of "auto", "flowchart", "diagram" and "chart"
    makes the classifier raise ValueError, for every text. *)
Theorem invalid_hint_raises (text hint : list N) :
  hint ∉ [py "auto"; py "flowchart"; py "diagram"; py "chart"] ->
  detect_visual_type text hint = Raise ValueError.
Proof.
  intros Hhint. unfold detect_visual_type.
  destruct (str_eqb hint (py "auto")) eqn:Hauto.
  - apply str_eqb_true in Hauto. exfalso. apply Hhint. subst hint. by left.
  - cbn [negb]. apply VisualType_of_value_unknown.
    intros Hin. apply Hhint. by right.
Qed.

(** C9. Without a hint the classifier raises nothing and returns one of the
    three kinds, for every text. *)
Theorem detect_visual_type_total (text : list N) :
  exists kind : VisualType,
    detect_visual_type text (py "auto") = Ok kind
    /\ (kind = FLOWCHART \/ kind = DIAGRAM \/ kind = CHART).
Proof.
  unfold detect_visual_type.
  replace (str_eqb (py "auto") (py "auto")) with true by reflexivity.
  cbn [negb].
  destruct (_ || _).
  - exists CHART. auto.
  - destruct (_ || _).
    + exists FLOWCHART. auto.
    + exists DIAGRAM. auto.
Qed.
End ClassifierProperties.

(** ** The flowchart parser *)

Section FlowchartProperties.
Context `{UnicodeData}.
Import Flowchart.

(** C4. "Check valid?", "Yes: Show dashboard", "No: Show error" on three
    lines: one decision node, two process nodes, and a Yes edge and a No
    edge that both start at the decision node. *)
Theorem decision_branching :
  let '(nodes, edges) :=
    parse_flowchart (py "Check valid?\nYes: Show dashboard\nNo: Show error") in
  exists d y n : Node,
    filter (fun x => n_type x = py "decision") nodes = [d]
    /\ filter (fun x => n_type x <> py "decision") nodes = [y; n]
    /\ n_type y ∈ [py "process"; py "terminal"]
    /\ n_type n ∈ [py "process"; py "terminal"]
    /\ mkEdge (n_id d) (n_id y) (Some (py "Yes")) ∈ edges
    /\ mkEdge (n_id d) (n_id n) (Some (py "No")) ∈ edges
    /\ Forall (fun e => is_Some (e_label e) -> from_node e = n_id d) edges.
Proof.
  assert (Hrun :
    parse_flowchart (py "Check valid?\nYes: Show dashboard\nNo: Show error")
    = ([mkNode (py "node_0") (py "Check valid?") (py "decision");
        mkNode (py "node_1") (py "Show dashboard") (py "process");
        mkNode (py "node_2") (py "Show error") (py "process")],
       [mkEdge (py "node_0") (py "node_1") (Some (py "Yes"));
        mkEdge (py "node_0") (py "node_2") (Some (py "No"))]))
    by (vm_compute; reflexivity).
  rewrite Hrun.
  exists (mkNode (py "node_0") (py "Check valid?") (py "decision")),
         (mkNode (py "node_1") (py "Show dashboard") (py "process")),
         (mkNode (py "node_2") (py "Show error") (py "process")).
  split; [by vm_compute|]. split; [by vm_compute|].
  split; [by left|]. split; [by left|].
  split; [by left|]. split; [by right; left|].
  apply Forall_cons. split; [intros _; reflexivity|].
  apply Forall_cons. split; [intros _; reflexivity|].
  apply Forall_nil_2.
Qed.

(** C5. "Start", "Process", "End" on three lines: three nodes, a terminal,
    a process and a terminal one, and two edges without a label that chain
    them in this order. *)
Theorem sequential_chain :
  let '(nodes, edges) := parse_flowchart (py "Start\nProcess\nEnd") in
  exists a b c : Node,
    nodes = [a; b; c]
    /\ n_label <$> nodes = [py "Start"; py "Process"; py "End"]
    /\ n_type <$> nodes = [py "terminal"; py "process"; py "terminal"]
    /\ edges = [mkEdge (n_id a) (n_id b) None; mkEdge (n_id b) (n_id c) None].
Proof.
  assert (Hrun :
    parse_flowchart (py "Start\nProcess\nEnd")
    = ([mkNode (py "node_0") (py "Start") (py "terminal");
        mkNode (py "node_1") (py "Process") (py "process");
        mkNode (py "node_2") (py "End") (py "terminal")],
       [mkEdge (py "node_0") (py "node_1") None;
        mkEdge (py "node_1") (py "node_2") None]))
    by (vm_compute; reflexivity).
  rewrite Hrun.
  eexists _, _, _. repeat split; reflexivity.
Qed.

(** C2. In the chain "Start -> Check input? -> Done" the second segment is a
    plain one with a question mark, so the parser takes it for a decision
    (it becomes [last_decision]); yet its node is tagged "process", because
    the first segment has already created it as the target of its edge. *)
Theorem chain_decision_tagged_process :
  let text := py "Start -> Check input? -> Done" in
  let part := py "Check input?" in
  re_split false RE_ARROW text = [py "Start"; part; py "Done"]
  /\ re_match true RE_IF_THEN_ELSE part = None
  /\ re_search true RE_YES_PATH part = None
  /\ re_search true RE_NO_PATH part = None
  /\ is_decision_text part = true
  /\ step_type part = py "decision"
  /\ filter (fun x => n_label x = part) (parse_flowchart text).1
     = [mkNode (py "node_1") part (py "process")]
  /\ filter (fun x => n_type x = py "decision") (parse_flowchart text).1 = [].
Proof. vm_compute. repeat split; reflexivity. Qed.
End FlowchartProperties.

(** *** The identifiers of the nodes

    The counter of [add_node] is a local variable of the call: it starts at
    zero and names the nodes in the order of their creation, whatever was
    parsed before. *)

Create HintDb ids discriminated.

Section FlowchartIdentifiers.
Context `{UnicodeData}.
Import Flowchart.

Lemma keeps_ret {A} (a : A) : keeps_ids (mret a).
Proof. intros st Hst. exact Hst. Qed.

Lemma keeps_get : keeps_ids get.
Proof. intros st Hst. exact Hst. Qed.

Lemma keeps_bind {A B} (m : State fc_state A) (f : A -> State fc_state B) :
  keeps_ids m -> (forall a, keeps_ids (f a)) -> keeps_ids (m ≫= f).
Proof.
  intros Hm Hf st Hst. unfold mbind, state_bind.
  specialize (Hm st Hst). destruct (m st) as [a st']. by apply Hf.
Qed.

Lemma keeps_when (b : bool) (m : State fc_state unit) : keeps_ids m -> keeps_ids (when b m).
Proof. intros Hm. destruct b; [exact Hm | apply keeps_ret]. Qed.

Lemma keeps_for_each {A} (xs : list A) (body : A -> State fc_state unit) :
  (forall x, keeps_ids (body x)) -> keeps_ids (for_each xs body).
Proof.
  intros Hbody. induction xs as [|x xs IH]; [apply keeps_ret|].
  cbn [for_each]. apply keeps_bind; [apply Hbody | intros _; exact IH].
Qed.

(** A statement that writes neither [nodes] nor the counter. *)
Lemma keeps_modify (f : fc_state -> fc_state) :
  (forall st, nodes (f st) = nodes st /\ node_id_counter (f st) = node_id_counter st) ->
  keeps_ids (modify f).
Proof.
  intros Hf st [Hcount Hids]. destruct (Hf st) as [Hn Hc].
  unfold modify. cbn [snd]. split.
  - by rewrite Hn, Hc.
  - intros i n. rewrite Hn. apply Hids.
Qed.

Lemma keeps_add_node l t : keeps_ids (add_node l t).
Proof.
  intros st [Hcount Hids]. unfold add_node.
  destruct (node_map st !! l); [by split|].
  cbn [snd]. split; cbn [nodes node_id_counter].
  - rewrite length_app. cbn [length]. lia.
  - intros i n Hi. apply lookup_app_Some in Hi as [Hi|[Hlen Hi]]; [by apply Hids|].
    destruct (i - length (nodes st))%nat as [|j] eqn:Hj; [|done].
    cbn in Hi. injection Hi as <-. cbn [n_id].
    replace i with (node_id_counter st) by lia. reflexivity.
Qed.

Lemma keeps_append_edge e : keeps_ids (append_edge e).
Proof. by apply keeps_modify. Qed.

Lemma keeps_append_candidate l : keeps_ids (append_candidate l).
Proof. by apply keeps_modify. Qed.

Lemma keeps_set_last_decision l : keeps_ids (set_last_decision l).
Proof. by apply keeps_modify. Qed.

Lemma keeps_set_last_non_decision l : keeps_ids (set_last_non_decision l).
Proof. by apply keeps_modify. Qed.

Lemma keeps_set_decision_to_branches f : keeps_ids (set_decision_to_branches f).
Proof. by apply keeps_modify. Qed.

Lemma keeps_note_previous d : keeps_ids (note_previous d).
Proof.
  apply keeps_modify. intros st.
  destruct (last_non_decision st) as [p|]; [|done]. by destruct (nonempty p).
Qed.

Hint Resolve keeps_ret keeps_get keeps_when keeps_for_each keeps_add_node keeps_append_edge
  keeps_append_candidate keeps_set_last_decision keeps_set_last_non_decision
  keeps_set_decision_to_branches keeps_note_previous : ids.

(** The compound statements: every bind is split, every case of a match is
    taken, and the basic statements are found in the hint base. *)
Ltac keeps :=
  repeat first
    [ apply keeps_bind; [|intros ?]
    | apply keeps_when
    | apply keeps_for_each; intros ?
    | solve [auto with ids]
    | match goal with
      | |- keeps_ids (match ?x with _ => _ end) => destruct x
      | |- keeps_ids (if ?b then _ else _) => destruct b
      | |- keeps_ids (let (_, _) := ?x in _) => destruct x
      | |- keeps_ids skip => apply keeps_ret
      end ].

Lemma keeps_ensure_branches d : keeps_ids (ensure_branches d).
Proof. unfold ensure_branches. keeps. Qed.

Lemma keeps_add_branch d b : keeps_ids (add_branch d b).
Proof. unfold add_branch. keeps. Qed.

Hint Resolve keeps_ensure_branches keeps_add_branch : ids.

Lemma keeps_remember l b : keeps_ids (remember l b).
Proof. unfold remember. keeps. Qed.

Hint Resolve keeps_remember : ids.

Lemma keeps_parse_line line : keeps_ids (parse_line line).
Proof.
  unfold parse_line, line_if_then, line_branches, line_branch, line_step, arrow_part,
    part_if_then, part_branch, part_regular.
  keeps.
Qed.

Lemma keeps_connect : keeps_ids connect.
Proof. unfold connect, connect_branches, connect_sequential. keeps. Qed.

Lemma ids_initial : ids_in_order fc_initial.
Proof. split; [reflexivity|]. intros i n Hi. cbn [nodes fc_initial] in Hi. by destruct i. Qed.

(** The node at position [i] of the result is "node_i": the counter starts
    at zero in every call of [parse_flowchart]. *)
Lemma parse_flowchart_ids (text : list N) (i : nat) (n : Node) :
  (parse_flowchart text).1 !! i = Some n ->
  n_id n = py "node_" ++ str_of_int (Z.of_nat i).
Proof.
  unfold parse_flowchart.
  pose proof (keeps_bind (for_each (nonblank_lines text) parse_line) (fun _ => connect)
                (keeps_for_each _ _ keeps_parse_line) (fun _ => keeps_connect)
                fc_initial ids_initial) as Hids.
  destruct ((for_each (nonblank_lines text) parse_line;; connect) fc_initial) as [[] st].
  cbn [fst snd] in *. apply Hids.
Qed.
End FlowchartIdentifiers.

(** ** The diagram parser *)

Section StateLemmas.
Context {S : Type}.

Lemma run_bind {A B} (m : State S A) (f : A -> State S B) (st : S) :
  (m ≫= f) st = f (m st).1 (m st).2.
Proof. unfold mbind, state_bind. by destruct (m st). Qed.

End StateLemmas.

Section DiagramProperties.
Context `{UnicodeData}.
Import Diagram.

Lemma wf_initial : wf dg_initial.
Proof.
  split; unfold labels; simpl.
  - constructor.
  - intros l. split; [intros []%elem_of_empty | intros []%elem_of_nil].
  - constructor.
Qed.

Lemma nonempty_true (s : list N) : nonempty s = true <-> s <> [].
Proof. destruct s; simpl; split; congruence. Qed.

Lemma add_node_spec (l : list N) (st : dg_state) :
  wf st ->
  wf (add_node l st).2
  /\ labels st ⊆ labels (add_node l st).2
  /\ (add_node l st).1 = (if nonempty (canon l) then Some (canon l) else None)
  /\ (canon l <> [] -> canon l ∈ labels (add_node l st).2).
Proof.
  intros Hwf. unfold add_node.
  destruct (nonempty (canon l)) eqn:Hne; cbn [negb].
  - case_bool_decide as Hin; cbn [fst snd].
    + split; [|split; [|split]].
      * destruct Hwf as [Hnd Hset Hed].
        split; unfold labels in *; cbn [nodes node_set edges].
        -- rewrite fmap_app. apply NoDup_app. split; [exact Hnd|]. split.
           ++ intros x Hx Hx'. cbn in Hx'. apply list_elem_of_singleton in Hx'.
              subst x. apply Hin. by apply Hset.
           ++ cbn. apply NoDup_singleton.
        -- intros k. rewrite fmap_app, elem_of_app, elem_of_union, elem_of_singleton.
           cbn. rewrite list_elem_of_singleton, Hset. tauto.
        -- eapply Forall_impl; [exact Hed|]. intros e [Hf Ht]. cbn beta.
           rewrite fmap_app. split; apply elem_of_app; by left.
      * unfold labels. cbn [nodes]. rewrite fmap_app. intros x Hx.
        apply elem_of_app. by left.
      * reflexivity.
      * intros _. unfold labels. cbn [nodes]. rewrite fmap_app.
        apply elem_of_app. right. cbn. by left.
    + split; [exact Hwf|]. split; [done|]. split; [reflexivity|].
      intros _. by apply (wf_set _ Hwf).
  - cbn [fst snd]. split; [exact Hwf|]. split; [done|]. split; [reflexivity|].
    intros Hk. apply nonempty_true in Hk. congruence.
Qed.

Lemma add_edge_spec (f t : list N) (st : dg_state) :
  wf st -> f ∈ labels st -> t ∈ labels st ->
  wf (add_edge f t st).2 /\ labels (add_edge f t st).2 = labels st.
Proof.
  intros [Hnd Hset Hed] Hf Ht. unfold add_edge.
  case_bool_decide; cbn [snd]; [|by split].
  split; [|reflexivity]. split; unfold labels in *; cbn [nodes node_set edges].
  - exact Hnd.
  - exact Hset.
  - apply Forall_app. split; [exact Hed|]. by repeat constructor.
Qed.

(** The cases of [connect_spec] in which no edge is added. *)
Local Ltac no_edge :=
  cbn [skip mret state_ret snd];
  match goal with
  | Hwf : wf ?st, Hsub : _ ⊆ labels ?st |- wf ?st /\ _ =>
      split; [exact Hwf|]; split; [by etrans|]; split; intros; [apply Hsub|]; auto
  end.

Lemma connect_spec (a b : list N) (st : dg_state) :
  wf st ->
  wf (connect a b st).2
  /\ labels st ⊆ labels (connect a b st).2
  /\ (canon a <> [] -> canon a ∈ labels (connect a b st).2)
  /\ (canon b <> [] -> canon b ∈ labels (connect a b st).2).
Proof.
  intros Hwf. unfold connect. rewrite run_bind, run_bind.
  destruct (add_node_spec a st Hwf) as (Hwf1 & Hsub1 & Hres1 & Hin1).
  destruct (add_node_spec b _ Hwf1) as (Hwf2 & Hsub2 & Hres2 & Hin2).
  rewrite Hres1, Hres2.
  destruct (nonempty (canon a)) eqn:Ha, (nonempty (canon b)) eqn:Hb.
  - apply nonempty_true in Ha, Hb.
    destruct (add_edge_spec (canon a) (canon b) _ Hwf2) as [Hwf3 Heq];
      [apply Hsub2; auto | auto |].
    rewrite Heq. split; [exact Hwf3|]. split; [by etrans|].
    split; intros; [apply Hsub2|]; auto.
  - no_edge.
  - no_edge.
  - no_edge.
Qed.

Lemma sound_connect a b : sound (connect a b).
Proof. intros st Hwf. destruct (connect_spec a b st Hwf) as (? & ? & _). by split. Qed.

Lemma sound_skip : sound skip.
Proof. intros st Hwf. by split. Qed.

Lemma sound_for_each {A} (xs : list A) (body : A -> State dg_state unit) :
  (forall x, sound (body x)) -> sound (for_each xs body).
Proof.
  intros Hbody. induction xs as [|x xs IH]; [apply sound_skip|].
  intros st Hwf. cbn [for_each]. rewrite run_bind.
  destruct (Hbody x st Hwf) as [Hwf1 Hsub1].
  destruct (IH _ Hwf1) as [Hwf2 Hsub2].
  split; [exact Hwf2 | by etrans].
Qed.

(** A key that one round of a loop covers is covered by the loop. *)
Lemma covers_for_each {A} (xs : list A) (body : A -> State dg_state unit) x k :
  (forall y, sound (body y)) -> x ∈ xs -> covers (body x) k ->
  covers (for_each xs body) k.
Proof.
  intros Hbody Hx Hcov. induction xs as [|y xs IH]; [by apply elem_of_nil in Hx|].
  intros st Hwf Hk. cbn [for_each]. rewrite run_bind.
  destruct (Hbody y st Hwf) as [Hwf1 Hsub1].
  apply elem_of_cons in Hx as [->|Hx].
  - destruct (sound_for_each xs body Hbody _ Hwf1) as [_ Hsub2].
    apply Hsub2. by apply Hcov.
  - by apply IH.
Qed.

Lemma sound_arrow_line line : sound (arrow_line line).
Proof.
  unfold arrow_line, when. destruct (has_arrow line); [|apply sound_skip].
  apply sound_for_each. intros i. apply sound_connect.
Qed.

Lemma sound_verb_phrase phrase : sound (verb_phrase phrase).
Proof.
  unfold verb_phrase. destruct (first_match phrase); [|apply sound_skip].
  apply sound_connect.
Qed.

Lemma covers_arrow_line line m :
  m ∈ line_mentions line -> covers (arrow_line line) (mention_key m).
Proof.
  unfold line_mentions, arrow_line, when.
  destruct (has_arrow line); [|by intros ?%elem_of_nil].
  intros Hm. apply list_elem_of_In, in_flat_map in Hm as (i & Hi & Hm).
  apply list_elem_of_In in Hi, Hm.
  eapply covers_for_each; [intros; apply sound_connect | exact Hi |].
  intros st Hwf Hk.
  destruct (connect_spec (default [] (re_split false RE_ARROW line !! i))
              (default [] (re_split false RE_ARROW line !! (i + 1)%nat)) st Hwf)
    as (_ & _ & Ha & Hb).
  apply elem_of_cons in Hm as [->|Hm]; [by apply Ha|].
  apply list_elem_of_singleton in Hm as ->. by apply Hb.
Qed.

Lemma covers_verb_phrase phrase m :
  m ∈ phrase_mentions phrase -> covers (verb_phrase phrase) (mention_key m).
Proof.
  unfold phrase_mentions, verb_phrase.
  destruct (first_match phrase) as [r|]; [|by intros ?%elem_of_nil].
  intros Hm st Hwf Hk.
  destruct (connect_spec (clean_entity (grp phrase r 1))
              (clean_entity (grp phrase r 2)) st Hwf) as (_ & _ & Ha & Hb).
  apply elem_of_cons in Hm as [->|Hm]; [by apply Ha|].
  apply list_elem_of_singleton in Hm as ->. by apply Hb.
Qed.

Lemma parse_diagram_final text :
  parse_diagram text = (nodes (final_state text), edges (final_state text)).
Proof.
  unfold parse_diagram, final_state.
  by destruct ((for_each _ arrow_line;; for_each _ verb_phrase) dg_initial).
Qed.

Lemma final_state_wf text : wf (final_state text).
Proof.
  unfold final_state. rewrite run_bind.
  apply sound_for_each; [apply sound_verb_phrase|].
  apply sound_for_each; [apply sound_arrow_line|]. apply wf_initial.
Qed.

Lemma final_state_covers text m :
  m ∈ mentions text -> mention_key m <> [] -> mention_key m ∈ labels (final_state text).
Proof.
  intros Hm Hk. unfold final_state. rewrite run_bind.
  pose proof (sound_for_each (nonblank_lines text) arrow_line
                sound_arrow_line dg_initial wf_initial) as [Hwf1 _].
  unfold mentions in Hm. apply elem_of_app in Hm as [Hm|Hm];
    apply list_elem_of_In, in_flat_map in Hm as (x & Hx & Hm);
    apply list_elem_of_In in Hx, Hm.
  - apply (sound_for_each (phrases_of text) verb_phrase sound_verb_phrase _ Hwf1).
    eapply covers_for_each; eauto using sound_arrow_line, covers_arrow_line, wf_initial.
  - eapply covers_for_each; eauto using sound_verb_phrase, covers_verb_phrase.
Qed.

Lemma filter_none {A} (P : A -> Prop) `{!forall x, Decision (P x)} (l : list A) :
  (forall x, x ∈ l -> ~ P x) -> filter P l = [].
Proof.
  induction l as [|x l IH]; intros Hl; [reflexivity|].
  rewrite filter_cons. destruct (decide (P x)) as [Hx|_].
  - exfalso. apply (Hl x); [by left | exact Hx].
  - apply IH. intros y Hy. apply Hl. by right.
Qed.

Lemma unique_by_label (ns : list node) (k : list N) :
  NoDup (label <$> ns) -> k ∈ label <$> ns ->
  exists n, filter (fun x => label x = k) ns = [n].
Proof.
  induction ns as [|n ns IH]; intros Hnd Hk; [by apply elem_of_nil in Hk|].
  cbn in Hnd. apply NoDup_cons in Hnd as [Hn Hnd].
  rewrite filter_cons. case_decide as Heq.
  - exists n. f_equal. apply filter_none.
    intros x Hx Hlx. apply Hn. rewrite Heq, <- Hlx.
    by apply list_elem_of_fmap_2.
  - cbn in Hk. apply elem_of_cons in Hk as [Hk|Hk]; [congruence|]. by apply IH.
Qed.

(** C3, as amended. Two mentions with the same key share one node: the
    result has exactly one node with that label. The key of a mention is
    its text with white space collapsed, and for a span captured by a verb
    pattern also with a leading article stripped; keys are compared as
    they are written, case included. *)
Theorem same_key_same_node (text : list N) (m1 m2 : mention) :
  m1 ∈ mentions text -> m2 ∈ mentions text ->
  mention_key m1 = mention_key m2 -> mention_key m1 <> [] ->
  exists n : node,
    filter (fun x => label x = mention_key m1) (parse_diagram text).1 = [n]
    /\ filter (fun x => label x = mention_key m2) (parse_diagram text).1 = [n].
Proof.
  intros Hm1 _ Heq Hk. rewrite <- Heq, parse_diagram_final. cbn [fst].
  destruct (unique_by_label (nodes (final_state text)) (mention_key m1)) as [n Hn].
  - apply final_state_wf.
  - by apply final_state_covers.
  - by exists n.
Qed.

(** C10. Both ends of every edge of the result are labels of nodes of the
    result. *)
Theorem edges_endpoint_closed (text : list N) :
  let '(nodes, edges) := parse_diagram text in
  Forall (fun e => (exists n, n ∈ nodes /\ label n = from e)
                   /\ (exists n, n ∈ nodes /\ label n = to e)) edges.
Proof.
  rewrite parse_diagram_final.
  eapply Forall_impl; [apply (wf_edges _ (final_state_wf text))|].
  intros e [Hf Ht]. cbn beta. unfold labels in *.
  apply list_elem_of_fmap in Hf as (n1 & -> & Hn1), Ht as (n2 & -> & Hn2).
  split; eauto.
Qed.
End DiagramProperties.

(** ** The chart renderer *)

Section ChartProperties.
Context `{FloatLib}.

Lemma zero_item_zero entry : is_zero_float (c_value (zero_item entry)).
Proof. destruct entry as [l []]; [by right | by left]. Qed.

Lemma float_max_zero (x : float) (xs : list float) :
  is_zero_float x -> Forall is_zero_float xs -> is_zero_float (float_max x xs).
Proof.
  unfold float_max. intros Hx Hxs. revert x Hx.
  induction Hxs as [|v xs Hv _ IH]; intros x Hx; [exact Hx|].
  cbn [fold_left]. apply IH. by destruct (PrimFloat.ltb x v).
Qed.

Lemma truediv_zero (x y : float) : is_zero_float y -> truediv x y = Raise ZeroDivisionError.
Proof. intros [-> | ->]; reflexivity. Qed.

Lemma for_fold_raises {A B} (x : A) (xs : list A) (acc : B) body e :
  body acc x = Raise e -> for_fold (x :: xs) acc body = Raise e.
Proof. intros Hbody. cbn [for_fold]. by rewrite Hbody. Qed.

(** C1 fails on the code. A chart whose values are all zero is not
    rendered: the division by the maximum raises ZeroDivisionError at the
    first bar, for every non-empty list of entries of value zero. *)
Theorem zero_chart_raises (first : list N * bool) (rest : list (list N * bool)) :
  generate_chart_svg (zero_item <$> (first :: rest)) = Raise ZeroDivisionError.
Proof.
  rewrite fmap_cons. unfold generate_chart_svg.
  assert (Hmax : is_zero_float
                   (float_max (c_value (zero_item first))
                              (c_value <$> (zero_item <$> rest)))).
  { apply float_max_zero; [apply zero_item_zero|].
    apply Forall_fmap, Forall_fmap, Forall_forall. intros x _. apply zero_item_zero. }
  unfold int_truediv, enumerate. cbn [length seq zip zip_with].
  destruct (Z.eqb_spec (Z.of_nat (S (length (zero_item <$> rest)))) 0) as [E|_]; [lia|].
  cbn [mbind result_bind].
  erewrite for_fold_raises; [reflexivity|].
  cbn [snd]. by rewrite (truediv_zero _ _ Hmax).
Qed.

(** The same on a text: three lines "a: 0", "b: 0", "c: 0" are a chart for
    the classifier, and [generate_html] raises on them. *)
Lemma zero_chart_text `{UnicodeData} :
  let text := py "a: 0\nb: 0\nc: 0" in
  detect_visual_type text (py "auto") = Ok CHART
  /\ parse_chart text = zero_item <$> [(py "a", false); (py "b", false); (py "c", false)]
  /\ (generate_html text (py "auto") __init__).1 = Raise ZeroDivisionError.
Proof. vm_compute. repeat split; reflexivity. Qed.
End ChartProperties.

(** ** The flowchart layout *)

Section LayoutProperties.
Context `{UnicodeData}.

Lemma adjacency_snoc edges e :
  adjacency (edges ++ [e])
  = <[from_node e := default [] (adjacency edges !! from_node e)
                     ++ [mkChild (to_node e) (e_label e)]]> (adjacency edges).
Proof. unfold adjacency. by rewrite fold_left_app. Qed.

Lemma adjacency_length edges i :
  length (default [] (adjacency edges !! i))
  = length (filter (fun e => from_node e = i) edges).
Proof.
  induction edges as [|e edges IH] using rev_ind; [reflexivity|].
  rewrite adjacency_snoc, filter_app.
  destruct (decide (from_node e = i)) as [<-|Hne].
  - rewrite lookup_insert_eq. cbn [default from_option id].
    rewrite !length_app, IH. rewrite filter_cons_True by done. reflexivity.
  - rewrite lookup_insert_ne by done.
    rewrite length_app, IH. rewrite filter_cons_False by done.
    rewrite filter_nil. cbn [length]. lia.
Qed.

Lemma pending_visit (seen : gset (list N)) edges i :
  i ∉ seen ->
  (pending ({[i]} ∪ seen) edges + length (filter (fun e => from_node e = i) edges)
   = pending seen edges)%nat.
Proof.
  intros Hi. unfold pending. induction edges as [|e edges IH]; [reflexivity|].
  rewrite !filter_cons.
  assert (Hunion : from_node e ∈ {[i]} ∪ seen <-> from_node e = i \/ from_node e ∈ seen)
  by (rewrite elem_of_union, elem_of_singleton; tauto).
destruct (decide (from_node e = i)) as [Heq|Hne];
  destruct (decide (from_node e ∉ seen)) as [Hs|Hs];
  destruct (decide (from_node e ∉ {[i]} ∪ seen)) as [Hu|Hu];
  cbn [length]; try lia; exfalso; rewrite Hunion in Hu; intuition congruence.
Qed.

Lemma yes_is_not_no c : answers (py "yes") c = true -> answers (py "no") c = true -> False.
Proof.
  unfold answers. intros [_ Hy]%andb_true_iff [_ Hn]%andb_true_iff.
  apply bool_decide_eq_true in Hy, Hn. rewrite Hy in Hn.
  by apply (bool_decide_eq_false_1 (py "yes" = py "no")).
Qed.

Lemma length_enumerate {A} (xs : list A) : length (enumerate xs) = length xs.
Proof. unfold enumerate. rewrite length_zip_with, length_seq. lia. Qed.

Lemma successors_length node children current :
  (length (successors node children current) <= length children)%nat.
Proof.
  unfold successors. destruct (_ && _); [|by rewrite length_fmap].
  destruct (head (filter (fun c => answers (py "yes") c = true) children))
    as [y|] eqn:Hy; [|by rewrite length_fmap, length_enumerate].
  destruct (head (filter (fun c => answers (py "no") c = true) children))
    as [n|] eqn:Hn; [|by rewrite length_fmap, length_enumerate].
  destruct children as [|c [|c' children]]; cbn [length]; [done| |lia].
  exfalso. rewrite filter_cons in Hy, Hn.
  destruct (decide (answers (py "yes") c = true)) as [Hcy|]; [|done].
  destruct (decide (answers (py "no") c = true)) as [Hcn|]; [|done].
  exact (yes_is_not_no c Hcy Hcn).
Qed.

(** The traversal loop comes to its end: with as many rounds as there are
    entries in the queue and edges that leave unvisited nodes, and one
    more, the queue is empty or the loop has raised. *)
Lemma traverse_enough fuel node_map edges (st : bfs_state) :
  (length (queue st) + pending (visited st) edges < fuel)%nat ->
  is_Some (traverse fuel node_map (adjacency edges) st).
Proof.
  revert st. induction fuel as [|fuel IH]; intros st Hfuel; [lia|].
  cbn [traverse]. destruct (queue st) as [|current rest] eqn:Hq; [by eexists|].
  cbn [length] in Hfuel. case_bool_decide as Hseen.
  - apply IH. cbn [queue visited]. lia.
  - destruct (node_map !! q_id current) as [node|]; [|by eexists].
    apply IH. cbn [queue visited]. rewrite length_app.
    pose proof (successors_length node
                  (default [] (adjacency edges !! q_id current)) current) as Hsucc.
    rewrite adjacency_length in Hsucc.
    pose proof (pending_visit (visited st) edges (q_id current) Hseen). lia.
Qed.

(** The fuel that [_calculate_flowchart_layout] gives to the loop suffices. *)
Lemma traverse_finishes node_map edges start :
  is_Some (traverse (2 + length edges) node_map (adjacency edges)
             (mkBfs [mkQueued start 0 0] ∅ ∅ 0)).
Proof.
  apply traverse_enough. unfold pending. cbn [queue visited length].
  cbn [Nat.add]. apply Nat.lt_succ_r, le_n_S, length_filter.
Qed.
End LayoutProperties.

(** ** The compiler: calls on one process leave nothing that a later call reads *)

Section ProcessProperties.
Context `{UnicodeData} `{FloatLib}.








End ProcessProperties.

(** * Further properties of the code *)

(** ** The invariant of the flowchart parser

    Every statement of [parse_flowchart] is taken through [post]: the rules
    below are those of a weakest-precondition calculus for [State], and the
    tactic [flow] applies them along the text of a handler. *)
Section FlowchartInvariant.
Context `{UnicodeData}.
Import Flowchart.

Lemma is_id_grows st st' x : grows st st' -> is_id st x -> is_id st' x.
Proof.
  intros [k Hk] (n & Hn & <-). exists n. split; [|done].
  rewrite Hk. apply elem_of_app. by left.
Qed.

Lemma grows_refl st : grows st st.
Proof. by unfold grows. Qed.

Lemma grows_trans st1 st2 st3 : grows st1 st2 -> grows st2 st3 -> grows st1 st3.
Proof. unfold grows. by etrans. Qed.

Lemma flow_map_id st l x : flow_wf st -> node_map st !! l = Some x -> is_id st x.
Proof.
  intros Hwf Hl. apply (flow_map _ Hwf) in Hl as (n & Hn & _ & Hx). by exists n.
Qed.

Lemma post_ret {A} (a : A) st (Q : A -> fc_state -> Prop) : Q a st -> post (mret a) st Q.
Proof. done. Qed.

Lemma post_skip st (Q : unit -> fc_state -> Prop) : Q tt st -> post skip st Q.
Proof. done. Qed.

Lemma post_get st (Q : fc_state -> fc_state -> Prop) : Q st st -> post get st Q.
Proof. done. Qed.

Lemma post_bind {A B} (m : State fc_state A) (f : A -> State fc_state B) st Q :
  post m st (fun a st' => post (f a) st' Q) -> post (m ≫= f) st Q.
Proof. unfold post. by rewrite run_bind. Qed.

Lemma post_when (b : bool) (m : State fc_state unit) st Q :
  (b = true -> post m st Q) -> (b = false -> Q tt st) -> post (when b m) st Q.
Proof. destruct b; intros H1 H2; [by apply H1 | by apply H2]. Qed.

Lemma post_mono {A} (m : State fc_state A) st (Q Q' : A -> fc_state -> Prop) :
  post m st Q -> (forall a st', Q a st' -> Q' a st') -> post m st Q'.
Proof. unfold post. auto. Qed.

Lemma post_ok {A} (m : State fc_state A) st (Q : A -> fc_state -> Prop) :
  flow_ok m -> flow_wf st ->
  (forall a st', flow_wf st' -> grows st st' -> Q a st') -> post m st Q.
Proof.
  intros Hm Hwf HQ. eapply post_mono; [by apply Hm|].
  intros a st' [? ?]. by apply HQ.
Qed.

Lemma flow_ok_for_each {A} (xs : list A) (body : A -> State fc_state unit) :
  (forall x, flow_ok (body x)) -> flow_ok (for_each xs body).
Proof.
  intros Hbody. induction xs as [|x xs IH]; intros st Hwf.
  - split; [done | apply grows_refl].
  - cbn [for_each]. apply post_bind. eapply post_ok; [apply Hbody | done |].
    intros _ st1 Hwf1 Hg1. eapply post_ok; [apply IH | done |].
    intros _ st2 Hwf2 Hg2. split; [done | by eapply grows_trans].
Qed.

(** A statement that changes neither the nodes, nor the edges, nor
    [node_map]. *)
Lemma flow_ok_modify (f : fc_state -> fc_state) :
  (forall st, nodes (f st) = nodes st /\ edges (f st) = edges st
              /\ node_map (f st) = node_map st) ->
  flow_ok (modify f).
Proof.
  intros Hf st [H1 H2 H3 H4 H5]. destruct (Hf st) as (Hn & He & Hm).
  unfold post, modify, grows, is_id in *. cbn [fst snd]. split; [|by rewrite Hn].
  split; unfold is_id; rewrite ?Hn, ?He, ?Hm; done.
Qed.

Lemma flow_ok_append_candidate l : flow_ok (append_candidate l).
Proof. by apply flow_ok_modify. Qed.
Lemma flow_ok_set_last_decision l : flow_ok (set_last_decision l).
Proof. by apply flow_ok_modify. Qed.
Lemma flow_ok_set_last_non_decision l : flow_ok (set_last_non_decision l).
Proof. by apply flow_ok_modify. Qed.
Lemma flow_ok_set_decision_to_branches f : flow_ok (set_decision_to_branches f).
Proof. by apply flow_ok_modify. Qed.
Lemma flow_ok_note_previous d : flow_ok (note_previous d).
Proof.
  apply flow_ok_modify. intros st. destruct (last_non_decision st) as [p|]; [|done].
  by destruct (nonempty p).
Qed.
Lemma flow_ok_ensure_branches d : flow_ok (ensure_branches d).
Proof. apply flow_ok_set_decision_to_branches. Qed.
Lemma flow_ok_add_branch d b : flow_ok (add_branch d b).
Proof. apply flow_ok_set_decision_to_branches. Qed.

(** [add_node] keeps the invariant and returns the identifier of a node
    that carries the label. *)
Lemma post_add_node l t st (Q : list N -> fc_state -> Prop) :
  flow_wf st -> node_kind t ->
  (forall x st', flow_wf st' -> grows st st' -> is_id st' x -> Q x st') ->
  post (add_node l t) st Q.
Proof.
  intros Hwf Ht HQ. unfold post, add_node.
  destruct (node_map st !! l) as [x|] eqn:Hl; cbn [fst snd].
  - apply HQ; [done | apply grows_refl | by eapply flow_map_id].
  - set (x := py "node_" ++ _).
    assert (Hfresh : l ∉ n_label <$> nodes st).
    { intros (n & -> & Hn)%list_elem_of_fmap.
      assert (node_map st !! n_label n = Some (n_id n)) as Hs
        by (apply (flow_map _ Hwf); by exists n).
      congruence. }
    apply HQ.
    + destruct Hwf as [H1 H2 H3 H4 H5]. split; cbn [nodes edges node_map]; [| | |
        apply Forall_app; split; [done | by apply Forall_singleton] | done].
      * rewrite fmap_app. apply NoDup_app. split; [done|]. split.
        -- cbn. intros l' Hl' ->%list_elem_of_singleton. done.
        -- cbn. apply NoDup_singleton.
      * intros l' x'. destruct (decide (l' = l)) as [->|Hne].
        -- rewrite lookup_insert_eq. split.
           ++ intros [= <-]. exists (mkNode x l t). split; [|done].
              apply elem_of_app. right. by left.
           ++ intros (n & [Hn| ->%list_elem_of_singleton]%elem_of_app & Hnl & Hnx).
              ** exfalso. apply Hfresh. apply list_elem_of_fmap. by exists n.
              ** cbn in Hnx. by subst x'.
        -- rewrite lookup_insert_ne by done. rewrite H2. split.
           ++ intros (n & Hn & ?). exists n. split; [|done]. apply elem_of_app. by left.
           ++ intros (n & [Hn| ->%list_elem_of_singleton]%elem_of_app & Hnl & Hnx).
              ** by exists n.
              ** cbn in Hnl. congruence.
      * eapply Forall_impl; [exact H3|]. intros e (n & Hn & Hne). exists n.
        split; [|done]. apply elem_of_app. by left.
    + by apply prefix_app_r.
    + exists (mkNode x l t). split; [|done]. cbn [nodes]. apply elem_of_app. right. by left.
Qed.

Lemma flow_ok_add_node l t : node_kind t -> flow_ok (add_node l t).
Proof. intros Ht st Hwf. by apply post_add_node. Qed.

(** [edges.append(e)] keeps the invariant when the edge ends at a node. *)
Lemma post_append_edge e st (Q : unit -> fc_state -> Prop) :
  flow_wf st -> is_id st (to_node e) -> edge_kind (e_label e) ->
  (forall st', flow_wf st' -> grows st st' -> Q tt st') ->
  post (append_edge e) st Q.
Proof.
  intros [H1 H2 H3 H4 H5] He Hl HQ. apply HQ; [|by unfold grows].
  split; cbn [append_edge modify fst snd nodes edges node_map]; [done..| |done|];
    (apply Forall_app; split; [done | by apply Forall_singleton]).
Qed.

Lemma node_kind_decision : node_kind (py "decision").
Proof. by left. Qed.
Lemma node_kind_process : node_kind (py "process").
Proof. right. by right. Qed.
Lemma node_kind_action action : node_kind (action_type action).
Proof. unfold action_type. destruct (found _ _ _); [right; by left | right; by right]. Qed.
Lemma node_kind_step s : node_kind (step_type s).
Proof. unfold step_type. destruct (is_decision_text s); [by left | apply node_kind_action]. Qed.
Lemma edge_kind_none : edge_kind None.
Proof. by left. Qed.
Lemma edge_kind_yes : edge_kind (Some (py "Yes")).
Proof. right. by left. Qed.
Lemma edge_kind_no : edge_kind (Some (py "No")).
Proof. right. by right. Qed.

Create HintDb flow discriminated.
#[local] Hint Resolve node_kind_decision node_kind_process node_kind_action node_kind_step
  edge_kind_none edge_kind_yes edge_kind_no : flow.
#[local] Hint Resolve flow_ok_append_candidate flow_ok_set_last_decision
  flow_ok_set_last_non_decision flow_ok_note_previous flow_ok_ensure_branches
  flow_ok_add_branch flow_ok_add_node : flow.
#[local] Hint Resolve grows_refl is_id_grows flow_map_id : flow.

Local Ltac flow_step :=
  cbv beta;
  lazymatch goal with
  | |- post (mbind _ _) _ _ => apply post_bind
  | |- post get _ _ => apply post_get
  | |- post skip _ _ => apply post_skip
  | |- post (mret _) _ _ => apply post_ret
  | |- post (when _ _) _ _ => apply post_when; intros ?
  | |- post (add_node _ _) _ _ =>
      eapply post_add_node; [eassumption | solve [auto with flow] | intros ? ? ? ? ?]
  | |- post (append_edge _) _ _ =>
      eapply post_append_edge;
        [eassumption | cbn [to_node]; solve [eauto 8 with flow]
         | cbn [e_label]; solve [auto with flow] | intros ? ? ?]
  | |- post _ _ _ => eapply post_ok; [solve [auto with flow] | eassumption | intros ? ? ? ?]
  | |- _ /\ grows _ _ =>
      split; [assumption | repeat (first [eassumption | apply grows_refl
                                          | eapply grows_trans; [eassumption|]])]
  end.
Local Ltac flow := intros st Hwf; repeat flow_step.

Lemma flow_ok_line_if_then line m : flow_ok (line_if_then line m).
Proof. unfold line_if_then. flow. Qed.

Lemma flow_ok_line_branch line bm answer :
  edge_kind (Some answer) -> flow_ok (line_branch line bm answer).
Proof. intros Ha. unfold line_branch. destruct bm; flow. Qed.

Lemma flow_ok_line_branches line : flow_ok (line_branches line).
Proof.
  unfold line_branches.
  pose proof (flow_ok_line_branch line (re_search true RE_YES_PATH line) _ edge_kind_yes).
  pose proof (flow_ok_line_branch line (re_search true RE_NO_PATH line) _ edge_kind_no).
  flow.
Qed.

Lemma flow_ok_remember l b : flow_ok (remember l b).
Proof. unfold remember. flow. Qed.
#[local] Hint Resolve flow_ok_remember : flow.

Lemma flow_ok_line_step line : flow_ok (line_step line).
Proof. unfold line_step. flow. Qed.

Lemma flow_ok_part_if_then part m : flow_ok (part_if_then part m).
Proof. unfold part_if_then. flow. Qed.

Lemma flow_ok_part_branch part bm answer :
  edge_kind (Some answer) -> flow_ok (part_branch part bm answer).
Proof. intros Ha. unfold part_branch. destruct bm; flow. Qed.

Lemma flow_ok_part_regular ps i part : flow_ok (part_regular ps i part).
Proof. unfold part_regular. flow. Qed.

#[local] Hint Resolve flow_ok_line_if_then flow_ok_line_branches
  flow_ok_line_step flow_ok_part_if_then flow_ok_part_regular
  flow_ok_for_each : flow.

Lemma flow_ok_skip : flow_ok (skip : State fc_state unit).
Proof. flow. Qed.
#[local] Hint Resolve flow_ok_skip : flow.

Lemma flow_ok_arrow_part ps i part0 : flow_ok (arrow_part ps i part0).
Proof.
  unfold arrow_part. destruct (negb _); [auto with flow|].
  destruct (re_match _ _ _); [auto with flow|].
  destruct (_ || _); [|auto with flow].
  pose proof (flow_ok_part_branch (strip part0) (re_search true RE_YES_PATH (strip part0))
                _ edge_kind_yes).
  pose proof (flow_ok_part_branch (strip part0) (re_search true RE_NO_PATH (strip part0))
                _ edge_kind_no).
  flow.
Qed.
#[local] Hint Resolve flow_ok_arrow_part : flow.

Lemma flow_ok_parse_line line : flow_ok (parse_line line).
Proof.
  unfold parse_line. destruct (re_match _ _ _); [auto with flow|].
  destruct (_ && _); [auto with flow|]. destruct (_ && _); auto with flow.
Qed.

Lemma head_filter_elem {A} (P : A -> Prop) `{!forall x, Decision (P x)} (l : list A) x :
  head (filter P l) = Some x -> x ∈ l /\ P x.
Proof.
  intros Hx. assert (Hin : x ∈ filter P l).
  { destruct (filter P l) as [|y ys]; [done|]. injection Hx as ->. by left. }
  apply list_elem_of_filter in Hin. tauto.
Qed.

Lemma flow_ok_connect_branches decision : flow_ok (connect_branches decision).
Proof.
  unfold connect_branches. intros st Hwf. repeat flow_step.
  destruct (head _) as [yes_edge|] eqn:Hyes; [|flow_step; flow_step].
  destruct (head (filter (fun e => labelled (py "No") e = true) _)) as [no_edge|] eqn:Hno;
    [|flow_step; flow_step].
  apply head_filter_elem in Hyes as [[_ Hyes]%list_elem_of_filter _].
  apply head_filter_elem in Hno as [[_ Hno]%list_elem_of_filter _].
  pose proof (flow_targets _ Hwf) as Ht. rewrite Forall_forall in Ht.
  apply Ht in Hyes, Hno.
  flow_step.
  destruct (head _) as [end_node|] eqn:Hend.
  - apply head_filter_elem in Hend as [Hend _].
    assert (is_id st (n_id end_node)) by by exists end_node.
    repeat flow_step.
    + destruct (list_find _ _) as [[i ?]|]; repeat flow_step.
      destruct (node_map _ !! _) eqn:Hnext; repeat flow_step.
    + destruct (list_find _ _) as [[i ?]|]; repeat flow_step.
      destruct (node_map _ !! _) eqn:Hnext; repeat flow_step.
  - repeat flow_step.
    destruct (list_find _ _) as [[i ?]|]; repeat flow_step.
    destruct (node_map _ !! _) eqn:Hnext; repeat flow_step.
Qed.

Lemma flow_ok_connect_sequential i : flow_ok (connect_sequential i).
Proof.
  unfold connect_sequential. intros st Hwf. repeat flow_step.
  destruct (node_map st !! _) as [from_id|]; [|repeat flow_step].
  destruct (node_map st !! _) as [to_id|] eqn:Hto; [|repeat flow_step].
  destruct (_ || _); repeat flow_step.
Qed.

#[local] Hint Resolve flow_ok_connect_branches flow_ok_connect_sequential
  flow_ok_parse_line : flow.

Lemma flow_ok_connect : flow_ok connect.
Proof. unfold connect. flow. Qed.

Lemma flow_wf_initial : flow_wf fc_initial.
Proof.
  split; cbn; try done.
  - apply NoDup_nil_2.
  - intros l x. rewrite lookup_empty. split; [done|]. by intros (n & ?%elem_of_nil & _).
Qed.

Lemma parse_flowchart_final text :
  exists st, flow_wf st /\ parse_flowchart text = (nodes st, edges st).
Proof.
  unfold parse_flowchart.
  assert (Hok : flow_ok (for_each (nonblank_lines text) parse_line;; connect)).
  { pose proof flow_ok_connect. flow. }
  destruct (Hok fc_initial flow_wf_initial) as [Hwf _]. unfold post in Hwf.
  destruct ((for_each _ _ ;; connect) fc_initial) as [[] st]. by exists st.
Qed.

End FlowchartInvariant.

(** ** The layout: what the traversal keeps, and what it can raise *)

Section LayoutInvariant.
Context `{UnicodeData}.

Lemma node_table_snoc nodes n :
  node_table (nodes ++ [n]) = <[n_id n := n]> (node_table nodes).
Proof. unfold node_table. by rewrite fold_left_app. Qed.

Lemma node_table_lookup nodes k n :
  node_table nodes !! k = Some n -> n ∈ nodes /\ n_id n = k.
Proof.
  induction nodes as [|m nodes IH] using rev_ind.
  { unfold node_table. cbn [fold_left]. by rewrite lookup_empty. }
  rewrite node_table_snoc. destruct (decide (n_id m = k)) as [<-|Hne].
  - rewrite lookup_insert_eq. intros [= <-]. split; [|done]. apply elem_of_app. right. by left.
  - rewrite lookup_insert_ne by done. intros [? ?]%IH. split; [|done].
    apply elem_of_app. by left.
Qed.

Lemma node_table_some nodes n : n ∈ nodes -> is_Some (node_table nodes !! n_id n).
Proof.
  induction nodes as [|m nodes IH] using rev_ind; [by intros ?%elem_of_nil|].
  rewrite node_table_snoc. intros Hn. destruct (decide (n_id m = n_id n)) as [Heq|Hne].
  - rewrite Heq, lookup_insert_eq. by eexists.
  - rewrite lookup_insert_ne by done. apply IH.
    apply elem_of_app in Hn as [Hn| ->%list_elem_of_singleton]; done.
Qed.

Lemma adjacency_children edges i c :
  c ∈ default [] (adjacency edges !! i) ->
  exists e, e ∈ edges /\ from_node e = i /\ to_node e = child_to c.
Proof.
  induction edges as [|e edges IH] using rev_ind.
  - unfold adjacency. cbn [fold_left]. rewrite lookup_empty. by intros ?%elem_of_nil.
  - rewrite adjacency_snoc. destruct (decide (from_node e = i)) as [<-|Hne].
    + rewrite lookup_insert_eq. cbn [default from_option id].
      intros [Hc| ->%list_elem_of_singleton]%elem_of_app.
      * destruct (IH Hc) as (e' & ? & ? & ?). exists e'. split; [|done].
        apply elem_of_app. by left.
      * exists e. split; [|done]. apply elem_of_app. right. by left.
    + rewrite lookup_insert_ne by done. intros Hc.
      destruct (IH Hc) as (e' & ? & ? & ?). exists e'. split; [|done].
      apply elem_of_app. by left.
Qed.

Lemma elem_of_enumerate {A} (xs : list A) i x : (i, x) ∈ enumerate xs -> x ∈ xs.
Proof.
  unfold enumerate. intros Hin. apply list_elem_of_lookup in Hin as [j Hj].
  apply lookup_zip_with_Some in Hj as (a & b & [= -> ->] & _ & Hb).
  by eapply list_elem_of_lookup_2.
Qed.

Lemma successors_spec node children current q :
  q ∈ successors node children current ->
  (exists c, c ∈ children /\ q_id q = child_to c) /\ q_row q = (q_row current + 1)%Z.
Proof.
  unfold successors. destruct (_ && _).
  - destruct (head (filter (fun c => answers (py "yes") c = true) children))
      as [y|] eqn:Hy.
    + destruct (head (filter (fun c => answers (py "no") c = true) children))
        as [n|] eqn:Hn.
      * apply head_filter_elem in Hy as [Hy _]. apply head_filter_elem in Hn as [Hn _].
        intros [->|[->|[]%elem_of_nil]%elem_of_cons]%elem_of_cons.
        -- split; [by exists y | done].
        -- split; [by exists n | done].
      * intros ([i c] & -> & Hc%elem_of_enumerate)%list_elem_of_fmap.
        split; [by exists c | done].
    + intros ([i c] & -> & Hc%elem_of_enumerate)%list_elem_of_fmap.
      split; [by exists c | done].
  - intros (c & -> & Hc)%list_elem_of_fmap. split; [by exists c | done].
Qed.

(** One round of the loop keeps the invariant, and a successful traversal
    ends in a state that satisfies it and has kept every cell. *)
Lemma traverse_ok nodes adj_list fuel st st' :
  bfs_ok nodes st ->
  traverse fuel (node_table nodes) adj_list st = Some (Ok st') ->
  bfs_ok nodes st'
  /\ (forall k c, layout st !! k = Some c -> layout st' !! k = Some c)
  /\ (forall q, head (queue st) = Some q -> q_id q ∉ visited st ->
                exists c, layout st' !! q_id q = Some c
                          /\ col c = q_col q /\ row c = q_row q).
Proof.
  revert st. induction fuel as [|fuel IH]; intros st Hok; [done|].
  cbn [traverse]. destruct (queue st) as [|current rest] eqn:Hq.
  { intros [= <-]. done. }
  destruct Hok as [Hcells Hrows Hseen Hmax].
  assert (Hcur : (0 <= q_row current)%Z) by (apply Hrows; rewrite Hq; by left).
  case_bool_decide as Hvis.
  - intros Htr. apply IH in Htr as (Hok' & Hkeep & _).
    + split; [done|]. split; [done|]. by intros q [= <-] ?.
    + split; cbn [queue visited layout max_row]; try done.
      intros q Hin. apply Hrows. rewrite Hq. by right.
  - destruct (node_table nodes !! q_id current) as [node|] eqn:Hnode; [|done].
    apply node_table_lookup in Hnode as [Hnode Hid].
    assert (Hfresh : layout st !! q_id current = None).
    { apply eq_None_not_Some. by rewrite <- Hseen. }
    intros Htr. apply IH in Htr as (Hok' & Hkeep & _).
    + split; [done|]. split.
      * intros k c Hk. apply Hkeep.
        cbn [layout]. rewrite lookup_insert_ne; [done|]. intros <-. congruence.
      * intros q [= <-] _. eexists. split; [apply Hkeep; cbn [layout]; apply lookup_insert_eq|].
        done.
    + split; cbn [queue visited layout max_row].
      * intros k c. destruct (decide (q_id current = k)) as [<-|Hne].
        -- rewrite lookup_insert_eq. intros [= <-]. cbn [row cell_node]. unfold cell_ok.
           cbn [row cell_node]. repeat split; try done; lia.
        -- rewrite lookup_insert_ne by done. intros [? ?]%Hcells. split; [done|lia].
      * intros q [Hin|Hin]%elem_of_app.
        -- apply Hrows. rewrite Hq. by right.
        -- apply successors_spec in Hin as [_ ->]. lia.
      * intros k. rewrite elem_of_union, elem_of_singleton, Hseen.
        destruct (decide (q_id current = k)) as [<-|Hne].
        -- rewrite lookup_insert_eq. split; [by eexists | by left].
        -- rewrite lookup_insert_ne by done. split; [by intros [?|?] | by right].
      * lia.
Qed.

(** When every edge ends at a node, the loop looks up nodes only. *)
Lemma traverse_no_raise nodes edges fuel st e :
  targets_closed nodes edges ->
  (forall q, q ∈ queue st -> is_Some (node_table nodes !! q_id q)) ->
  traverse fuel (node_table nodes) (adjacency edges) st <> Some (Raise e).
Proof.
  intros Hclosed. revert st. induction fuel as [|fuel IH]; intros st Hq; [done|].
  cbn [traverse]. destruct (queue st) as [|current rest] eqn:Hqueue; [done|].
  case_bool_decide.
  - apply IH. cbn [queue]. intros q Hin. apply Hq. by right.
  - destruct (Hq current) as [node Hnode]; [by left|]. rewrite Hnode.
    apply IH. cbn [queue]. intros q [Hin|Hin]%elem_of_app.
    + apply Hq. by right.
    + apply successors_spec in Hin as [(c & Hc & ->) _].
      apply adjacency_children in Hc as (e' & He' & _ & <-).
      destruct (Hclosed e' He') as (n & Hn & <-). by apply node_table_some.
Qed.

Lemma traverse_raises_key_error node_map adj_list fuel st e :
  traverse fuel node_map adj_list st = Some (Raise e) -> e = KeyError.
Proof.
  revert st. induction fuel as [|fuel IH]; intros st; [done|].
  cbn [traverse]. destruct (queue st) as [|current rest]; [done|].
  case_bool_decide; [apply IH|].
  destruct (node_map !! q_id current); [apply IH | by intros [= <-]].
Qed.

(** The loop over the nodes that the traversal has not reached gives every
    node a cell and keeps the cells there are. *)
Lemma place_orphans_spec (all nodes : list Node) layout max_row :
  (forall n, n ∈ nodes -> n ∈ all) ->
  (forall k c, layout !! k = Some c -> cell_ok all k c) ->
  (0 <= max_row)%Z ->
  (forall k c, (place_orphans nodes layout max_row).1 !! k = Some c -> cell_ok all k c)
  /\ (forall k c, layout !! k = Some c ->
                  (place_orphans nodes layout max_row).1 !! k = Some c)
  /\ (forall n, n ∈ nodes -> is_Some ((place_orphans nodes layout max_row).1 !! n_id n)).
Proof.
  unfold place_orphans. revert layout max_row.
  induction nodes as [|node nodes IH]; intros layout max_row Hall Hcells Hmax.
  { cbn [fold_left fst]. split; [done|]. split; [done|]. by intros n ?%elem_of_nil. }
  cbn [fold_left fst snd].
  assert (Hall' : forall n, n ∈ nodes -> n ∈ all) by (intros n ?; apply Hall; by right).
  destruct (layout !! n_id node) as [c0|] eqn:Hnode.
  - destruct (IH layout max_row Hall' Hcells Hmax) as (H1 & H2 & H3).
    split; [done|]. split; [done|].
    intros n [->|Hn]%elem_of_cons; [|by apply H3]. exists c0. by apply H2.
  - destruct (IH (<[n_id node := mkCell 0 (max_row + 1) node]> layout) (max_row + 1)%Z)
      as (H1 & H2 & H3); [done| |lia|].
    { intros k c. destruct (decide (n_id node = k)) as [<-|Hne].
      - rewrite lookup_insert_eq. intros [= <-]. unfold cell_ok. cbn [cell_node row].
        split; [apply Hall; by left|]. split; [done|lia].
      - rewrite lookup_insert_ne by done. apply Hcells. }
    split; [done|]. split.
    + intros k c Hk. apply H2. rewrite lookup_insert_ne; [done|]. intros <-. congruence.
    + intros n [->|Hn]%elem_of_cons; [|by apply H3].
      eexists. apply H2. by rewrite lookup_insert_eq.
Qed.

Lemma fold_min_spec (xs : list Z) (a : Z) :
  (fold_left Z.min xs a = a \/ fold_left Z.min xs a ∈ xs)
  /\ (fold_left Z.min xs a <= a)%Z
  /\ forall x, x ∈ xs -> (fold_left Z.min xs a <= x)%Z.
Proof.
  revert a. induction xs as [|y xs IH]; intros a; cbn [fold_left].
  { split; [by left|]. split; [lia|]. by intros x ?%elem_of_nil. }
  destruct (IH (Z.min a y)) as (Hin & Hle & Hall). split; [|split].
  - destruct Hin as [Heq|Hin]; [|right; by right].
    rewrite Heq. destruct (Z.min_spec a y) as [[_ ->]|[_ ->]]; [by left | right; by left].
  - lia.
  - intros x [->|Hx]%elem_of_cons; [lia | by apply Hall].
Qed.

Lemma min_of_spec (xs : list Z) (m : Z) :
  min_of xs = Ok m -> m ∈ xs /\ forall x, x ∈ xs -> (m <= x)%Z.
Proof.
  destruct xs as [|a xs]; [done|]. cbn [min_of]. intros [= <-].
  destruct (fold_min_spec xs a) as (Hin & Hle & Hall). split.
  - destruct Hin as [->|Hin]; [by left | by right].
  - intros x [->|Hx]%elem_of_cons; [done | by apply Hall].
Qed.

Lemma min_of_total (xs : list Z) : xs <> [] -> exists m, min_of xs = Ok m.
Proof. destruct xs; [done|]. by eexists. Qed.

Lemma max_of_total (xs : list Z) : xs <> [] -> exists m, max_of xs = Ok m.
Proof. destruct xs; [done|]. by eexists. Qed.

(** The values of a map, read through a projection. *)
Lemma elem_of_cells {A} (f : cell -> A) (layout : gmap (list N) cell) (x : A) :
  x ∈ f <$> (map_to_list layout).*2 <-> exists k c, layout !! k = Some c /\ f c = x.
Proof.
  rewrite list_elem_of_fmap. split.
  - intros (c & -> & ([k c'] & -> & Hkc)%list_elem_of_fmap).
    apply elem_of_map_to_list in Hkc. by exists k, c'.
  - intros (k & c & Hk & <-). exists c. split; [done|].
    apply list_elem_of_fmap. exists (k, c). split; [done|]. by apply elem_of_map_to_list.
Qed.

Lemma cells_nonempty {A} (f : cell -> A) (layout : gmap (list N) cell) k c :
  layout !! k = Some c -> f <$> (map_to_list layout).*2 <> [].
Proof.
  intros Hk Hnil. assert (Hin : f c ∈ f <$> (map_to_list layout).*2)
    by (apply elem_of_cells; by exists k, c).
  rewrite Hnil in Hin. by apply elem_of_nil in Hin.
Qed.

(** The first node that no edge ends at, or else the first node. *)
Lemma start_node_elem (nodes : list Node) (first : Node) (P : Node -> Prop)
    `{!forall n, Decision (P n)} :
  first ∈ nodes -> default first (head (filter P nodes)) ∈ nodes.
Proof.
  intros Hfirst. destruct (head (filter P nodes)) as [n|] eqn:Hn; [|done].
  by apply head_filter_elem in Hn as [Hn _].
Qed.

(** What [_calculate_flowchart_layout] returns, when it returns. *)
Lemma layout_spec nodes edges lay :
  _calculate_flowchart_layout nodes edges = Ok lay ->
  (forall n, n ∈ nodes -> is_Some (lay !! n_id n))
  /\ (forall k c, lay !! k = Some c -> cell_ok nodes k c /\ (0 <= col c)%Z)
  /\ (exists k c, lay !! k = Some c /\ col c = 0%Z)
  /\ (forall s, start_node nodes edges = Some s ->
                 exists c, lay !! n_id s = Some c /\ row c = 0%Z).
Proof.
  unfold _calculate_flowchart_layout, start_node.
  destruct nodes as [|first rest] eqn:Hnodes; [done|].
  rewrite <- Hnodes. fold (node_table nodes).
  set (start := default first _).
  destruct (traverse _ _ _ _) as [[st|e]|] eqn:Htr; [|done..].
  cbn [default from_option id mbind result_bind].
  apply traverse_ok in Htr as (Hok & _ & Hstart).
  2:{ split; cbn [queue visited layout max_row]; try done.
      - intros q [->|[]%elem_of_nil]%elem_of_cons. done.
      - intros k. rewrite lookup_empty. split; [by intros ?%elem_of_empty | by intros [? ?]]. }
  destruct (place_orphans_spec nodes nodes (layout st) (max_row st)) as (Hcells & Hkept & Hall);
    [done | intros k c Hk; by apply (bfs_cells _ _ Hok) | apply (bfs_max _ _ Hok) |].
  set (placed := (place_orphans nodes (layout st) (max_row st)).1) in *.
  destruct (min_of _) as [min_col|e] eqn:Hmin; [|done].
  cbn [mbind result_bind]. intros [= <-].
  apply min_of_spec in Hmin as [Hmin_in Hmin_le].
  apply elem_of_cells in Hmin_in as (kmin & cmin & Hkmin & Hcmin).
  assert (Hle : forall k c, placed !! k = Some c -> (min_col <= col c)%Z).
  { intros k c Hk. apply Hmin_le. apply elem_of_cells. by exists k, c. }
  destruct (Hstart (mkQueued (n_id start) 0 0)) as (c0 & Hc0 & Hcol0 & Hrow0);
    [done | by intros ?%elem_of_empty |].
  cbn [q_id q_col q_row] in *. apply Hkept in Hc0.
  destruct (Z.ltb_spec min_col 0) as [Hneg|Hpos].
  - split; [|split; [|split]].
    + intros n Hn. rewrite lookup_fmap. destruct (Hall n Hn) as [c ->]. by eexists.
    + intros k c. rewrite lookup_fmap.
      destruct (placed !! k) as [c'|] eqn:Hk; [|done]. intros [= <-].
      cbn [col]. split; [apply (Hcells k c' Hk) | specialize (Hle k c' Hk); lia].
    + exists kmin. eexists. rewrite lookup_fmap, Hkmin. split; [done|]. cbn [col]. lia.
    + intros s [= <-]. eexists. rewrite lookup_fmap, Hc0. split; [done|]. done.
  - split; [done|]. split; [|split].
    + intros k c Hk. split; [by apply Hcells | specialize (Hle k c Hk); lia].
    + by exists (n_id start), c0.
    + intros s [= <-]. by exists c0.
Qed.

(** For a list of nodes that is not empty, the layout is computed unless
    the traversal looks up an edge's end that is no node. *)
Lemma layout_cases nodes edges :
  nodes <> [] ->
  (exists lay, _calculate_flowchart_layout nodes edges = Ok lay)
  \/ (_calculate_flowchart_layout nodes edges = Raise KeyError
      /\ ~ targets_closed nodes edges).
Proof.
  intros Hne. unfold _calculate_flowchart_layout.
  destruct nodes as [|first rest] eqn:Hnodes; [done|]. rewrite <- Hnodes.
  fold (node_table nodes). set (start := default first _).
  assert (Hstart : start ∈ nodes).
  { apply start_node_elem. rewrite Hnodes. by left. }
  destruct (traverse_finishes (node_table nodes) edges (n_id start)) as [r Hr].
  rewrite Hr. cbn [default from_option id]. destruct r as [st|e].
  - left. cbn [mbind result_bind].
    apply traverse_ok in Hr as (Hok & _ & _).
    2:{ split; cbn [queue visited layout max_row]; try done.
        - intros q [->|[]%elem_of_nil]%elem_of_cons. done.
        - intros k. rewrite lookup_empty.
          split; [by intros ?%elem_of_empty | by intros [? ?]]. }
    destruct (place_orphans_spec nodes nodes (layout st) (max_row st)) as (_ & _ & Hall);
      [done | intros k c Hk; by apply (bfs_cells _ _ Hok) | apply (bfs_max _ _ Hok) |].
    destruct (Hall start Hstart) as [c Hc].
    destruct (min_of_total _ (cells_nonempty col _ _ _ Hc)) as [m ->].
    cbn [mbind result_bind]. by eexists.
  - right. pose proof (traverse_raises_key_error _ _ _ _ _ Hr) as ->.
    split; [done|]. intros Hclosed.
    eapply (traverse_no_raise nodes edges); [done| |exact Hr].
    cbn [queue]. intros q [->|[]%elem_of_nil]%elem_of_cons. cbn [q_id].
    by apply node_table_some.
Qed.

End LayoutInvariant.

Section FlowchartRendering.
Context `{UnicodeData} `{FloatLib}.

Lemma generate_flowchart_svg_total nodes edges :
  targets_closed nodes edges ->
  exists svg, generate_flowchart_svg (nodes, edges) = Ok svg.
Proof.
  intros Hclosed. unfold generate_flowchart_svg. cbn [fst snd].
  case_bool_decide as Hne; [by eexists|].
  destruct (layout_cases nodes edges Hne) as [[lay Hlay]|[_ []]]; [|done].
  rewrite Hlay. cbn [mbind result_bind].
  destruct (layout_spec _ _ _ Hlay) as (_ & _ & (k & c & Hk & _) & _).
  destruct (max_of_total _ (cells_nonempty col _ _ _ Hk)) as [mc ->].
  destruct (max_of_total _ (cells_nonempty row _ _ _ Hk)) as [mr ->].
  cbn [mbind result_bind]. by eexists.
Qed.

End FlowchartRendering.

(** ** The matcher hands on matches only *)

Section MatcherSoundness.
Context `{UnicodeData}.

Lemma rep_sound ok greedy lo hi pre rest k res :
  rep ok greedy lo hi pre rest k = Some res ->
  exists w rest',
    rest = w ++ rest'
    /\ Forall (fun c => ok c = true) w
    /\ (lo <= length w)%nat
    /\ (forall h, hi = Some h -> (length w <= h)%nat)
    /\ k (reverse w ++ pre) rest' = Some res.
Proof.
  revert lo hi pre res. induction rest as [|c rest IH]; intros lo hi pre res.
  - destruct lo as [|lo]; cbn [rep].
    + assert (Hagain : match hi with Some O => None | _ => None end
                       = (None : option (nat * list (nat * (nat * nat)))))
        by (by destruct hi as [[|?]|]).
      destruct greedy.
      * destruct hi as [[|h]|]; intros Hk; exists [], []; repeat split;
          try done; try (cbn; lia); intros ? [= <-]; cbn; lia.
      * destruct (k pre []) eqn:Hk'.
        -- intros [= <-]. exists [], []. repeat split; try done.
           intros ? _. cbn. lia.
        -- by destruct hi as [[|h]|].
    + by destruct hi as [[|h]|].
  - assert (Hstop : forall res',
              k pre (c :: rest) = Some res' ->
              exists w rest',
                c :: rest = w ++ rest' /\ Forall (fun c => ok c = true) w
                /\ (0 <= length w)%nat /\ (forall h, hi = Some h -> (length w <= h)%nat)
                /\ k (reverse w ++ pre) rest' = Some res').
    { intros res' Hk. exists [], (c :: rest). repeat split; try done.
      intros ? _. cbn. lia. }
    assert (Hagain : forall res',
              match hi with
              | Some O => None
              | _ => if ok c then rep ok greedy (pred lo) (pred <$> hi) (c :: pre) rest k
                     else None
              end = Some res' ->
              exists w rest',
                c :: rest = w ++ rest' /\ Forall (fun c => ok c = true) w
                /\ (lo <= length w)%nat /\ (forall h, hi = Some h -> (length w <= h)%nat)
                /\ k (reverse w ++ pre) rest' = Some res').
    { intros res' Hrep.
      assert (Hhi : hi <> Some O) by (intros ->; done).
      assert (Hrep' : (if ok c then rep ok greedy (pred lo) (pred <$> hi) (c :: pre) rest k
                       else None) = Some res')
        by (destruct hi as [[|h]|]; done).
      destruct (ok c) eqn:Hc; [|done].
      apply IH in Hrep' as (w & rest' & -> & Hw & Hlo & Hh & Hk).
      exists (c :: w), rest'. split; [done|]. split; [by constructor|].
      split; [cbn [length]; lia|]. split.
      - intros h ->. cbn [length]. destruct h as [|h]; [done|].
        specialize (Hh h eq_refl). lia.
      - rewrite reverse_cons, <- app_assoc. done. }
    destruct lo as [|lo]; cbn [rep].
    + destruct greedy.
      * destruct (match hi with Some O => None | _ => _ end) as [r1|] eqn:Hr1.
        -- intros [= <-]. by apply Hagain.
        -- intros Hk. by apply Hstop.
      * destruct (k pre (c :: rest)) as [r1|] eqn:Hr1.
        -- intros [= <-]. by apply Hstop.
        -- intros Hk. by apply Hagain.
    + apply Hagain.
Qed.

(** The matcher is sound: what reaches the continuation is a match. *)
Lemma rx_sound ci r pre rest cs k res :
  rx ci r pre rest cs k = Some res ->
  exists w rest' cs',
    rest = w ++ rest'
    /\ matches ci r pre w rest' cs cs'
    /\ k (reverse w ++ pre) rest' cs' = Some res.
Proof.
  revert pre rest cs k res.
  induction r as [|a|a lo hi greedy|r1 IH1 r2 IH2|r1 IH1 r2 IH2|n r1 IH1|r1 IH1| | | |r1 IH1];
    intros pre rest cs k res; cbn [rx matches].
  - intros Hk. by exists [], rest, cs.
  - destruct rest as [|c rest]; [done|]. destruct (atom_ok ci a c) eqn:Hc; [|done].
    intros Hk. exists [c], rest, cs. split; [done|]. split; [|done].
    split; [|done]. by exists c.
  - intros (w & rest' & -> & Hw & Hlo & Hhi & Hk)%rep_sound.
    by exists w, rest', cs.
  - intros (w1 & rest1 & cs1 & -> & Hm1 & Hk)%IH1.
    apply IH2 in Hk as (w2 & rest2 & cs2 & -> & Hm2 & Hk).
    exists (w1 ++ w2), rest2, cs2. split; [by rewrite app_assoc|]. split.
    + by exists w1, w2, cs1.
    + by rewrite reverse_app, <- app_assoc.
  - destruct (rx ci r1 pre rest cs k) as [res1|] eqn:Hr1.
    + intros [= <-]. apply IH1 in Hr1 as (w & rest' & cs' & -> & Hm & Hk).
      exists w, rest', cs'. auto.
    + intros (w & rest' & cs' & -> & Hm & Hk)%IH2. exists w, rest', cs'. auto.
  - intros (w & rest' & cs' & -> & Hm & Hk)%IH1.
    rewrite length_app, length_reverse in Hk.
    exists w, rest', ((n, (length pre, length pre + length w)%nat) :: cs').
    split; [done|]. split; [by exists cs'|].
    by rewrite Nat.add_comm.
  - destruct (rx ci r1 pre rest cs k) as [res1|] eqn:Hr1.
    + intros [= <-]. apply IH1 in Hr1 as (w & rest' & cs' & -> & Hm & Hk).
      exists w, rest', cs'. auto.
    + intros Hk. exists [], rest, cs. auto.
  - destruct pre; [|done]. intros Hk. by exists [], rest, cs.
  - destruct (at_end rest) eqn:Hend; [|done]. intros Hk. by exists [], rest, cs.
  - destruct (xorb _ _) eqn:Hw; [|done]. intros Hk. by exists [], rest, cs.
  - destruct (rx ci r1 pre rest cs _) as [[e cs1]|] eqn:Hr1; [|done].
    apply IH1 in Hr1 as (w1 & rest1 & cs1' & -> & Hm & [= _ <-]).
    intros Hk. exists [], (w1 ++ rest1), cs1'. split; [done|]. split; [|done].
    split; [done|]. by exists w1, rest1.
Qed.

(** A pattern that demands a character finds it in the word it matches. *)
Lemma demands_sound ci (P : N -> Prop) r pre w rest cs cs' :
  demands ci P r -> matches ci r pre w rest cs cs' -> Exists P w.
Proof.
  revert pre w rest cs cs'.
  induction r as [|a|a lo hi greedy|r1 IH1 r2 IH2|r1 IH1 r2 IH2|n r1 IH1|r1 IH1| | | |r1 IH1];
    intros pre w rest cs cs'; cbn [demands matches]; try done.
  - intros Ha [(c & -> & Hc) _]. apply Exists_cons_hd. by apply Ha.
  - intros [Hlo Ha] (Hw & Hlen & _). destruct w as [|c w]; [cbn in Hlen; lia|].
    apply Exists_cons_hd. apply Ha. by inversion Hw.
  - intros [Hd|Hd] (w1 & w2 & cs1 & -> & Hm1 & Hm2); apply Exists_app;
      [left; by eapply IH1 | right; by eapply IH2].
  - intros [Hd1 Hd2] [Hm|Hm]; [by eapply IH1 | by eapply IH2].
  - intros Hd (cs1 & Hm & _). by eapply IH1.
Qed.

(** One attempt of the matcher, as a match. *)
Lemma match_here_sound ci r pre rest m :
  match_here ci r pre rest = Some m ->
  exists w rest',
    rest = w ++ rest'
    /\ matches ci r pre w rest' [] (m_caps m)
    /\ m_start m = length pre
    /\ m_end m = (length pre + length w)%nat.
Proof.
  unfold match_here. destruct (rx _ _ _ _ _ _) as [[e cs]|] eqn:Hrx; [|done].
  intros [= <-]. apply rx_sound in Hrx as (w & rest' & cs' & -> & Hm & [= <- <-]).
  exists w, rest'. cbn [m_start m_end m_caps]. repeat split; try done.
  rewrite length_app, length_reverse. lia.
Qed.

(** A text without the character that a pattern demands has no match of
    it, at any position. *)
Lemma match_here_demands ci (P : N -> Prop) r pre rest :
  demands ci P r -> Forall (fun c => ~ P c) rest -> match_here ci r pre rest = None.
Proof.
  intros Hd Hrest. destruct (match_here ci r pre rest) as [m|] eqn:Hm; [|done].
  apply match_here_sound in Hm as (w & rest' & -> & Hm & _).
  apply (demands_sound _ P) in Hm; [|done].
  apply Forall_app in Hrest as [Hw _]. apply Exists_exists in Hm as (c & Hc & HP).
  rewrite Forall_forall in Hw. by destruct (Hw c Hc).
Qed.

Lemma search_from_demands ci (P : N -> Prop) r pre rest :
  demands ci P r -> Forall (fun c => ~ P c) rest -> search_from ci r pre rest = None.
Proof.
  intros Hd. revert pre. induction rest as [|c rest IH]; intros pre Hrest; cbn [search_from].
  - by rewrite (match_here_demands ci P).
  - rewrite (match_here_demands ci P) by done. apply IH. by inversion Hrest.
Qed.

Lemma finditer_from_demands ci (P : N -> Prop) r skip pre rest :
  demands ci P r -> Forall (fun c => ~ P c) rest -> finditer_from ci r skip pre rest = [].
Proof.
  intros Hd. revert skip pre.
  induction rest as [|c rest IH]; intros skip pre Hrest; cbn [finditer_from].
  - destruct skip; [by rewrite (match_here_demands ci P)|done].
  - assert (Hnone : match skip with O => match_here ci r pre (c :: rest) | S _ => None end
                    = None)
      by (destruct skip; [by rewrite (match_here_demands ci P)|done]).
    rewrite Hnone. apply IH. by inversion Hrest.
Qed.

(** Without a match, [re.search] finds nothing, [re.findall] is empty and
    [re.sub] and [re.split] leave the text as it is. *)
Lemma re_search_demands ci (P : N -> Prop) r s :
  demands ci P r -> Forall (fun c => ~ P c) s -> re_search ci r s = None.
Proof. apply search_from_demands. Qed.

Lemma re_finditer_demands ci (P : N -> Prop) r s :
  demands ci P r -> Forall (fun c => ~ P c) s -> re_finditer ci r s = [].
Proof. apply finditer_from_demands. Qed.

Lemma re_sub_demands ci (P : N -> Prop) r repl s :
  demands ci P r -> Forall (fun c => ~ P c) s -> re_sub ci r repl s = s.
Proof.
  intros Hd Hs. unfold re_sub. by rewrite (re_finditer_demands ci P).
Qed.

Lemma re_split_demands ci (P : N -> Prop) r s :
  demands ci P r -> Forall (fun c => ~ P c) s -> re_split ci r s = [s].
Proof.
  intros Hd Hs. unfold re_split. by rewrite (re_finditer_demands ci P).
Qed.

End MatcherSoundness.

(** ** Characters that the patterns of the classifier and of the redaction demand *)

Section SignalCharacters.
Context `{UnicodeData}.

Lemma demands_cat ci (P : N -> Prop) rs :
  Exists (demands ci P) rs -> demands ci P (cat rs).
Proof.
  induction 1 as [r rs Hr|r rs _ IH]; cbn [cat foldr demands]; [by left | by right].
Qed.

Lemma demands_lit ci (P : N -> Prop) (s : string) c0 :
  c0 ∈ py s -> (forall c, atom_ok ci (Lit c0) c = true -> P c) -> demands ci P (lit s).
Proof.
  intros Hin Hc0. unfold lit. apply demands_cat. apply Exists_exists.
  exists (One (Lit c0)). split; [|done].
  apply list_elem_of_In, in_map_iff. exists c0. split; [done|]. by apply list_elem_of_In.
Qed.

Lemma demands_alts ci (P : N -> Prop) rs :
  rs <> [] -> Forall (demands ci P) rs -> demands ci P (alts rs).
Proof.
  destruct rs as [|r rs]; [done|]. intros _ Hall. cbn [alts].
  apply Forall_cons in Hall as [Hr Hrs]. revert r Hr.
  induction Hrs as [|r' rs Hr' _ IH]; intros r Hr; cbn [fold_left]; [done|].
  apply IH. by split.
Qed.

Lemma key_value_demands_digit : demands false (fun c => isdecimal c = true) RE_KEY_VALUE.
Proof.
  unfold RE_KEY_VALUE. apply demands_cat. do 2 apply Exists_cons_tl. apply Exists_cons_hd.
  split; [done|]. intros c. cbn. by rewrite !orb_false_r.
Qed.

Lemma key_value_demands_sign : demands false (fun c => c = 58 \/ c = 61) RE_KEY_VALUE.
Proof.
  unfold RE_KEY_VALUE. apply demands_cat. apply Exists_cons_hd.
  intros c. change (one_of ":=") with [CChar 58; CChar 61]. cbn.
  destruct (N.eqb_spec c 58); [by left|]. destruct (N.eqb_spec c 61); [by right|]. done.
Qed.

(** A text without a character that the key-value pattern demands is no
    chart for the classifier. *)
Lemma no_key_value_no_chart (P : N -> Prop) (text : list N) :
  demands false P RE_KEY_VALUE -> Forall (fun c => ~ P c) text ->
  detect_visual_type text (py "auto") <> Ok CHART.
Proof.
  intros Hd Htext. unfold detect_visual_type.
  replace (str_eqb (py "auto") (py "auto")) with true by reflexivity.
  cbn [negb]. unfold found.
  rewrite (re_search_demands false P), (re_finditer_demands false P) by done.
  rewrite (bool_decide_eq_false_2 (is_Some None)) by (by intros [? ?]).
  rewrite (bool_decide_eq_false_2 (3 <= _)%nat) by (cbn [length]; lia).
  cbn [andb orb]. by destruct (_ || _).
Qed.

Lemma not_Forall_Exists (P : N -> Prop) `{!forall c, Decision (P c)} (s : list N) :
  ~ Forall (fun c => ~ P c) s -> exists c, c ∈ s /\ P c.
Proof.
  intros Hs. apply not_Forall_Exists in Hs; [|apply _].
  apply Exists_exists in Hs as (c & Hc & HP). exists c. split; [done|].
  by apply dec_stable.
Qed.

(** X2. Without a hint, a text that the classifier takes for a chart holds
    a decimal digit and a colon or an equals sign: both chart rules rest on
    the pattern [[:=]\s*\d+]. *)
Theorem chart_needs_number (text : list N) :
  detect_visual_type text (py "auto") = Ok CHART ->
  (exists c, c ∈ text /\ isdecimal c = true)
  /\ (exists c, c ∈ text /\ (c = 58 \/ c = 61)).
Proof.
  intros Hchart. split; apply not_Forall_Exists; try apply _; intros Hnone;
    eapply no_key_value_no_chart; try exact Hchart; try exact Hnone.
  - apply key_value_demands_digit.
  - apply key_value_demands_sign.
Qed.

(** X3. Without a hint, a text with a question mark and without a decimal
    digit is a flowchart: no chart rule applies and the question mark is a
    flowchart signal. *)
Theorem question_without_number (text : list N) :
  63 ∈ text -> Forall (fun c => isdecimal c = false) text ->
  detect_visual_type text (py "auto") = Ok FLOWCHART.
Proof.
  intros Hq Hnum.
  pose proof (no_key_value_no_chart _ text key_value_demands_digit) as Hchart.
  unfold detect_visual_type in *.
  replace (str_eqb (py "auto") (py "auto")) with true in * by reflexivity.
  cbn [negb] in *. destruct (_ || _).
  - exfalso. apply Hchart; [|done]. eapply Forall_impl; [exact Hnum|].
    intros c Hc. by rewrite Hc.
  - apply has_char_true in Hq. rewrite Hq. by rewrite orb_true_r.
Qed.

End SignalCharacters.

Section Redaction.
Context `{UnicodeData}.

Local Ltac compare_chars :=
  repeat (match goal with
          | |- context [N.leb ?a ?b] => destruct (N.leb_spec a b)
          | |- context [N.ltb ?a ?b] => destruct (N.ltb_spec a b)
          | |- context [N.eqb ?a ?b] => destruct (N.eqb_spec a b)
          end; cbn [andb orb negb xorb]);
  try done; try lia.

Lemma plain_literal (p : N) (c : N) :
  has_char p (py "@:=-") = true ->
  atom_ok true (Lit p) c = true -> plain c = false.
Proof.
  intros Hp. unfold plain, atom_ok, casefold.
  destruct (is_ascii c) eqn:Ha; [|done].
  change (py "@:=-") with [64; 58; 61; 45] in *. unfold has_char in *. cbn [existsb] in *.
  assert (Hcases : p = 64 \/ p = 58 \/ p = 61 \/ p = 45).
  { revert Hp. compare_chars; auto. }
  unfold ascii_lower, ascii_isupper, ascii_isdigit, between.
  destruct Hcases as [->|[->|[->| ->]]]; cbn [is_ascii N.ltb N.compare Pos.compare
    Pos.compare_cont N.leb andb]; compare_chars.
Qed.

Lemma plain_digit (c : N) : atom_ok true digit c = true -> plain c = false.
Proof.
  unfold plain, atom_ok, digit, among, casefold. cbn [existsb cclass_has xorb andb].
  destruct (is_ascii c) eqn:Ha; [|done].
  unfold isdecimal, decimal_value, ascii_upper, ascii_lower, ascii_isupper, ascii_islower,
    is_ascii, ascii_isdigit, between in *.
  revert Ha. compare_chars.
Qed.

Lemma plain_sign (c : N) :
  atom_ok true (Among false (one_of ":=")) c = true -> plain c = false.
Proof.
  change (one_of ":=") with [CChar 58; CChar 61].
  unfold plain, atom_ok, among, casefold. cbn [existsb cclass_has xorb andb].
  destruct (is_ascii c) eqn:Ha; [|done].
  change (py "@:=-") with [64; 58; 61; 45]. unfold has_char. cbn [existsb].
  unfold ascii_upper, ascii_lower, ascii_isupper, ascii_islower, is_ascii, ascii_isdigit,
    between in *.
  revert Ha. compare_chars.
Qed.

Lemma email_demands : demands true (fun c => plain c = false) RE_EMAIL.
Proof.
  unfold RE_EMAIL. apply demands_cat. do 2 apply Exists_cons_tl. apply Exists_cons_hd.
  apply (demands_lit _ _ _ 64); [by left|]. intros c. by apply plain_literal.
Qed.

Lemma card_demands : demands true (fun c => plain c = false) RE_CARD.
Proof.
  unfold RE_CARD. apply demands_cat. apply Exists_cons_tl, Exists_cons_hd.
  split; [cbn; lia|]. exact plain_digit.
Qed.

Lemma password_demands : demands true (fun c => plain c = false) RE_PASSWORD.
Proof.
  unfold RE_PASSWORD. apply demands_cat. do 3 apply Exists_cons_tl. apply Exists_cons_hd.
  exact plain_sign.
Qed.

Lemma secret_key_demands : demands true (fun c => plain c = false) RE_SECRET_KEY.
Proof.
  unfold RE_SECRET_KEY. apply demands_cat. do 2 apply Exists_cons_tl. apply Exists_cons_hd.
  apply (demands_lit _ _ _ 45); [by left|]. intros c. by apply plain_literal.
Qed.

(** X4. Redaction leaves a plain text as it is: a text of ASCII characters
    without a digit and without [@], [:], [=] and [-] has no match of any
    of the four secret patterns of [__init__]. *)
Theorem redact_secrets_plain (text : list N) :
  Forall (fun c => plain c = true) text ->
  redact_secrets text __init__ = (text, __init__).
Proof.
  intros Hplain.
  assert (Hnot : Forall (fun c => ~ plain c = false) text).
  { eapply Forall_impl; [exact Hplain|]. intros c ->. done. }
  unfold redact_secrets, __init__. rewrite run_bind. cbn [get fst snd secret_patterns].
  cbn [fold_left fst snd mret state_ret].
  rewrite (re_sub_demands true _ RE_EMAIL _ _ email_demands Hnot).
  rewrite (re_sub_demands true _ RE_CARD _ _ card_demands Hnot).
  rewrite (re_sub_demands true _ RE_PASSWORD _ _ password_demands Hnot).
  rewrite (re_sub_demands true _ RE_SECRET_KEY _ _ secret_key_demands Hnot).
  reflexivity.
Qed.

End Redaction.

(** ** Splitting and stripping *)

Section LineProperties.
Context `{UnicodeData}.

Lemma groupless_caps ci r pre w rest cs cs' :
  groupless r = true -> matches ci r pre w rest cs cs' -> cs' = cs.
Proof.
  revert pre w rest cs cs'.
  induction r as [|a|a lo hi greedy|r1 IH1 r2 IH2|r1 IH1 r2 IH2|n r1 IH1|r1 IH1| | | |r1 IH1];
    intros pre w rest cs cs'; cbn [groupless matches]; try done.
  - by intros _ [_ ->].
  - by intros _ [_ ->].
  - by intros _ (_ & _ & _ & ->).
  - intros [H1 H2]%andb_true_iff (w1 & w2 & cs1 & _ & Hm1 & Hm2).
    apply IH1 in Hm1 as ->; [|done]. by apply IH2 in Hm2.
  - intros [H1 H2]%andb_true_iff [Hm|Hm]; [by eapply IH1 | by eapply IH2].
  - intros H1 [Hm|[_ ->]]; [by eapply IH1 | done].
  - by intros _ (_ & _ & ->).
  - by intros _ (_ & _ & ->).
  - by intros _ (_ & _ & ->).
  - intros H1 (_ & w1 & rest1 & _ & Hm). by eapply IH1.
Qed.

Lemma split_char_nonempty sep s : split_char sep s <> [].
Proof.
  destruct s as [|c s]; [done|]. cbn [split_char].
  destruct (c =? sep); [done|]. by destruct (split_char sep s).
Qed.

(** [(a + sep + b).split(sep) == a.split(sep) + b.split(sep)] *)
Lemma split_char_app sep a b :
  split_char sep (a ++ sep :: b) = split_char sep a ++ split_char sep b.
Proof.
  induction a as [|c a IH]; cbn [app split_char].
  - by rewrite N.eqb_refl.
  - destruct (c =? sep); [by rewrite IH|]. rewrite IH.
    pose proof (split_char_nonempty sep a). by destruct (split_char sep a).
Qed.

Lemma split_char_no_sep sep s p : p ∈ split_char sep s -> sep ∉ p.
Proof.
  revert p. induction s as [|c s IH]; intros p; cbn [split_char].
  - intros ->%list_elem_of_singleton. by intros ?%elem_of_nil.
  - destruct (N.eqb_spec c sep) as [->|Hne].
    + intros [->|Hp]%elem_of_cons; [by intros ?%elem_of_nil | by apply IH].
    + destruct (split_char sep s) as [|q qs] eqn:Hs.
      * intros ->%list_elem_of_singleton. intros [?|[]%elem_of_nil]%elem_of_cons. congruence.
      * intros [->|Hp]%elem_of_cons.
        -- intros [?|Hq]%elem_of_cons; [congruence|]. revert Hq. apply IH. by left.
        -- apply IH. by right.
Qed.

Lemma split_char_chars sep s p c : p ∈ split_char sep s -> c ∈ p -> c ∈ s.
Proof.
  revert p. induction s as [|d s IH]; intros p; cbn [split_char].
  - by intros ->%list_elem_of_singleton.
  - destruct (d =? sep).
    + intros [->|Hp]%elem_of_cons; [by intros ?%elem_of_nil|].
      intros Hc. right. by eapply IH.
    + destruct (split_char sep s) as [|q qs] eqn:Hs.
      * intros ->%list_elem_of_singleton [->|[]%elem_of_nil]%elem_of_cons. by left.
      * intros [->|Hp]%elem_of_cons.
        -- intros [->|Hq]%elem_of_cons; [by left|]. right. eapply IH; [by left|done].
        -- intros Hc. right. eapply IH; [by right|done].
Qed.

Lemma lstrip_suffix s : lstrip s `suffix_of` s.
Proof.
  induction s as [|c s IH]; cbn [lstrip]; [done|].
  destruct (isspace c); [by apply suffix_cons_r | done].
Qed.

Lemma lstrip_head s c : head (lstrip s) = Some c -> isspace c = false.
Proof.
  induction s as [|d s IH]; cbn [lstrip]; [done|].
  destruct (isspace d) eqn:Hd; [done|]. by intros [= <-].
Qed.

Lemma lstrip_id s c : head s = Some c -> isspace c = false -> lstrip s = s.
Proof. destruct s as [|d s]; [done|]. cbn. by intros [= ->] ->. Qed.

Lemma lstrip_nonempty s c : c ∈ s -> isspace c = false -> lstrip s <> [].
Proof.
  induction s as [|d s IH]; [by intros ?%elem_of_nil|]. cbn [lstrip].
  destruct (isspace d) eqn:Hd; [|done].
  intros [->|Hc]%elem_of_cons Hsp; [congruence | by apply IH].
Qed.

Lemma rstrip_prefix s : rstrip s `prefix_of` s.
Proof.
  unfold rstrip. destruct (lstrip_suffix (reverse s)) as [k Hk].
  exists (reverse k). apply (inj reverse). by rewrite reverse_app, !reverse_involutive.
Qed.

Lemma rstrip_last s c : last (rstrip s) = Some c -> isspace c = false.
Proof. unfold rstrip. rewrite last_reverse. apply lstrip_head. Qed.

Lemma rstrip_nonempty s c : c ∈ s -> isspace c = false -> rstrip s <> [].
Proof.
  intros Hc Hsp Hnil. unfold rstrip in Hnil.
  apply (f_equal reverse) in Hnil. rewrite reverse_involutive in Hnil.
  revert Hnil. apply (lstrip_nonempty _ c); [by apply elem_of_reverse | done].
Qed.

Lemma strip_chars s c : c ∈ strip s -> c ∈ s.
Proof.
  unfold strip. intros Hc.
  destruct (rstrip_prefix (lstrip s)) as [k Hk].
  destruct (lstrip_suffix s) as [k' Hk'].
  rewrite Hk', Hk. apply elem_of_app. right. apply elem_of_app. by left.
Qed.

(** The ends of a stripped string are no white space. *)
Lemma strip_ends s :
  (forall c, head (strip s) = Some c -> isspace c = false)
  /\ (forall c, last (strip s) = Some c -> isspace c = false).
Proof.
  unfold strip. split; [|apply rstrip_last].
  intros c Hc. destruct (rstrip_prefix (lstrip s)) as [k Hk].
  apply (lstrip_head s). rewrite Hk.
  destruct (rstrip (lstrip s)); [done|]. done.
Qed.

(** A string that starts with a character that is no white space keeps it
    when it is stripped. *)
Lemma strip_nonempty s c : head s = Some c -> isspace c = false -> strip s <> [].
Proof.
  intros Hc Hsp. unfold strip. rewrite (lstrip_id s c) by done.
  apply (rstrip_nonempty _ c); [|done]. destruct s; [done|]. injection Hc as ->. by left.
Qed.

Lemma nonblank_lines_inv text line :
  line ∈ nonblank_lines text ->
  line <> [] /\ (10 ∉ line)
  /\ (forall c, c ∈ line -> c ∈ text)
  /\ (forall c, head line = Some c -> isspace c = false)
  /\ (forall c, last line = Some c -> isspace c = false).
Proof.
  unfold nonblank_lines. intros Hin. apply list_elem_of_In, in_map_iff in Hin as (l & <- & Hl).
  apply list_elem_of_In, list_elem_of_filter in Hl as [Hne Hl].
  apply nonempty_true in Hne. split; [done|]. split; [|split].
  - intros Hc%strip_chars. by apply (split_char_no_sep _ _ _ Hl).
  - intros c Hc%strip_chars. by eapply split_char_chars.
  - apply strip_ends.
Qed.

Lemma nonblank_lines_app a b :
  nonblank_lines (a ++ 10 :: b) = nonblank_lines a ++ nonblank_lines b.
Proof. unfold nonblank_lines. by rewrite split_char_app, filter_app, map_app. Qed.

End LineProperties.

(** ** Identifiers *)

Lemma codes_inj (a b : string) : codes a = codes b -> a = b.
Proof.
  unfold codes. intros Heq.
  rewrite <- (string_of_list_ascii_of_string a), <- (string_of_list_ascii_of_string b).
  f_equal. revert Heq. generalize (list_ascii_of_string a) (list_ascii_of_string b).
  induction l as [|x l IH]; intros [|y l']; cbn; try done.
  intros [= Hxy Hl]. f_equal; [|by apply IH].
  by rewrite <- (ascii_N_embedding x), <- (ascii_N_embedding y), Hxy.
Qed.

Lemma str_of_int_inj (a b : Z) : str_of_int a = str_of_int b -> a = b.
Proof.
  unfold str_of_int. intros Heq%codes_inj.
  apply (f_equal NilZero.int_of_string) in Heq.
  assert (Hnil : forall z, Z.to_int z <> Decimal.Pos Decimal.Nil
                           /\ Z.to_int z <> Decimal.Neg Decimal.Nil).
  { intros [|p|p]; cbn; split; try done; intros [= Hp];
      by apply DecimalPos.Unsigned.to_uint_nonnil in Hp. }
  rewrite !NilZero.isi in Heq by apply Hnil.
  injection Heq as Heq. apply (f_equal Z.of_int) in Heq.
  by rewrite !DecimalZ.of_to in Heq.
Qed.

Lemma numbered_inj (i j : nat) : numbered i = numbered j -> i = j.
Proof.
  unfold numbered. intros Heq%app_inv_head%str_of_int_inj. lia.
Qed.

Lemma numbered_NoDup (n : nat) : NoDup (numbered <$> seq 0 n).
Proof.
  apply NoDup_fmap_2; [|apply NoDup_seq]. intros i j. apply numbered_inj.
Qed.

(** ** The chart parser and renderer *)

Section ChartRendering.
Context `{FloatLib}.

Lemma for_fold_total {A B} (xs : list A) (acc : B) (body : B -> A -> result B) :
  (forall acc x, exists acc', body acc x = Ok acc') ->
  exists r, for_fold xs acc body = Ok r.
Proof.
  intros Hbody. revert acc. induction xs as [|x xs IH]; intros acc; cbn [for_fold].
  - by eexists.
  - destruct (Hbody acc x) as [acc' ->]. cbn [mbind result_bind]. apply IH.
Qed.

(** X20. The chart renderer raises on a non-empty list of entries exactly
    when the maximum of the values compares equal to zero, and what it
    raises then is ZeroDivisionError; for every other list it returns. *)
Theorem chart_error (first : chart_item) (rest : list chart_item) (e : exn) :
  generate_chart_svg (first :: rest) = Raise e
  <-> e = ZeroDivisionError
      /\ PrimFloat.eqb (float_max (c_value first) (c_value <$> rest)) PrimFloat.zero = true.
Proof.
  unfold generate_chart_svg.
  unfold int_truediv.
  destruct (Z.eqb_spec (Z.of_nat (length (first :: rest))) 0) as [E|_];
    [cbn [length] in E; lia|].
  cbn [mbind result_bind].
  destruct (PrimFloat.eqb (float_max (c_value first) (c_value <$> rest)) PrimFloat.zero) eqn:Hmax.
  - unfold enumerate. cbn [length seq zip zip_with].
    erewrite for_fold_raises; [|cbn [snd]; unfold truediv; by rewrite Hmax].
    cbn [mbind result_bind]. split; [intros [= <-]; done | intros [-> _]; done].
  - match goal with
    | |- context [for_fold ?xs ?acc ?body] =>
        destruct (for_fold_total xs acc body) as [svg Hsvg]
    end.
    { intros acc x. unfold truediv. rewrite Hmax. cbn [mbind result_bind]. by eexists. }
    rewrite Hsvg. cbn [mbind result_bind]. split; [done | by intros [_ ?]].
Qed.

End ChartRendering.

Section ChartParsing.
Context `{UnicodeData}.

(** X21. The chart parser works line by line: the entries of two texts
    joined by a newline are the entries of the first followed by those of
    the second. *)
Theorem parse_chart_app (a b : list N) :
  parse_chart (a ++ 10 :: b) = parse_chart a ++ parse_chart b.
Proof. unfold parse_chart. by rewrite nonblank_lines_app, omap_app. Qed.

(** The first group of the chart pattern: it starts the line, is not
    empty and holds no colon and no equals sign. *)
Lemma chart_line_label line m :
  re_match false RE_CHART_LINE line = Some m ->
  exists w1 tail,
    line = w1 ++ tail /\ w1 <> []
    /\ Forall (fun c => c <> 58 /\ c <> 61) w1
    /\ grp line m 1 = w1.
Proof.
  intros Hm. apply match_here_sound in Hm as (w & rest & -> & Hm & _).
  unfold RE_CHART_LINE in Hm. cbn [cat foldr] in Hm.
  set (value := Cat (plus digit) _) in Hm.
  assert (Hvalue : groupless value = true) by reflexivity.
  clearbody value. cbn [matches plus star] in Hm.
  destruct Hm as (w1 & w2 & cs1 & -> & (cs0 & (Hw1 & Hlen & _ & ->) & ->) & Hm).
  destruct Hm as (wa & wb & csa & -> & (_ & _ & _ & ->) & Hm).
  destruct Hm as (wc & wd & csc & -> & (_ & ->) & Hm).
  destruct Hm as (we & wf & cse & -> & (_ & _ & _ & ->) & Hm).
  destruct Hm as (wg & wh & csg & -> & (csv & Hv & ->) & (_ & Hcaps)).
  apply groupless_caps in Hv as ->; [|done].
  exists w1, (wa ++ wc ++ we ++ (wg ++ wh) ++ rest). split; [by rewrite <- !app_assoc|].
  split; [destruct w1; [cbn in Hlen; lia | done]|]. split.
  - eapply Forall_impl; [exact Hw1|]. intros c.
    change (one_of ":=") with [CChar 58; CChar 61]. cbn.
    destruct (N.eqb_spec c 58); [done|]. destruct (N.eqb_spec c 61); done.
  - unfold grp, group. rewrite Hcaps. cbn [list_find fst snd].
    rewrite decide_False by done. rewrite decide_True by done.
    cbn [fmap option_fmap option_map prod_map fst snd default from_option id length Nat.add].
    unfold slice. rewrite Nat.sub_0_r, drop_0, <- !app_assoc. by rewrite take_app_length.
Qed.

(** X22. The label of every chart entry is not empty and holds neither a
    colon nor an equals sign. *)
Theorem chart_labels (text : list N) :
  Forall (fun item => c_label item <> [] /\ (58 ∉ c_label item) /\ (61 ∉ c_label item))
         (parse_chart text).
Proof.
  apply Forall_forall. intros item.
  unfold parse_chart. intros (line & Hline & Hitem)%list_elem_of_omap.
  destruct (re_match false RE_CHART_LINE line) as [m|] eqn:Hm; [|done].
  injection Hitem as <-. cbn [c_label].
  apply nonblank_lines_inv in Hline as (Hne & _ & _ & Hhead & _).
  apply chart_line_label in Hm as (w1 & tail & -> & Hw1 & Hchars & ->).
  destruct w1 as [|c w1]; [done|]. split; [|split].
  - apply (strip_nonempty _ c); [done|]. by apply Hhead.
  - intros Hc%strip_chars. rewrite Forall_forall in Hchars. by destruct (Hchars _ Hc).
  - intros Hc%strip_chars. rewrite Forall_forall in Hchars. by destruct (Hchars _ Hc).
Qed.

End ChartParsing.

(** ** Where the nodes and the edges of a diagram come from *)

Section DiagramProvenanceProofs.
Context `{UnicodeData}.
Import Diagram.

Lemma tidy_initial K : tidy K dg_initial.
Proof.
  split; cbn [dg_initial nodes edges edge_set].
  - by intros i n ?.
  - by intros n ?%elem_of_nil.
  - apply NoDup_nil_2.
  - by intros e ?%elem_of_nil.
Qed.

Lemma tidily_add_node K l : K (canon l) -> tidily K (add_node l).
Proof.
  intros HK st [Hids Hlabels Hedges Hkeys]. unfold add_node.
  destruct (nonempty (canon l)) eqn:Hne; cbn [negb]; [|done].
  case_bool_decide; cbn [snd]; [|done].
  split; cbn [nodes edges edge_set]; try done.
  - intros i n. rewrite lookup_app_Some. intros [Hi|[Hlen Hi]]; [by apply Hids|].
    apply list_lookup_singleton_Some in Hi as [Hi <-]. cbn [id]. unfold numbered.
    by replace i with (length (nodes st)) by lia.
  - intros n [Hn| ->%list_elem_of_singleton]%elem_of_app; [by apply Hlabels|].
    cbn [label]. split; [by apply nonempty_true | done].
Qed.

Lemma tidily_add_edge K f t : tidily K (add_edge f t).
Proof.
  intros st [Hids Hlabels Hedges Hkeys]. unfold add_edge.
  case_bool_decide as Hnew; cbn [snd]; [|done].
  split; cbn [nodes edges edge_set]; try done.
  - apply NoDup_app. split; [done|]. split; [|apply NoDup_singleton].
    intros e He ->%list_elem_of_singleton. apply Hnew. by apply (Hkeys _ He).
  - intros e [He| ->%list_elem_of_singleton]%elem_of_app; apply elem_of_union.
    + right. by apply Hkeys.
    + left. by apply elem_of_singleton.
Qed.

Lemma tidily_connect K a b : K (canon a) -> K (canon b) -> tidily K (connect a b).
Proof.
  intros Ha Hb st Hst. unfold connect. rewrite !run_bind.
  pose proof (tidily_add_node K a Ha st Hst) as H1.
  pose proof (tidily_add_node K b Hb _ H1) as H2.
  destruct (add_node a st).1; [|done]. destruct (add_node b _).1; [|done].
  by apply tidily_add_edge.
Qed.

Lemma tidily_for_each {A} K (xs : list A) (body : A -> State dg_state unit) :
  (forall x, x ∈ xs -> tidily K (body x)) -> tidily K (for_each xs body).
Proof.
  induction xs as [|x xs IH]; intros Hbody st Hst; [done|].
  cbn [for_each]. rewrite run_bind. apply IH.
  - intros y Hy. apply Hbody. by right.
  - apply Hbody; [by left | done].
Qed.

Lemma tidily_arrow_line K line :
  (forall m, m ∈ line_mentions line -> K (mention_key m)) -> tidily K (arrow_line line).
Proof.
  unfold line_mentions, arrow_line, when. destruct (has_arrow line); [|by intros _ st Hst].
  intros HK. apply tidily_for_each. intros i Hi.
  apply tidily_connect.
  - apply (HK (Segment _)). apply list_elem_of_In, in_flat_map. exists i.
    split; [by apply list_elem_of_In | by left].
  - apply (HK (Segment _)). apply list_elem_of_In, in_flat_map. exists i.
    split; [by apply list_elem_of_In | right; by left].
Qed.

Lemma tidily_verb_phrase K phrase :
  (forall m, m ∈ phrase_mentions phrase -> K (mention_key m)) ->
  tidily K (verb_phrase phrase).
Proof.
  unfold phrase_mentions, verb_phrase. destruct (first_match phrase) as [m|]; [|by intros _ st Hst].
  intros HK. apply tidily_connect.
  - apply (HK (Span _)). by left.
  - apply (HK (Span _)). right. by left.
Qed.

Lemma final_state_tidy text : tidy (mentioned text) (final_state text).
Proof.
  unfold final_state. rewrite run_bind.
  apply tidily_for_each.
  { intros phrase Hp. apply tidily_verb_phrase. intros m Hm. exists m. split; [|done].
    unfold mentions. apply elem_of_app. right.
    apply list_elem_of_In, in_flat_map. exists phrase. by split; apply list_elem_of_In. }
  apply tidily_for_each; [|apply tidy_initial].
  intros line Hl. apply tidily_arrow_line. intros m Hm. exists m. split; [|done].
  unfold mentions. apply elem_of_app. left.
  apply list_elem_of_In, in_flat_map. exists line. by split; apply list_elem_of_In.
Qed.

(** A list whose items are numbered in their order. *)
Lemma numbered_list {A} (f : A -> list N) (xs : list A) :
  (forall i x, xs !! i = Some x -> f x = numbered i) ->
  f <$> xs = numbered <$> seq 0 (length xs).
Proof.
  intros Hxs. apply list_eq. intros i. rewrite !list_lookup_fmap.
  destruct (xs !! i) as [x|] eqn:Hx; cbn.
  - rewrite (Hxs i x Hx). apply lookup_lt_Some in Hx.
    by rewrite lookup_seq_lt.
  - apply lookup_ge_None in Hx. by rewrite lookup_seq_ge.
Qed.

(** X17. The nodes of a diagram are the entities that the text mentions,
    and nothing else: a string labels a node exactly when it is the key of
    a mention and is not empty. *)
Theorem diagram_nodes_mentioned (text : list N) (k : list N) :
  k ∈ label <$> (parse_diagram text).1 <-> k <> [] /\ mentioned text k.
Proof.
  rewrite parse_diagram_final. cbn [fst]. split.
  - intros (n & -> & Hn)%list_elem_of_fmap.
    by apply (tidy_labels _ _ (final_state_tidy text)).
  - intros [Hk (m & Hm & <-)]. by apply final_state_covers.
Qed.

(** X18. The nodes of a diagram are numbered in their order: the
    identifiers are "node_0", "node_1", ..., and no two nodes share one. *)
Theorem diagram_ids_numbered (text : list N) :
  id <$> (parse_diagram text).1 = numbered <$> seq 0 (length (parse_diagram text).1)
  /\ NoDup (id <$> (parse_diagram text).1).
Proof.
  assert (Heq : id <$> (parse_diagram text).1
                = numbered <$> seq 0 (length (parse_diagram text).1)).
  { rewrite parse_diagram_final. cbn [fst]. apply numbered_list.
    apply (tidy_ids _ _ (final_state_tidy text)). }
  split; [done|]. rewrite Heq. apply numbered_NoDup.
Qed.

(** X19. No edge occurs twice in a diagram: a connection that the text
    states again adds nothing. *)
Theorem diagram_edges_distinct (text : list N) : NoDup (parse_diagram text).2.
Proof.
  rewrite parse_diagram_final. cbn [snd]. apply (tidy_edges _ _ (final_state_tidy text)).
Qed.

End DiagramProvenanceProofs.

(** ** Results on the flowchart parser, the layout and the entry point *)

Section FlowchartResults.
Context `{UnicodeData}.
Import Flowchart.

(** X6. The nodes of a flowchart are numbered in their order: the
    identifiers are "node_0", "node_1", ..., and no two nodes share one. *)
Theorem flowchart_ids_numbered (text : list N) :
  n_id <$> (parse_flowchart text).1 = numbered <$> seq 0 (length (parse_flowchart text).1)
  /\ NoDup (n_id <$> (parse_flowchart text).1).
Proof.
  assert (Heq : n_id <$> (parse_flowchart text).1
                = numbered <$> seq 0 (length (parse_flowchart text).1)).
  { apply numbered_list. intros i n. apply parse_flowchart_ids. }
  split; [done|]. rewrite Heq. apply numbered_NoDup.
Qed.

(** X7. No two nodes of a flowchart have the same label: a label that
    comes again stands for the node it has. *)
Theorem flowchart_labels_distinct (text : list N) :
  NoDup (n_label <$> (parse_flowchart text).1).
Proof.
  destruct (parse_flowchart_final text) as (st & Hwf & ->). apply (flow_labels _ Hwf).
Qed.

Lemma parse_flowchart_closed (text : list N) :
  targets_closed (parse_flowchart text).1 (parse_flowchart text).2.
Proof.
  destruct (parse_flowchart_final text) as (st & Hwf & ->). cbn [fst snd].
  intros e He. pose proof (flow_targets _ Hwf) as Ht. rewrite Forall_forall in Ht.
  by apply Ht.
Qed.

(** X8. Every edge of a flowchart ends at a node of the flowchart: its
    [to_node] is the identifier of one. *)
Theorem flowchart_edges_end_at_nodes (text : list N) :
  Forall (fun e => exists n, n ∈ (parse_flowchart text).1 /\ n_id n = to_node e)
         (parse_flowchart text).2.
Proof. apply Forall_forall. apply parse_flowchart_closed. Qed.

(** X9. Every node of a flowchart is a decision, a terminal or a process,
    and every edge has no label or the label "Yes" or "No". *)
Theorem flowchart_kinds (text : list N) :
  Forall (fun n => n_type n ∈ [py "decision"; py "terminal"; py "process"])
         (parse_flowchart text).1
  /\ Forall (fun e => e_label e ∈ [None; Some (py "Yes"); Some (py "No")])
            (parse_flowchart text).2.
Proof.
  destruct (parse_flowchart_final text) as (st & Hwf & ->). cbn [fst snd]. split.
  - eapply Forall_impl; [apply (flow_node_kinds _ Hwf)|].
    intros n [->|[->| ->]]; [left | right; left | right; right; left].
  - eapply Forall_impl; [apply (flow_edge_kinds _ Hwf)|].
    intros e [->|[->| ->]]; [left | right; left | right; right; left].
Qed.

(** X10. A layout has a cell for every node, and every cell stands under
    the identifier of the node it holds, which is a node of the list. *)
Theorem layout_places_nodes (nodes : list Node) (edges : list Edge)
    (lay : gmap (list N) cell) :
  _calculate_flowchart_layout nodes edges = Ok lay ->
  (forall n, n ∈ nodes -> is_Some (lay !! n_id n))
  /\ (forall k c, lay !! k = Some c -> cell_node c ∈ nodes /\ n_id (cell_node c) = k).
Proof.
  intros (Hall & Hcells & _ & _)%layout_spec. split; [done|].
  intros k c Hk. destruct (Hcells k c Hk) as [(? & ? & _) _]. done.
Qed.

(** X11. No cell of a layout is in a negative column or row, and some
    cell is in column 0. *)
Theorem layout_columns (nodes : list Node) (edges : list Edge)
    (lay : gmap (list N) cell) :
  _calculate_flowchart_layout nodes edges = Ok lay ->
  (forall k c, lay !! k = Some c -> (0 <= col c)%Z /\ (0 <= row c)%Z)
  /\ (exists k c, lay !! k = Some c /\ col c = 0%Z).
Proof.
  intros (_ & Hcells & Hzero & _)%layout_spec. split; [|done].
  intros k c Hk. destruct (Hcells k c Hk) as [(_ & _ & ?) ?]. done.
Qed.

(** X12. The start node, which is the first node that no edge ends at or
    else the first node, is in row 0 of the layout. *)
Theorem layout_start (nodes : list Node) (edges : list Edge)
    (lay : gmap (list N) cell) (s : Node) :
  _calculate_flowchart_layout nodes edges = Ok lay ->
  start_node nodes edges = Some s ->
  exists c, lay !! n_id s = Some c /\ row c = 0%Z.
Proof. intros (_ & _ & _ & Hstart)%layout_spec. apply Hstart. Qed.

(** X13. The layout is computed, or the list of nodes is empty and the
    function raises IndexError, or it raises KeyError and some edge ends at
    no node. It raises nothing else: the minimum of the columns is taken of
    a layout that is not empty. *)
Theorem layout_outcomes (nodes : list Node) (edges : list Edge) :
  (exists lay, _calculate_flowchart_layout nodes edges = Ok lay)
  \/ (nodes = [] /\ _calculate_flowchart_layout nodes edges = Raise IndexError)
  \/ (_calculate_flowchart_layout nodes edges = Raise KeyError
      /\ ~ targets_closed nodes edges).
Proof.
  destruct nodes as [|first rest] eqn:Hnodes; [right; left; done|].
  rewrite <- Hnodes.
  destruct (layout_cases nodes edges) as [Hok|Hkey]; [by rewrite Hnodes | by left |].
  right. by right.
Qed.

End FlowchartResults.

Section HtmlResults.
Context `{UnicodeData} `{FloatLib}.

(** X14. The flowchart renderer returns, or the list of nodes is not
    empty and it raises KeyError and some edge ends at no node. For an
    empty list of nodes it returns, and the maxima of the columns and the
    rows never fail. *)
Theorem flowchart_svg_outcomes (nodes : list Node) (edges : list Edge) :
  (exists svg, generate_flowchart_svg (nodes, edges) = Ok svg)
  \/ (nodes <> []
      /\ generate_flowchart_svg (nodes, edges) = Raise KeyError
      /\ ~ targets_closed nodes edges).
Proof.
  unfold generate_flowchart_svg. cbn [fst snd].
  case_bool_decide as Hne; [left; by eexists|].
  destruct (layout_cases nodes edges Hne) as [[lay Hlay]|[Hkey Hopen]].
  - left. rewrite Hlay. cbn [mbind result_bind].
    destruct (layout_spec _ _ _ Hlay) as (_ & _ & (k & c & Hk & _) & _).
    destruct (max_of_total _ (cells_nonempty col _ _ _ Hk)) as [mc ->].
    destruct (max_of_total _ (cells_nonempty row _ _ _ Hk)) as [mr ->].
    cbn [mbind result_bind]. by eexists.
  - right. rewrite Hkey. done.
Qed.

(** X15. With the hint "flowchart" the entry point raises nothing, for
    every text: the edges of the parsed flowchart end at its nodes, so the
    layout and the renderer return, and the object is left as it was. *)
Theorem flowchart_html_total (text : list N) (self : VisualAgent) :
  exists html, generate_html text (py "flowchart") self = (Ok html, self).
Proof.
  unfold generate_html. rewrite run_bind.
  destruct (redact_secrets text self) as [redacted self'] eqn:Hredact.
  assert (self' = self) as ->.
  { unfold redact_secrets in Hredact. rewrite run_bind in Hredact. by injection Hredact. }
  cbn [fst snd mret state_ret].
  replace (detect_visual_type redacted (py "flowchart")) with (Ok FLOWCHART) by reflexivity.
  cbn [mbind result_bind].
  pose proof (parse_flowchart_closed redacted) as Hclosed.
  destruct (Flowchart.parse_flowchart redacted) as [nodes edges].
  destruct (generate_flowchart_svg_total nodes edges Hclosed) as [svg ->].
  cbn [mbind result_bind]. by eexists.
Qed.

(** X16. A hint is one of "auto", "flowchart", "diagram" and "chart", or
    the entry point raises ValueError, whatever the text, and leaves the
    object as it was. *)
Theorem html_hint_or_error (text hint : list N) (self : VisualAgent) :
  hint ∈ [py "auto"; py "flowchart"; py "diagram"; py "chart"]
  \/ generate_html text hint self = (Raise ValueError, self).
Proof.
  destruct (decide (hint ∈ [py "auto"; py "flowchart"; py "diagram"; py "chart"]))
    as [Hin|Hhint]; [by left|right].
  unfold generate_html. rewrite run_bind.
  destruct (redact_secrets text self) as [redacted self'] eqn:Hredact.
  assert (self' = self) as ->.
  { unfold redact_secrets in Hredact. rewrite run_bind in Hredact. by injection Hredact. }
  cbn [fst snd mret state_ret]. unfold detect_visual_type.
  destruct (str_eqb hint (py "auto")) eqn:Hauto.
  { apply str_eqb_true in Hauto. exfalso. apply Hhint. subst hint. by left. }
  cbn [negb]. rewrite VisualType_of_value_unknown; [done|].
  intros Hin. apply Hhint. by right.
Qed.

End HtmlResults.

Section ClassifierResults.
Context `{UnicodeData}.

(** X1. A hint that is the value of a kind decides: the classifier
    returns that kind, whatever the text. *)
Theorem hint_round_trip (text : list N) (kind : VisualType) :
  detect_visual_type text (VisualType_value kind) = Ok kind.
Proof. by destruct kind. Qed.

(** X5. The lines that the three parsers read are not empty, hold no
    newline, and neither start nor end with white space. *)
Theorem nonblank_lines_stripped (text : list N) :
  Forall (fun line =>
            line <> [] /\ (10 ∉ line)
            /\ (forall c, head line = Some c -> isspace c = false)
            /\ (forall c, last line = Some c -> isspace c = false))
         (nonblank_lines text).
Proof.
  apply Forall_forall. intros line (? & ? & _ & ? & ?)%nonblank_lines_inv. done.
Qed.

End ClassifierResults.

(** ** What the renderers and the entry point can raise *)

Section Outcomes.
Context `{UnicodeData} `{FloatLib}.

Lemma returns_ok {A} (v : A) : returns_or_divides (Ok v).
Proof. left. by exists v. Qed.

Lemma returns_bind {A B} (r : result A) (f : A -> result B) :
  returns_or_divides r -> (forall v, r = Ok v -> returns_or_divides (f v)) ->
  returns_or_divides (r ≫= f).
Proof.
  intros [[v ->]| ->] Hf; cbn [mbind result_bind]; [by apply Hf | by right].
Qed.

Lemma returns_truediv x y : returns_or_divides (truediv x y).
Proof. unfold truediv. destruct (PrimFloat.eqb y PrimFloat.zero); [by right | apply returns_ok]. Qed.

Lemma returns_for_fold {A B} (xs : list A) (acc : B) (body : B -> A -> result B) :
  (forall acc x, x ∈ xs -> returns_or_divides (body acc x)) ->
  returns_or_divides (for_fold xs acc body).
Proof.
  revert acc. induction xs as [|x xs IH]; intros acc Hbody; cbn [for_fold].
  - apply returns_ok.
  - apply returns_bind; [apply Hbody; by left|]. intros acc' _. apply IH.
    intros acc'' y Hy. apply Hbody. by right.
Qed.

Lemma returns_border_point rect w h tx ty :
  returns_or_divides (_border_point rect w h tx ty).
Proof.
  unfold _border_point. destruct (_ && _); [apply returns_ok|].
  apply returns_bind; [apply returns_truediv|]. intros across _.
  apply returns_bind; [apply returns_truediv|]. intros along _.
  apply returns_bind; [destruct (PrimFloat.ltb _ _); apply returns_truediv|].
  intros scale _. apply returns_ok.
Qed.

(** The positions, when they are computed, hold every node's identifier. *)
Lemma positions_ids (n : nat) (items : list (nat * Diagram.node))
    (cx cy radius : float) (w h : Z) (acc positions : gmap (list N) position) :
  for_fold items acc (fun positions ii =>
    turn ← truediv (2 * math_pi * float_of_int (Z.of_nat ii.1))%float
                   (float_of_int (Z.of_nat n));
    let angle := (turn - math_pi / 2)%float in
    let x := (cx + radius * math_cos angle - half w)%float in
    let y := (cy + radius * math_sin angle - half h)%float in
    Ok (<[Diagram.id ii.2 := mkPosition x y (Diagram.label ii.2)]> positions)) = Ok positions ->
  (forall k, is_Some (acc !! k) -> is_Some (positions !! k))
  /\ (forall ii, ii ∈ items -> is_Some (positions !! Diagram.id ii.2)).
Proof.
  revert acc. induction items as [|ii items IH]; intros acc; cbn [for_fold].
  - intros [= <-]. split; [done|]. by intros ii ?%elem_of_nil.
  - destruct (truediv _ _) as [turn|e]; [|done]. cbn [mbind result_bind].
    intros [Hkeep Hitems]%IH. split.
    + intros k Hk. apply Hkeep. destruct (decide (Diagram.id ii.2 = k)) as [<-|Hne].
      * rewrite lookup_insert_eq. by eexists.
      * by rewrite lookup_insert_ne.
    + intros jj [->|Hjj]%elem_of_cons; [|by apply Hitems].
      apply Hkeep. rewrite lookup_insert_eq. by eexists.
Qed.

Lemma enumerate_elem {A} (xs : list A) (x : A) :
  x ∈ xs -> exists i, (i, x) ∈ enumerate xs.
Proof.
  intros [i Hi]%list_elem_of_lookup. exists i. unfold enumerate.
  apply list_elem_of_lookup. exists i. apply lookup_zip_with_Some.
  exists i, x. split; [done|]. split; [|done].
  apply lookup_seq. split; [done|]. by apply lookup_lt_Some in Hi.
Qed.

Lemma diagram_positions_outcomes nodes cx cy radius w h :
  returns_or_divides (diagram_positions nodes cx cy radius w h).
Proof.
  unfold diagram_positions. apply returns_for_fold. intros acc ii _.
  apply returns_bind; [apply returns_truediv|]. intros turn _. apply returns_ok.
Qed.

Lemma diagram_svg_returns_or_divides (data : list Diagram.node * list Diagram.edge) :
  returns_or_divides (generate_diagram_svg data).
Proof.
  unfold generate_diagram_svg. case_bool_decide; [apply returns_ok|].
  apply returns_bind; [apply diagram_positions_outcomes|]. intros positions Hpos.
  apply positions_ids in Hpos as [_ Hids].
  apply returns_bind.
  { apply returns_for_fold. intros svg edge _.
    destruct (head _) as [from_node|]; [|apply returns_ok].
    destruct (head _) as [to_node|]; [|apply returns_ok].
    destruct (positions !! _) as [from_pos|]; [|apply returns_ok].
    destruct (positions !! _) as [to_pos|]; [|apply returns_ok].
    apply returns_bind; [apply returns_border_point|]. intros start _.
    apply returns_bind; [apply returns_border_point|]. intros end_ _.
    apply returns_ok. }
  intros svg _. apply returns_bind; [|intros; apply returns_ok].
  apply returns_for_fold. intros svg' node Hnode.
  destruct (enumerate_elem _ _ Hnode) as [i Hi].
  destruct (Hids _ Hi) as [pos Hp]. cbn [snd] in Hp. rewrite Hp. apply returns_ok.
Qed.

Lemma returns_int_truediv a b : returns_or_divides (int_truediv a b).
Proof. unfold int_truediv. destruct (b =? 0)%Z; [by right | apply returns_ok]. Qed.

Lemma chart_svg_returns_or_divides (data : list chart_item) :
  returns_or_divides (generate_chart_svg data).
Proof.
  unfold generate_chart_svg. destruct data as [|first rest]; [apply returns_ok|].
  apply returns_bind; [apply returns_int_truediv|]. intros per_bar _.
  apply returns_bind; [|intros; apply returns_ok].
  apply returns_for_fold. intros svg ii _.
  apply returns_bind; [apply returns_truediv|]. intros ratio _. apply returns_ok.
Qed.

Lemma detect_visual_type_raises text hint e :
  detect_visual_type text hint = Raise e -> e = ValueError.
Proof.
  unfold detect_visual_type. destruct (negb _).
  - unfold VisualType_of_value. destruct (list_find _ _) as [[? ?]|]; [done|].
    by intros [= <-].
  - destruct (_ || _); [done|]. by destruct (_ || _).
Qed.

(** X23. The diagram renderer returns or raises ZeroDivisionError, for
    every list of nodes and edges: an edge whose ends are no labels of
    nodes is passed over, and every node has a position when it is drawn. *)
Theorem diagram_svg_outcomes (data : list Diagram.node * list Diagram.edge) :
  (exists svg, generate_diagram_svg data = Ok svg)
  \/ generate_diagram_svg data = Raise ZeroDivisionError.
Proof. apply diagram_svg_returns_or_divides. Qed.

(** X24. The entry point returns a document, or raises ValueError, or
    raises ZeroDivisionError, for every text and hint, and leaves the
    object as it was. It raises no KeyError and no IndexError: what the
    parsers return is what the renderers can take. *)
Theorem generate_html_outcomes (text hint : list N) (self : VisualAgent) :
  (exists html, generate_html text hint self = (Ok html, self))
  \/ generate_html text hint self = (Raise ValueError, self)
  \/ generate_html text hint self = (Raise ZeroDivisionError, self).
Proof.
  unfold generate_html. rewrite run_bind.
  destruct (redact_secrets text self) as [redacted self'] eqn:Hredact.
  assert (self' = self) as ->.
  { unfold redact_secrets in Hredact. rewrite run_bind in Hredact. by injection Hredact. }
  cbn [fst snd mret state_ret].
  destruct (detect_visual_type redacted hint) as [kind|e] eqn:Hkind.
  2:{ apply detect_visual_type_raises in Hkind as ->. right. by left. }
  cbn [mbind result_bind].
  assert (Hsvg : returns_or_divides
                   match kind with
                   | FLOWCHART => generate_flowchart_svg (Flowchart.parse_flowchart redacted)
                   | DIAGRAM => generate_diagram_svg (Diagram.parse_diagram redacted)
                   | CHART => generate_chart_svg (parse_chart redacted)
                   end).
  { destruct kind.
    - pose proof (parse_flowchart_closed redacted) as Hclosed.
      destruct (Flowchart.parse_flowchart redacted) as [nodes edges].
      destruct (generate_flowchart_svg_total nodes edges Hclosed) as [svg ->].
      apply returns_ok.
    - apply diagram_svg_returns_or_divides.
    - apply chart_svg_returns_or_divides. }
  destruct Hsvg as [[svg ->]| ->]; cbn [mbind result_bind].
  - left. by eexists.
  - right. by right.
Qed.

End Outcomes.

(** * Closed instances

    The theorems above hold for every character table. The instances below
    are evaluated with [ascii_only]; their texts are ASCII. *)

Section Instances.
#[local] Existing Instance ascii_only.
Import Diagram.

Lemma chart_signal_wins_witness :
  chart_signal (py "Start Q1: 5?")
  /\ flowchart_signal (py "Start Q1: 5?")
  /\ detect_visual_type (py "Start Q1: 5?") (py "auto") = Ok CHART.
Proof.
  assert (Hchart : chart_signal (py "Start Q1: 5?")).
  { left. split; vm_compute; eexists; reflexivity. }
  split; [exact Hchart|]. split.
  - left. vm_compute. eexists; reflexivity.
  - exact (chart_signal_wins (py "Start Q1: 5?") Hchart).
Defined.

Lemma invalid_hint_raises_witness :
  detect_visual_type (py "Q1: 5") (py "pie") = Raise ValueError.
Proof.
  apply (invalid_hint_raises (py "Q1: 5") (py "pie")).
  apply (bool_decide_unpack _). vm_compute. exact I.
Defined.

(** A segment of an arrow line and a span of a verb phrase with an article
    share the node "Server". *)
Lemma same_key_same_node_witness :
  let text := py "Server -> DB\nthe Server connects to Cache" in
  exists n : node,
    filter (fun x => label x = mention_key (Segment (py "Server")))
           (parse_diagram text).1 = [n]
    /\ filter (fun x => label x = mention_key (Span (py "the Server")))
              (parse_diagram text).1 = [n].
Proof.
  apply (same_key_same_node (py "Server -> DB\nthe Server connects to Cache")
           (Segment (py "Server")) (Span (py "the Server"))).
  - apply (bool_decide_unpack _). vm_compute. exact I.
  - apply (bool_decide_unpack _). vm_compute. exact I.
  - vm_compute. reflexivity.
  - vm_compute. discriminate.
Defined.

(** C3 fails as stated: "Server" and "the server" are one entity for the
    specification, and the parser makes the two nodes "Server" and
    "server" of them. *)
Lemma one_node_per_entity_counterexample :
  ~ one_node_per_entity (py "Server connects to DB\nthe server connects to Cache").
Proof.
  intros Hclaim.
  destruct (Hclaim (Span (py "Server")) (Span (py "the server"))) as [n Hn].
  - apply (bool_decide_unpack _). vm_compute. exact I.
  - apply (bool_decide_unpack _). vm_compute. exact I.
  - vm_compute. reflexivity.
  - vm_compute. discriminate.
  - vm_compute in Hn. discriminate Hn.
Qed.

(** The run behind the counterexample. *)
Example case_variants_are_two_nodes :
  parse_diagram (py "Server connects to DB\nthe server connects to Cache")
  = ([mkNode (py "node_0") (py "Server"); mkNode (py "node_1") (py "DB");
      mkNode (py "node_2") (py "server"); mkNode (py "node_3") (py "Cache")],
     [mkEdge (py "Server") (py "DB"); mkEdge (py "server") (py "Cache")]).
Proof. vm_compute. reflexivity. Qed.

(** The arrow pass strips no article: "the Server" and "Server" are two
    nodes when both are segments of arrow lines. *)
Example arrow_segment_keeps_article :
  parse_diagram (py "the Server -> DB\nServer -> Cache")
  = ([mkNode (py "node_0") (py "the Server"); mkNode (py "node_1") (py "DB");
      mkNode (py "node_2") (py "Server"); mkNode (py "node_3") (py "Cache")],
     [mkEdge (py "the Server") (py "DB"); mkEdge (py "Server") (py "Cache")]).
Proof. vm_compute. reflexivity. Qed.

(** A run of the two passes with a repeated edge and a reversed one. *)
Example edges_of_two_passes :
  parse_diagram (py "A -> B\nA connects to B\nB connects to A")
  = ([mkNode (py "node_0") (py "A"); mkNode (py "node_1") (py "B")],
     [mkEdge (py "A") (py "B"); mkEdge (py "B") (py "A")]).
Proof. vm_compute. reflexivity. Qed.
End Instances.

(** ** Closed instances of the results above *)

Section ResultInstances.
#[local] Existing Instance ascii_only.

Lemma chart_needs_number_witness :
  detect_visual_type (py "a: 1\nb: 2\nc: 3") (py "auto") = Ok CHART
  /\ (exists c, c ∈ py "a: 1\nb: 2\nc: 3" /\ isdecimal c = true)
  /\ (exists c, c ∈ py "a: 1\nb: 2\nc: 3" /\ (c = 58 \/ c = 61)).
Proof.
  assert (Hchart : detect_visual_type (py "a: 1\nb: 2\nc: 3") (py "auto") = Ok CHART)
    by (vm_compute; reflexivity).
  split; [exact Hchart|]. exact (chart_needs_number (py "a: 1\nb: 2\nc: 3") Hchart).
Defined.

Lemma question_without_number_witness :
  63 ∈ py "Is it done?"
  /\ Forall (fun c => isdecimal c = false) (py "Is it done?")
  /\ detect_visual_type (py "Is it done?") (py "auto") = Ok FLOWCHART.
Proof.
  assert (Hq : 63 ∈ py "Is it done?")
    by (apply (bool_decide_unpack _); vm_compute; exact I).
  assert (Hnum : Forall (fun c => isdecimal c = false) (py "Is it done?"))
    by (apply (bool_decide_unpack _); vm_compute; exact I).
  split; [exact Hq|]. split; [exact Hnum|].
  exact (question_without_number (py "Is it done?") Hq Hnum).
Defined.

Lemma redact_secrets_plain_witness :
  Forall (fun c => plain c = true) (py "Start the process")
  /\ redact_secrets (py "Start the process") __init__ = (py "Start the process", __init__).
Proof.
  assert (Hplain : Forall (fun c => plain c = true) (py "Start the process"))
    by (apply (bool_decide_unpack _); vm_compute; exact I).
  split; [exact Hplain|]. exact (redact_secrets_plain (py "Start the process") Hplain).
Defined.

Lemma layout_places_nodes_witness :
  exists lay,
    _calculate_flowchart_layout sample_nodes sample_edges = Ok lay
    /\ (forall n, n ∈ sample_nodes -> is_Some (lay !! n_id n))
    /\ (forall k c, lay !! k = Some c ->
                    cell_node c ∈ sample_nodes /\ n_id (cell_node c) = k).
Proof.
  destruct (_calculate_flowchart_layout sample_nodes sample_edges) as [lay|e] eqn:Hlay;
    [|vm_compute in Hlay; discriminate Hlay].
  exists lay. split; [reflexivity|].
  exact (layout_places_nodes sample_nodes sample_edges lay Hlay).
Defined.

Lemma layout_columns_witness :
  exists lay,
    _calculate_flowchart_layout sample_nodes sample_edges = Ok lay
    /\ (forall k c, lay !! k = Some c -> (0 <= col c)%Z /\ (0 <= row c)%Z)
    /\ (exists k c, lay !! k = Some c /\ col c = 0%Z).
Proof.
  destruct (_calculate_flowchart_layout sample_nodes sample_edges) as [lay|e] eqn:Hlay;
    [|vm_compute in Hlay; discriminate Hlay].
  exists lay. split; [reflexivity|].
  exact (layout_columns sample_nodes sample_edges lay Hlay).
Defined.

Lemma layout_start_witness :
  exists lay,
    _calculate_flowchart_layout sample_nodes sample_edges = Ok lay
    /\ exists c, lay !! py "node_0" = Some c /\ row c = 0%Z.
Proof.
  destruct (_calculate_flowchart_layout sample_nodes sample_edges) as [lay|e] eqn:Hlay;
    [|vm_compute in Hlay; discriminate Hlay].
  exists lay. split; [reflexivity|].
  apply (layout_start sample_nodes sample_edges lay
           (mkNode (py "node_0") (py "Start") (py "terminal")) Hlay).
  vm_compute. reflexivity.
Defined.

(** The layout of the sample: the decision under the start, its Yes
    branch to the right and its No branch to the left, all moved one
    column to the right so that the leftmost column is 0. *)
Example sample_layout :
  match _calculate_flowchart_layout sample_nodes sample_edges with
  | Ok lay => (fun n => (fun c => (col c, row c)) <$> lay !! n_id n) <$> sample_nodes
  | Raise _ => []
  end
  = [Some (1, 0)%Z; Some (1, 1)%Z; Some (2, 2)%Z; Some (0, 2)%Z].
Proof. vm_compute. reflexivity. Qed.

(** What the assignments are for. A call leaves its variables behind: the
    counter stands at 2 after "Open" and "Close". The statements of the
    parser without its first assignments go on from there, and the next
    call, which has them, starts at "node_0" again. *)
Example without_the_assignments :
  let vars := (parse_flowchart_run (py "Open\nClose") Flowchart.fc_initial).2 in
  Flowchart.node_id_counter vars = 2%nat
  /\ n_id <$> Flowchart.nodes
               ((for_each (nonblank_lines (py "Send")) Flowchart.parse_line;;
                 Flowchart.connect) vars).2
     = [py "node_0"; py "node_1"; py "node_2"]
  /\ n_id <$> (parse_flowchart_run (py "Send") vars).1.1 = [py "node_0"].
Proof. vm_compute. repeat split; reflexivity. Qed.

End ResultInstances.
